(** * Hobbs browser agent: a shallow embedding and its verified properties

    The development follows the JavaScript sources of the extension:
    - [Agent]        : [background/aiAgent.js], the THINK / ACT / OBSERVE
                       loop;
    - [Transport]    : [background/background.js], [sendMessageToTab] and
                       its retries;
    - [BrowserTools] : [content/browserTools.js], [extractText];
    - [Storage]      : [utils/storage.js], the bounded persisted lists.

    Conventions.  In the agent, the transport and the storage a
    JavaScript string is a [string]: a sequence of code units, restricted
    to those below 256 (message literals holding emoji are kept as their
    UTF-8 bytes; no statement depends on their length).  In the page
    tools, whose strings come from the page, a string is a [Text]: a list
    of UTF-16 code units, none left out.  A property that may be absent
    ([undefined]) is an [option].  Reads of the clock ([Date.now()]) only
    feed [timestamp] fields, which are left out of the records. *)

From stdpp Require Import base strings list gmap pretty.
From Stdlib Require Import ZArith Lia.

Open Scope string_scope.
Open Scope list_scope.

(** ** JavaScript string and truthiness helpers *)

Module JS.

(** The double-quote character, for template literals that embed one. *)
Definition dq : string := String (Ascii.ascii_of_nat 34) EmptyString.

(** [String.prototype.includes]: [sub] occurs somewhere in [s]. *)
Fixpoint includes (s sub : string) : bool :=
  String.prefix sub s ||
  match s with
  | EmptyString => false
  | String _ rest => includes rest sub
  end.

(** Interpolation [`${v}`] of a possibly missing string. *)
Definition show (v : option string) : string :=
  match v with
  | Some s => s
  | None => "undefined"
  end.

(** Truthiness of a possibly missing string: [undefined] and the empty
    string are falsy. *)
Definition truthy (v : option string) : bool :=
  match v with
  | Some s => negb (String.eqb s "")
  | None => false
  end.

(** [a || b] on possibly missing strings. *)
Definition or_else (a b : option string) : option string :=
  if truthy a then a else b.

(** [a === b] on possibly missing strings. *)
Definition strict_eq (a b : option string) : bool :=
  match a, b with
  | Some x, Some y => String.eqb x y
  | None, None => true
  | _, _ => false
  end.

(** [l.slice(-n)]: the last [n] elements of [l] (all of it when shorter). *)
Definition slice_last {A : Type} (n : nat) (l : list A) : list A :=
  drop (length l - n) l.

(** The message of the [TypeError] raised by reading property [p] of
    [undefined]. *)
Definition type_error (p : string) : string :=
  "Cannot read properties of undefined (reading '" +:+ p +:+ "')".

End JS.

(** ** The agent ([background/aiAgent.js]) *)

Module Agent.
Import JS.

(** *** Data *)

(** The arguments of one [browser_action] tool call: the planner's
    decision.  The tool schema requires [action] and [reasoning]. *)
Record FunctionCall := mkCall {
  action : string;
  target : option string;
  text : option string;
  reasoning : option string;
  summary : option string
}.

(** What [openai.chat] resolves to. *)
Record ToolCall := mkToolCall {
  name : string;
  arguments : FunctionCall
}.

Record ChatResponse := mkChatResponse {
  chat_success : bool;
  chat_error : option string;
  tool_call : option ToolCall
}.

(** The result of executing one action. *)
Record ActionResult := mkResult {
  success : bool;
  message : option string;
  error : option string;
  data : option string;
  url : option string
}.

(** An entry of [actionHistory], built by [recordAction]. *)
Record ActionRecord := mkRecord {
  rec_action : string;
  rec_target : option string;
  rec_text : option string;
  rec_step : nat
}.

(** A message of the conversation sent to the planner. *)
Record ChatMessage := mkMessage {
  role : string;
  content : string
}.

(** A progress event handed to [sendUpdate]. *)
Record Update := mkUpdate {
  u_type : string;
  u_message : string
}.

(** The mutable fields of an [AIAgent] instance. *)
Record AIAgent := mkAgent {
  isRunning : bool;
  currentTask : option string;
  stepCount : nat;
  maxSteps : nat;
  conversationHistory : list ChatMessage;
  tabId : option nat;
  lastAction : option ActionRecord;
  actionHistory : list ActionRecord;
  consecutiveFailures : Z
}.

(** [constructor]: a fresh agent. *)
Definition new : AIAgent :=
  {| isRunning := false; currentTask := None; stepCount := 0;
     maxSteps := 10; conversationHistory := []; tabId := None;
     lastAction := None; actionHistory := []; consecutiveFailures := 0 |}.

(** Field assignments. *)
Definition set_isRunning (v : bool) (a : AIAgent) : AIAgent :=
  mkAgent v (currentTask a) (stepCount a) (maxSteps a)
    (conversationHistory a) (tabId a) (lastAction a) (actionHistory a)
    (consecutiveFailures a).

Definition set_currentTask (v : option string) (a : AIAgent) : AIAgent :=
  mkAgent (isRunning a) v (stepCount a) (maxSteps a)
    (conversationHistory a) (tabId a) (lastAction a) (actionHistory a)
    (consecutiveFailures a).

Definition set_stepCount (v : nat) (a : AIAgent) : AIAgent :=
  mkAgent (isRunning a) (currentTask a) v (maxSteps a)
    (conversationHistory a) (tabId a) (lastAction a) (actionHistory a)
    (consecutiveFailures a).

Definition set_conversationHistory (v : list ChatMessage) (a : AIAgent)
  : AIAgent :=
  mkAgent (isRunning a) (currentTask a) (stepCount a) (maxSteps a)
    v (tabId a) (lastAction a) (actionHistory a) (consecutiveFailures a).

Definition set_tabId (v : option nat) (a : AIAgent) : AIAgent :=
  mkAgent (isRunning a) (currentTask a) (stepCount a) (maxSteps a)
    (conversationHistory a) v (lastAction a) (actionHistory a)
    (consecutiveFailures a).

Definition set_lastAction (v : option ActionRecord) (a : AIAgent)
  : AIAgent :=
  mkAgent (isRunning a) (currentTask a) (stepCount a) (maxSteps a)
    (conversationHistory a) (tabId a) v (actionHistory a)
    (consecutiveFailures a).

Definition set_actionHistory (v : list ActionRecord) (a : AIAgent)
  : AIAgent :=
  mkAgent (isRunning a) (currentTask a) (stepCount a) (maxSteps a)
    (conversationHistory a) (tabId a) (lastAction a) v
    (consecutiveFailures a).

Definition set_consecutiveFailures (v : Z) (a : AIAgent) : AIAgent :=
  mkAgent (isRunning a) (currentTask a) (stepCount a) (maxSteps a)
    (conversationHistory a) (tabId a) (lastAction a) (actionHistory a) v.

(** *** The environment of one task

    Everything the agent awaits is answered by the world.  Answers are
    indexed by the step ([stepCount] after its increment) at which they
    are awaited; each step awaits each of them at most once. *)

(** How the [Promise.race] of [act] settles: with the tab's response
    (possibly [undefined]) or with a rejection (the ten-second timer, or
    the transport giving up). *)
Inductive Delivery :=
| Resolved (response : option ActionResult)
| Rejected (reason : string).

Record World := mkWorld {
  (** what [openai.chat] resolves to *)
  chat : nat -> ChatResponse;
  (** [chrome.tabs.update]: [None] when it resolves, the error message
      when it rejects *)
  tabsUpdate : nat -> option string;
  (** how the race of [act] settles *)
  delivery : nat -> Delivery;
  (** an [AGENT_STOP] message is handled while [think] awaits *)
  stopWhileThinking : nat -> bool;
  (** ... while [act] awaits *)
  stopWhileActing : nat -> bool;
  (** ... during the pause that ends the iteration *)
  stopWhileSleeping : nat -> bool
}.

(** *** A monad for the methods: agent state, exceptions, sent updates *)

Inductive Completion (A : Type) :=
| Normal (value : A)
| Throw (reason : string).
Arguments Normal {A} value.
Arguments Throw {A} reason.

Record Outcome (A : Type) := mkOutcome {
  completion : Completion A;
  agent : AIAgent;
  sent : list Update
}.
Arguments mkOutcome {A} completion agent sent.
Arguments completion {A} o.
Arguments agent {A} o.
Arguments sent {A} o.

Definition M (A : Type) : Type := AIAgent -> Outcome A.

Definition ret {A : Type} (x : A) : M A :=
  fun a => mkOutcome (Normal x) a [].

Definition throw {A : Type} (reason : string) : M A :=
  fun a => mkOutcome (Throw reason) a [].

(** Continue from an outcome that was already reached. *)
Definition and_then {A B : Type} (o : Outcome A) (k : A -> M B)
  : Outcome B :=
  match completion o with
  | Normal x =>
      let o' := k x (agent o) in
      mkOutcome (completion o') (agent o') (sent o ++ sent o')
  | Throw e => mkOutcome (Throw e) (agent o) (sent o)
  end.

Definition bind {A B : Type} (m : M A) (k : A -> M B) : M B :=
  fun a => and_then (m a) k.

(** [try { ... } catch (error) { ... }] around an outcome. *)
Definition or_catch {A : Type} (o : Outcome A) (handler : string -> M A)
  : Outcome A :=
  match completion o with
  | Normal x => o
  | Throw e =>
      let o' := handler e (agent o) in
      mkOutcome (completion o') (agent o') (sent o ++ sent o')
  end.

Definition try_catch {A : Type} (m : M A) (handler : string -> M A)
  : M A :=
  fun a => or_catch (m a) handler.

Definition gets {A : Type} (f : AIAgent -> A) : M A :=
  fun a => mkOutcome (Normal (f a)) a [].

Definition modify (f : AIAgent -> AIAgent) : M unit :=
  fun a => mkOutcome (Normal tt) (f a) [].

Definition when (b : bool) (m : M unit) : M unit :=
  if b then m else ret tt.

Declare Scope agent_scope.
Delimit Scope agent_scope with agent.
Notation "x <- m ;; k" := (bind m (fun x => k))
  (at level 100, m at next level, right associativity) : agent_scope.
Notation "m ;; k" := (bind m (fun _ => k))
  (at level 100, right associativity) : agent_scope.
Open Scope agent_scope.

(** *** Methods *)

(** [sendUpdate]: hand one progress event to the side panel.  A failed
    delivery is only logged, so the agent is unaffected. *)
Definition sendUpdate (update : Update) : M unit :=
  fun a => mkOutcome (Normal tt) a [update].

Definition pushMessage (m : ChatMessage) : M unit :=
  modify (fun a =>
    set_conversationHistory (conversationHistory a ++ [m]) a).

Definition taskAborted : Update :=
  mkUpdate "task_aborted" "🛑 Task aborted by user".

Definition stopTask : M unit :=
  modify (set_isRunning false) ;;
  modify (set_currentTask None) ;;
  modify (set_stepCount 0) ;;
  modify (set_lastAction None) ;;
  modify (set_actionHistory []) ;;
  modify (set_consecutiveFailures 0) ;;
  sendUpdate taskAborted.

(** The background worker's [handleAgentStop], which serves the side
    panel's [AGENT_STOP]: it stops the agent only while it runs. *)
Definition handleAgentStop : M unit :=
  running <- gets isRunning ;;
  when running stopTask.

(** The comparison both tests of [isRepeatingAction] make. *)
Definition sameAction (r : ActionRecord) (functionCall : FunctionCall)
  : bool :=
  String.eqb (rec_action r) (action functionCall)
  && strict_eq (rec_target r) (target functionCall).

Definition isRepeatingAction (a : AIAgent) (functionCall : FunctionCall)
  : bool :=
  if match lastAction a with
     | Some r => sameAction r functionCall
     | None => false
     end
  then true
  else
    let recentActions := slice_last 2 (actionHistory a) in
    let sameActionCount :=
      length (List.filter (fun r => sameAction r functionCall)
                recentActions) in
    if (1 <=? sameActionCount)%nat then true else false.

Definition recordAction (functionCall : FunctionCall) : M unit :=
  step <- gets stepCount ;;
  let actionRecord :=
    mkRecord (action functionCall) (target functionCall)
      (text functionCall) step in
  modify (set_lastAction (Some actionRecord)) ;;
  modify (fun a => set_actionHistory (actionHistory a ++ [actionRecord]) a) ;;
  modify (fun a =>
    if (10 <? length (actionHistory a))%nat
    then set_actionHistory (slice_last 10 (actionHistory a)) a
    else a).

(** In [think]: the decision used when the response carries no
    [browser_action] tool call. *)
Definition fallbackCall : FunctionCall :=
  mkCall "extract_text" (Some "body") None
    (Some "No tool call received, extracting page content to understand current state")
    None.

Definition parseToolCall (response : ChatResponse) : FunctionCall :=
  match tool_call response with
  | Some tc =>
      if String.eqb (name tc) "browser_action" then arguments tc
      else fallbackCall
  | None => fallbackCall
  end.

(** In [think]: what a decision found to repeat is replaced by. *)
Definition forceProgression (functionCall : FunctionCall) : FunctionCall :=
  if String.eqb (action functionCall) "open" then
    mkCall "extract_text" (Some "body") None
      (Some "Already navigated, now extracting page content to proceed with task")
      None
  else if String.eqb (action functionCall) "click" then
    mkCall "extract_text" (Some "body") None
      (Some "Previous click failed, extracting page content to understand current state and find alternative approach")
      None
  else if String.eqb (action functionCall) "extract_text" then
    mkCall "finish" None None
      (Some "Preventing loop by finishing task")
      (Some "Task appears complete based on previous actions")
  else functionCall.

(** In [think]: loop detection applied to the parsed decision. *)
Definition loopDetection (a : AIAgent) (functionCall : FunctionCall)
  : FunctionCall :=
  if isRepeatingAction a functionCall then forceProgression functionCall
  else functionCall.

Definition think (w : World) (n : nat) : M FunctionCall :=
  sendUpdate (mkUpdate "thinking" "🤔 Thinking about next action...") ;;
  (* await this.openai.chat(...) *)
  when (stopWhileThinking w n) handleAgentStop ;;
  let response := chat w n in
  if negb (chat_success response) then
    throw ("AI thinking failed: " +:+ show (chat_error response))
  else
    functionCall <- gets (fun a => loopDetection a (parseToolCall response)) ;;
    recordAction functionCall ;;
    sendUpdate (mkUpdate "thinking" ("💭 " +:+ show (reasoning functionCall))) ;;
    ret functionCall.

(** The [actionEmojis] table (own keys only). *)
Definition actionEmojis (key : string) : option string :=
  if String.eqb key "open" then Some "🌐"
  else if String.eqb key "click" then Some "👆"
  else if String.eqb key "type" then Some "⌨️"
  else if String.eqb key "extract_text" then Some "📄"
  else if String.eqb key "finish" then Some "✅"
  else None.

Definition getActionMessage (thinking : FunctionCall) : string :=
  let emoji := show (or_else (actionEmojis (action thinking)) (Some "🔧")) in
  let message := emoji +:+ " " +:+ action thinking in
  let message :=
    if truthy (target thinking)
    then message +:+ ": " +:+ show (target thinking) else message in
  if truthy (text thinking)
  then message +:+ " (" +:+ dq +:+ show (text thinking) +:+ dq +:+ ")"
  else message.

Definition act (w : World) (n : nat) (thinking : FunctionCall)
  : M (option ActionResult) :=
  sendUpdate (mkUpdate "action" (getActionMessage thinking)) ;;
  if String.eqb (action thinking) "open" then
    (* await chrome.tabs.update(...); await this.sleep(3000) *)
    when (stopWhileActing w n) handleAgentStop ;;
    match tabsUpdate w n with
    | None =>
        ret (Some (mkResult true
                     (Some ("Navigated to " +:+ show (target thinking)))
                     None None (target thinking)))
    | Some reason =>
        ret (Some (mkResult false None
                     (Some ("Failed to navigate: " +:+ reason)) None None))
    end
  else
    (* await Promise.race([this.sendMessageToContent(...), timer]) *)
    when (stopWhileActing w n) handleAgentStop ;;
    match delivery w n with
    | Rejected reason => throw reason
    | Resolved result =>
        if String.eqb (action thinking) "click" then
          match target thinking with
          | None => throw (type_error "includes")
          | Some _ =>
              (* a target that includes 'submit' only adds a pause *)
              ret result
          end
        else ret result
    end.

(** The test [this.lastAction && this.lastAction.action === 'click' &&
    this.lastAction.target.includes('submit')] of [observe]. *)
Definition lastActionIsSubmitClick : M bool :=
  last <- gets lastAction ;;
  match last with
  | None => ret false
  | Some r =>
      if String.eqb (rec_action r) "click" then
        match rec_target r with
        | None => throw (type_error "includes")
        | Some t => ret (includes t "submit")
        end
      else ret false
  end.

Definition getNextActionSuggestion : M string :=
  last <- gets lastAction ;;
  match last with
  | None =>
      ret "Try extracting page content to understand what's available."
  | Some r =>
      if String.eqb (rec_action r) "click" then
        match rec_target r with
        | None => throw (type_error "includes")
        | Some lastTarget =>
            if includes lastTarget "search" || includes lastTarget "btn"
               || includes lastTarget "submit"
            then ret "The search button click failed. Try extracting page content to see if the search was successful, or try pressing Enter in the search box instead."
            else ret "The click failed. Try extract_text to see what's available on the page, or try a different selector."
        end
      else if String.eqb (rec_action r) "type" then
        ret "The typing failed. Try extracting page content to see if the input field is available, or try a different selector."
      else if String.eqb (rec_action r) "extract_text" then
        ret "Text extraction failed. Try a different selector or approach."
      else
        ret "Try a different approach or extract page content to understand what's available."
  end.

(** The test [actionResult.error && actionResult.error.includes('timeout')]
    of [observe]. *)
Definition timedOut (actionResult : ActionResult) : bool :=
  truthy (error actionResult)
  && includes (show (error actionResult)) "timeout".

(** Messages that [observe] adds to the conversation. *)
Definition submitSucceededNote : ChatMessage :=
  mkMessage "system" "Search button click was successful! The search has been submitted. Now extract the page content to see the search results and proceed with the task.".

Definition submitTimeoutNote : ChatMessage :=
  mkMessage "system" "Search button click timed out, but this often means the search was submitted successfully. Extract the page content to see if search results are displayed.".

Definition finishDirective : ChatMessage :=
  mkMessage "system" "Too many failures. Please use the finish action to complete what you can or explain what went wrong.".

Definition tooManyFailures : Update :=
  mkUpdate "system" "⚠️ Too many consecutive failures, attempting to complete task".

Definition resultMessage (actionResult : ActionResult) : ChatMessage :=
  mkMessage "user"
    ("Action result: "
     +:+ (if success actionResult then "SUCCESS" else "FAILED") +:+ ". "
     +:+ show (or_else (message actionResult) (error actionResult))
     +:+ (if truthy (data actionResult)
          then " Data: " +:+ show (data actionResult) else "")).

Definition observe (actionResult : ActionResult) : M unit :=
  observationMessage <-
    (if success actionResult then
       let observationMessage :=
         "👁️ Success: " +:+ show (message actionResult) in
       let observationMessage :=
         if truthy (data actionResult)
         then observationMessage +:+ " | Data: "
              +:+ String.substring 0 100 (show (data actionResult)) +:+ "..."
         else observationMessage in
       modify (set_consecutiveFailures 0) ;;
       submitted <- lastActionIsSubmitClick ;;
       when submitted (pushMessage submitSucceededNote) ;;
       ret observationMessage
     else
       timedOutSubmit <-
         (if timedOut actionResult
          then lastActionIsSubmitClick else ret false) ;;
       when timedOutSubmit
         (pushMessage submitTimeoutNote ;;
          modify (fun a =>
            set_consecutiveFailures
              (Z.max 0 (consecutiveFailures a - 1)) a)) ;;
       let observationMessage :=
         "❌ Failed: " +:+ show (error actionResult) in
       modify (fun a =>
         set_consecutiveFailures (consecutiveFailures a + 1) a) ;;
       failures <- gets consecutiveFailures ;;
       when (1 <=? failures)%Z
         (nextActionSuggestion <- getNextActionSuggestion ;;
          pushMessage
            (mkMessage "system"
               ("Action failed: " +:+ show (error actionResult) +:+ ". "
                +:+ nextActionSuggestion))) ;;
       failures <- gets consecutiveFailures ;;
       when (2 <=? failures)%Z
         (sendUpdate tooManyFailures ;;
          pushMessage finishDirective) ;;
       ret observationMessage) ;;
  sendUpdate (mkUpdate "observation" observationMessage) ;;
  pushMessage (resultMessage actionResult).

(** The newline character of the prompt's template literal. *)
Definition nl : string := String (Ascii.ascii_of_nat 10) EmptyString.

Definition getSystemPrompt : string :=
  "You are an AI browser automation agent. Your goal is to complete user tasks by controlling a web browser through available tools." +:+ nl
  +:+ nl
  +:+ "AVAILABLE TOOLS:" +:+ nl
  +:+ "- open(url): Navigate to a URL" +:+ nl
  +:+ "- click(selector): Click an element using CSS selector  " +:+ nl
  +:+ "- type(selector, text): Type text into an input field" +:+ nl
  +:+ "- extract_text(selector): Get text content from elements" +:+ nl
  +:+ "- finish(summary): Complete the task with a summary" +:+ nl
  +:+ nl
  +:+ "CORE PRINCIPLES:" +:+ nl
  +:+ "1. Think step-by-step before each action" +:+ nl
  +:+ "2. Always explain your reasoning" +:+ nl
  +:+ "3. Use simple, reliable selectors when possible" +:+ nl
  +:+ "4. If a selector fails, try different selectors or extract page content" +:+ nl
  +:+ "5. Extract page content to understand what's available" +:+ nl
  +:+ "6. NEVER repeat the same action twice in a row" +:+ nl
  +:+ "7. Complete tasks efficiently with minimal steps" +:+ nl
  +:+ "8. ALWAYS move forward - don't get stuck in loops" +:+ nl
  +:+ "9. If an action fails, try a DIFFERENT approach, don't retry the same action" +:+ nl
  +:+ "10. Maximum 2 attempts per action type, then move to next logical step" +:+ nl
  +:+ nl
  +:+ "TASK APPROACH:" +:+ nl
  +:+ "1. If user asks to " +:+ dq +:+ "go to" +:+ dq +:+ " a website, open it ONCE then extract page content" +:+ nl
  +:+ "2. If user asks to " +:+ dq +:+ "search for" +:+ dq +:+ " something, find the search box and search" +:+ nl
  +:+ "3. If user asks to " +:+ dq +:+ "buy" +:+ dq +:+ " or " +:+ dq +:+ "add to cart" +:+ dq +:+ ", find and click the appropriate buttons" +:+ nl
  +:+ "4. ALWAYS progress the task - each action should move closer to completion" +:+ nl
  +:+ "5. After successful navigation, immediately proceed to the next logical step" +:+ nl
  +:+ "6. Use extract_text to understand what's on the page before taking action" +:+ nl
  +:+ "7. Finish when the main objective is complete" +:+ nl
  +:+ nl
  +:+ "CRITICAL: Never repeat actions. If you just navigated somewhere, immediately extract page content or take the next action. Don't navigate to the same place twice." +:+ nl
  +:+ nl
  +:+ "Example flows:" +:+ nl
  +:+ "User: " +:+ dq +:+ "Go to Amazon and search for headphones" +:+ dq +:+ nl
  +:+ "1. open(amazon.com) " +:+ nl
  +:+ "2. extract_text(body) - see what's on the page" +:+ nl
  +:+ "3. type(input[name='field-keywords'], " +:+ dq +:+ "headphones" +:+ dq +:+ ")" +:+ nl
  +:+ "4. click(input[type='submit']) - if timeout, extract page content to check if search worked" +:+ nl
  +:+ "5. extract_text(body) - see search results" +:+ nl
  +:+ "6. click(.s-result-item .a-link-normal) - click first result" +:+ nl
  +:+ "7. click(#add-to-cart-button) - add to cart" +:+ nl
  +:+ "8. finish(" +:+ dq +:+ "Successfully added headphones to cart" +:+ dq +:+ ")" +:+ nl
  +:+ nl
  +:+ "User: " +:+ dq +:+ "Go to Google and search for Reddit" +:+ dq +:+ nl
  +:+ "1. open(google.com)" +:+ nl
  +:+ "2. extract_text(body) - see what's on the page  " +:+ nl
  +:+ "3. type([name='q'], " +:+ dq +:+ "Reddit" +:+ dq +:+ ")" +:+ nl
  +:+ "4. click([name='btnK']) - if timeout, extract page content to check if search worked" +:+ nl
  +:+ "5. finish(" +:+ dq +:+ "Successfully searched for Reddit on Google" +:+ dq +:+ ")" +:+ nl
  +:+ nl
  +:+ "Remember: PROGRESS THE TASK with each step. Don't repeat actions. If one approach fails, try a different one.".

(** *** The loop *)

(** How one pass through the body of the [while] loop ends. *)
Inductive Flow := Continue | Break.

(** The pause [await this.sleep(1000)] that ends an iteration. *)
Definition pause (w : World) (n : nat) : M unit :=
  when (stopWhileSleeping w n) handleAgentStop.

Definition taskCompleted (thinking : FunctionCall) : Update :=
  mkUpdate "system" ("✅ Task completed: " +:+ show (summary thinking)).

(** The [try] block of the loop body, at step [n]. *)
Definition tryBlock (w : World) (n : nat) : M Flow :=
  thinking <- think w n ;;
  running <- gets isRunning ;;
  if negb running then ret Break
  else if String.eqb (action thinking) "finish" then
    sendUpdate (taskCompleted thinking) ;;
    stopTask ;;
    ret Break
  else
    actionResult <- act w n thinking ;;
    running <- gets isRunning ;;
    if negb running then ret Break
    else
      match actionResult with
      | None => throw (type_error "success")
      | Some result => observe result
      end ;;
      pause w n ;;
      ret Continue.

(** Its [catch] block. *)
Definition catchBlock (reason : string) : M Flow :=
  step <- gets stepCount ;;
  sendUpdate (mkUpdate "system"
    ("⚠️ Step " +:+ pretty step +:+ " failed: " +:+ reason)) ;;
  pushMessage (mkMessage "system"
    ("Error occurred: " +:+ reason +:+ ". Try a different approach.")) ;;
  ret Continue.

Definition loopBody (w : World) : M Flow :=
  modify (fun a => set_stepCount (S (stepCount a)) a) ;;
  n <- gets stepCount ;;
  try_catch (tryBlock w n) catchBlock.

(** [this.isRunning && this.stepCount < this.maxSteps] *)
Definition loopCondition (a : AIAgent) : bool :=
  isRunning a && (stepCount a <? maxSteps a)%nat.

(** The [while] loop, run with [fuel] iterations at its disposal ([None]
    when they do not suffice).  Besides the outcome it returns the agent
    as it stood at each evaluation of the loop condition and when the
    loop was left, in order; one less than their number is the number
    of passes through the body. *)
Fixpoint whileLoop (fuel : nat) (w : World) (a : AIAgent)
  : option (list AIAgent * Outcome unit) :=
  if loopCondition a then
    match fuel with
    | O => None
    | S fuel' =>
        let o := loopBody w a in
        match completion o with
        | Normal Continue =>
            match whileLoop fuel' w (agent o) with
            | Some (heads, o') =>
                Some (a :: heads,
                      mkOutcome (completion o') (agent o')
                        (sent o ++ sent o'))
            | None => None
            end
        | Normal Break =>
            Some ([a; agent o], mkOutcome (Normal tt) (agent o) (sent o))
        | Throw reason =>
            Some ([a; agent o], mkOutcome (Throw reason) (agent o) (sent o))
        end
    end
  else Some ([a], mkOutcome (Normal tt) a []).

Definition maximumSteps : Update :=
  mkUpdate "system" "⏰ Task reached maximum steps limit".

(** What [agentLoop] does once the loop is left. *)
Definition afterLoop : M unit :=
  a <- gets (fun a => a) ;;
  when (maxSteps a <=? stepCount a)%nat
    (sendUpdate maximumSteps ;; stopTask).

Definition agentLoop (fuel : nat) (w : World) (a : AIAgent)
  : option (list AIAgent * Outcome unit) :=
  match whileLoop fuel w a with
  | Some (heads, o) => Some (heads, and_then o (fun _ => afterLoop))
  | None => None
  end.

(** [startTask] up to where [agentLoop] is entered. *)
Definition taskStarted (prompt : string) : Update :=
  mkUpdate "task_started"
    ("🤖 Starting task: " +:+ dq +:+ prompt +:+ dq).

Definition enterTask (prompt : string) (tab : nat) : M unit :=
  modify (set_isRunning true) ;;
  modify (set_currentTask (Some prompt)) ;;
  modify (set_tabId (Some tab)) ;;
  modify (set_stepCount 0) ;;
  modify (set_conversationHistory []) ;;
  modify (set_lastAction None) ;;
  modify (set_actionHistory []) ;;
  modify (set_consecutiveFailures 0) ;;
  sendUpdate (taskStarted prompt) ;;
  modify (set_conversationHistory
            [mkMessage "system" getSystemPrompt; mkMessage "user" prompt]).

(** The [catch] block of [startTask]. *)
Definition taskFailed (reason : string) : M unit :=
  sendUpdate (mkUpdate "system" ("❌ Task failed: " +:+ reason)) ;;
  stopTask.

Definition startTask (fuel : nat) (w : World) (prompt : string) (tab : nat)
  (a : AIAgent) : option (list AIAgent * Outcome unit) :=
  let entered := enterTask prompt tab a in
  match agentLoop fuel w (agent entered) with
  | Some (heads, o) =>
      Some (heads,
            or_catch
              (mkOutcome (completion o) (agent o) (sent entered ++ sent o))
              taskFailed)
  | None => None
  end.

End Agent.

(** ** The transport ([sendMessageToTab] of [background/background.js]) *)

Module Transport.
Import JS.

Section Delivery.

(** The type of what the content script answers. *)
Context {Response : Type}.

(** How one [chrome.tabs.sendMessage] ends: the callback receives the
    response (possibly [undefined]), or [chrome.runtime.lastError] is
    set. *)
Inductive Sent :=
| Responded (response : option Response)
| LastError (message : string).

(** The tab, as the retry loop meets it at each attempt. *)
Record Tab := mkTab {
  sendMessage : nat -> Sent;
  (** whether [chrome.scripting.executeScript] resolves *)
  executeScript : nat -> bool
}.

(** What the promise returned by [sendMessageToTab] settles to. *)
Inductive Settled :=
| Fulfilled (response : option Response)
| RejectedWith (message : string).

(** What the loop does to the outside, in order. *)
Inductive Effect :=
| SendMessage (attempt : nat)
| ExecuteScript (resolved : bool)
| Settle (ms : Z)
| Backoff (attempt : nat) (ms : Z).

(** [Math.min(1000 * Math.pow(2, attempt - 1), 5000)] *)
Definition delay (attempt : nat) : Z :=
  Z.min (1000 * 2 ^ (Z.of_nat attempt - 1)) 5000.

(** The test for the cache-related errors. *)
Definition cacheIssue (message : string) : bool :=
  includes message "back/forward cache"
  || includes message "Receiving end does not exist".

(** The re-injection of the content script, with the pause that follows
    it when it succeeds. *)
Definition reinject (tab : Tab) (attempt : nat) : list Effect :=
  if executeScript tab attempt
  then [ExecuteScript true; Settle 1000]
  else [ExecuteScript false].

(** The [for] loop from [attempt] on; [remaining] counts the values of
    [attempt] not above [maxRetries] that are left, so that none left
    is the loop condition failing (the function then returns
    [undefined]). *)
Fixpoint attempts (tab : Tab) (maxRetries : nat) (remaining attempt : nat)
  : Settled * list Effect :=
  match remaining with
  | O => (Fulfilled None, [])
  | S remaining' =>
      match sendMessage tab attempt with
      | Responded response => (Fulfilled response, [SendMessage attempt])
      | LastError message =>
          let recovery :=
            if cacheIssue message then reinject tab attempt else [] in
          if (attempt =? maxRetries)%nat then
            (RejectedWith message, SendMessage attempt :: recovery)
          else
            let rest := attempts tab maxRetries remaining' (S attempt) in
            (rest.1,
             SendMessage attempt
               :: recovery ++ Backoff attempt (delay attempt) :: rest.2)
      end
  end.

Definition sendMessageToTab (tab : Tab) (maxRetries : nat)
  : Settled * list Effect :=
  attempts tab maxRetries maxRetries 1.

(** The default value of the parameter [maxRetries]. *)
Definition defaultMaxRetries : nat := 5.

End Delivery.

Arguments Sent : clear implicits.
Arguments Tab : clear implicits.
Arguments Settled : clear implicits.

End Transport.

(** ** The page tools ([content/browserTools.js]) *)

Module BrowserTools.
Import JS.

(** *** Text

    The strings of the content script (what the page holds: the text of
    its elements, their attributes, the title, the address; selectors;
    what is made of them) are sequences of UTF-16 code units, each a
    number below 65536.  No code unit is left out. *)
Definition Text : Type := list N.

(** A string literal of the code, which holds ASCII only. *)
Definition lit (s : string) : Text :=
  map Ascii.N_of_ascii (String.list_ascii_of_string s).

(** Truthiness of a possibly missing string, [a || b] and interpolation,
    as in [JS]. *)
Definition truthyText (v : option Text) : bool :=
  match v with
  | Some (_ :: _) => true
  | _ => false
  end.

Definition orElse (a b : option Text) : option Text :=
  if truthyText a then a else b.

Definition showText (v : option Text) : Text :=
  match v with
  | Some s => s
  | None => lit "undefined"
  end.

(** *** Text normalisation *)

(** The code units that [\s] and [trim] treat as white space: the
    productions WhiteSpace (tab, vertical tab, form feed, U+FEFF and the
    space separators U+0020, U+00A0, U+1680, U+2000 to U+200A, U+202F,
    U+205F, U+3000) and LineTerminator (line feed, carriage return,
    U+2028, U+2029). *)
Definition isSpace (c : N) : bool :=
  (((9 <=? c) && (c <=? 13)) || (c =? 32) || (c =? 160) || (c =? 5760)
   || ((8192 <=? c) && (c <=? 8202)) || (c =? 8232) || (c =? 8233)
   || (c =? 8239) || (c =? 8287) || (c =? 12288) || (c =? 65279))%N.

Definition space : N := 32%N.

(** [s.replace(/\s+/g, ' ')]; [inRun] tells that the code unit before
    [s] was white space, already replaced. *)
Fixpoint replaceSpaceRuns (inRun : bool) (s : Text) : Text :=
  match s with
  | [] => []
  | c :: rest =>
      if isSpace c then
        if inRun then replaceSpaceRuns true rest
        else space :: replaceSpaceRuns true rest
      else c :: replaceSpaceRuns false rest
  end.

Fixpoint trimStart (s : Text) : Text :=
  match s with
  | [] => []
  | c :: rest => if isSpace c then trimStart rest else s
  end.

Fixpoint trimEnd (s : Text) : Text :=
  match s with
  | [] => []
  | c :: rest =>
      match trimEnd rest with
      | [] => if isSpace c then [] else [c]
      | rest' => c :: rest'
      end
  end.

Definition trim (s : Text) : Text := trimEnd (trimStart s).

(** [l.join(sep)] *)
Fixpoint join (sep : Text) (l : list Text) : Text :=
  match l with
  | [] => []
  | [s] => s
  | s :: rest => s ++ sep ++ join sep rest
  end.

(** [s.toLowerCase()] on the tag names [INPUT], [TEXTAREA] and [SELECT],
    which are ASCII. *)
Definition lowerChar (c : Ascii.ascii) : Ascii.ascii :=
  let n := Ascii.nat_of_ascii c in
  if ((65 <=? n) && (n <=? 90))%nat then Ascii.ascii_of_nat (n + 32) else c.

Fixpoint toLowerCase (s : string) : string :=
  match s with
  | EmptyString => EmptyString
  | String c rest => String (lowerChar c) (toLowerCase rest)
  end.

(** *** The page *)

Record Element := mkElement {
  tagName : string;
  textContent : option Text;
  innerText : option Text;
  value : option Text;
  type : option Text;
  placeholder : option Text;
  (** [getAttribute('aria-label')] and [getAttribute('name')] *)
  ariaLabel : option Text;
  nameAttribute : option Text
}.

(** A selector query returns its matches or throws. *)
Inductive Queried :=
| Matched (elements : list Element)
| Thrown (message : Text).

Record Document := mkDocument {
  title : Text;
  href : Text;
  querySelectorAll : Text -> Queried
}.

(** *** Results and the tools' own state *)

Record Descriptor := mkDescriptor {
  d_type : Text;
  d_placeholder : Text;
  d_label : Text
}.

Record PageInfo := mkPageInfo {
  pi_title : Text;
  pi_url : Text;
  headings : list Text;
  buttons : list Text;
  links : list Text;
  inputs : list Descriptor
}.

Record ToolResult := mkToolResult {
  success : bool;
  message : option Text;
  error : option Text;
  selector : option Text;
  text : option Text;
  pageInfo : option PageInfo
}.

Record ActionRecord := mkRecord {
  rec_action : string;
  rec_target : Text;
  rec_data : option Text
}.

Record Tools := mkTools {
  lastAction : option ActionRecord;
  actionHistory : list ActionRecord
}.

Definition recordAction (action : string) (target : Text)
  (data : option Text) (tools : Tools) : Tools :=
  let actionRecord := mkRecord action target data in
  let history := actionHistory tools ++ [actionRecord] in
  mkTools (Some actionRecord)
    (if (50 <? length history)%nat then slice_last 50 history else history).

(** *** [extractText] *)

(** The separator ['\n\n']. *)
Definition newline2 : Text := [10%N; 10%N].

(** [el.textContent || el.innerText || ''], white space collapsed and
    trimmed. *)
Definition cleanText (el : Element) : Text :=
  let text :=
    showText (orElse (orElse (textContent el) (innerText el)) (Some [])) in
  trim (replaceSpaceRuns false text).

Definition extractedText (elements : list Element) : Text :=
  join newline2
    (List.filter (fun text => (0 <? length text)%nat)
       (map cleanText elements)).

(** [v?.trim()] *)
Definition trimmed (v : option Text) : option Text :=
  match v with
  | Some s => Some (trim s)
  | None => None
  end.

(** [l.filter(Boolean)] on possibly missing strings *)
Definition truthyTexts (l : list (option Text)) : list Text :=
  omap (fun v => if truthyText v then v else None) l.

Definition describeInput (input : Element) : Descriptor :=
  mkDescriptor
    (showText (orElse (type input)
                 (Some (lit (toLowerCase (tagName input))))))
    (showText (orElse (placeholder input) (Some [])))
    (showText (orElse (orElse (ariaLabel input) (nameAttribute input))
                 (Some []))).

(** The selectors behind the page summary. *)
Definition headingSelector : Text := lit "h1, h2, h3".
Definition buttonSelector : Text :=
  lit ("button, input[type=" +:+ dq +:+ "button" +:+ dq
       +:+ "], input[type=" +:+ dq +:+ "submit" +:+ dq +:+ "]").
Definition linkSelector : Text := lit "a[href]".
Definition inputSelector : Text := lit "input, textarea, select".

(** One query inside the [try] block: a throw leads to the [catch]
    block's result. *)
Definition querying {A : Type} (doc : Document) (selectors : Text)
  (caught : Text -> A) (k : list Element -> A) : A :=
  match querySelectorAll doc selectors with
  | Matched elements => k elements
  | Thrown message => caught message
  end.

Definition extractText (doc : Document) (selector : option Text)
  (tools : Tools) : ToolResult * Tools :=
  let selector := match selector with Some s => s | None => lit "body" end in
  let caught (message : Text) :=
    (mkToolResult false None
       (Some (lit "Text extraction failed: " ++ message)) None None None,
     tools) in
  querying doc selector caught (fun elements =>
  if (length elements =? 0)%nat then
    (mkToolResult false None
       (Some (lit "No elements found: " ++ selector)) (Some selector)
       None None,
     tools)
  else
    let extractedText := extractedText elements in
    querying doc headingSelector caught (fun hs =>
    querying doc buttonSelector caught (fun btns =>
    querying doc linkSelector caught (fun anchors =>
    querying doc inputSelector caught (fun fields =>
    let pageInfo :=
      mkPageInfo (title doc) (href doc)
        (take 10 (truthyTexts
                    (map (fun h => trimmed (textContent h)) hs)))
        (take 10 (truthyTexts
                    (map (fun btn =>
                            orElse (trimmed (textContent btn))
                              (trimmed (value btn))) btns)))
        (take 10 (truthyTexts
                    (map (fun a => trimmed (textContent a)) anchors)))
        (take 10 (map describeInput fields)) in
    (mkToolResult true
       (Some (lit "Extracted text from: " ++ selector)) None (Some selector)
       (Some (take 5000 extractedText)) (Some pageInfo),
     recordAction "extract_text" selector None tools)))))).

End BrowserTools.

(** ** Persisted state ([utils/storage.js]) *)

Module Storage.
Import JS.

(** The values [chrome.storage.local] holds.  No statement below needs
    induction on them. *)
Unset Elimination Schemes.
Inductive JValue :=
| JNull
| JBool (b : bool)
| JNumber (n : Z)
| JString (s : string)
| JArray (items : list JValue)
| JObject (properties : list (string * JValue)).
Set Elimination Schemes.

(** Truthiness. *)
Definition toBoolean (v : JValue) : bool :=
  match v with
  | JNull => false
  | JBool b => b
  | JNumber n => negb (n =? 0)%Z
  | JString s => negb (String.eqb s "")
  | JArray _ | JObject _ => true
  end.

(** [v || d], where [v] may be [undefined]. *)
Definition or_default (v : option JValue) (d : JValue) : JValue :=
  match v with
  | Some x => if toBoolean x then x else d
  | None => d
  end.

(** [object.key] on the own properties of an object literal. *)
Fixpoint property (properties : list (string * JValue)) (key : string)
  : option JValue :=
  match properties with
  | [] => None
  | (k, v) :: rest => if String.eqb k key then Some v else property rest key
  end.

(** [this.KEYS] *)
Definition ADDED_ITEMS : string := "addedItems".
Definition CHAT_HISTORY : string := "chatHistory".

(** Whether the calls to [chrome.storage.local] made by one operation
    reject. *)
Record Chrome := mkChrome {
  getRejects : bool;
  setRejects : bool
}.

(** [get]: the stored value ([undefined] when there is none), or [null]
    when the read fails. *)
Definition get (chrome : Chrome) (key : string)
  (store : gmap string JValue) : option JValue :=
  if getRejects chrome then Some JNull else store !! key.

(** [set]: whether the write went through, and the store after it. *)
Definition set (chrome : Chrome) (key : string) (value : JValue)
  (store : gmap string JValue) : bool * gmap string JValue :=
  if setRejects chrome then (false, store)
  else (true, <[key := value]> store).

Definition getAddedItems (chrome : Chrome) (store : gmap string JValue)
  : JValue :=
  or_default (get chrome ADDED_ITEMS store) (JArray []).

(** [addSuccessfulItem]; [id] stands for [Date.now() + Math.random()] and
    [timestamp] for [new Date().toISOString()].  The result is the new
    item, or [None] for the [null] of the [catch] block. *)
Definition addSuccessfulItem (chrome : Chrome)
  (itemData : list (string * JValue)) (id : JValue) (timestamp : string)
  (store : gmap string JValue) : option JValue * gmap string JValue :=
  let existingItems := getAddedItems chrome store in
  let newItem :=
    JObject
      [("id", id);
       ("timestamp", JString timestamp);
       ("site", or_default (property itemData "site") (JString "unknown"));
       ("name",
        or_default (property itemData "name") (JString "Unknown Product"));
       ("price", or_default (property itemData "price") JNull);
       ("image", or_default (property itemData "image") JNull);
       ("url", or_default (property itemData "url") JNull);
       ("category", or_default (property itemData "category") JNull);
       ("originalRequest",
        or_default (property itemData "originalRequest") JNull)] in
  match existingItems with
  | JArray items =>
      let existingItems := newItem :: items in
      let trimmedItems := take 50 existingItems in
      (Some newItem, (set chrome ADDED_ITEMS (JArray trimmedItems) store).2)
  | _ =>
      (* existingItems.unshift is not a function *)
      (None, store)
  end.

Definition clearAddedItems (chrome : Chrome) (store : gmap string JValue)
  : bool * gmap string JValue :=
  set chrome ADDED_ITEMS (JArray []) store.

Definition saveChatHistory (chrome : Chrome) (messages : list JValue)
  (store : gmap string JValue) : bool * gmap string JValue :=
  let trimmedMessages := slice_last 100 messages in
  (true, (set chrome CHAT_HISTORY (JArray trimmedMessages) store).2).

Definition clearChatHistory (chrome : Chrome) (store : gmap string JValue)
  : bool * gmap string JValue :=
  set chrome CHAT_HISTORY (JArray []) store.

Definition getChatHistory (chrome : Chrome) (store : gmap string JValue)
  : JValue :=
  let history := get chrome CHAT_HISTORY store in
  or_default history (JArray []).

Definition TARGET_WEBSITE : string := "targetWebsite".

Definition getTargetWebsite (chrome : Chrome) (store : gmap string JValue)
  : JValue :=
  let cached := get chrome TARGET_WEBSITE store in
  or_default cached (JString "auto").

Definition setTargetWebsite (chrome : Chrome) (site : JValue)
  (store : gmap string JValue) : bool * gmap string JValue :=
  set chrome TARGET_WEBSITE site store.

End Storage.

(** * Properties *)

(** ** Facts about the helpers *)

Module JSFacts.
Import JS.

Lemma strict_eq_spec (a b : option string) :
  strict_eq a b = true <-> a = b.
Proof.
  destruct a as [x|], b as [y|]; simpl; split; try congruence.
  - intros H. apply String.eqb_eq in H. by subst.
  - intros [= ->]. apply String.eqb_refl.
Qed.

Lemma length_slice_last {A : Type} (n : nat) (l : list A) :
  length (slice_last n l) <= n.
Proof. unfold slice_last. rewrite length_drop. lia. Qed.

Lemma slice_last_suffix {A : Type} (n : nat) (l : list A) :
  exists front, l = front ++ slice_last n l.
Proof.
  exists (take (length l - n) l). unfold slice_last.
  by rewrite take_drop.
Qed.

Lemma slice_last_short {A : Type} (n : nat) (l : list A) :
  length l <= n -> slice_last n l = l.
Proof.
  intros H. unfold slice_last.
  replace (length l - n) with 0 by lia. reflexivity.
Qed.

End JSFacts.

(** ** The persisted lists keep their bounds *)

Module StorageSpec.
Import JS JSFacts Storage.

(** The list of added items, when one is stored, has at most 50 items. *)
Definition itemsBounded (store : gmap string JValue) : Prop :=
  forall items,
    store !! ADDED_ITEMS = Some (JArray items) -> length items <= 50.

(** The chat history, when one is stored, has at most 100 messages. *)
Definition chatBounded (store : gmap string JValue) : Prop :=
  forall messages,
    store !! CHAT_HISTORY = Some (JArray messages) -> length messages <= 100.

Lemma set_lookup chrome key value (store : gmap string JValue) :
  (set chrome key value store).2 = store
  \/ (setRejects chrome = false
      /\ (set chrome key value store).2 = <[key := value]> store).
Proof.
  unfold set. destruct (setRejects chrome); simpl; auto.
Qed.

Lemma addSuccessfulItem_bounded chrome itemData id timestamp
  (store : gmap string JValue) :
  itemsBounded store ->
  itemsBounded (addSuccessfulItem chrome itemData id timestamp store).2.
Proof.
  intros Hb. unfold addSuccessfulItem.
  destruct (getAddedItems chrome store) as [| | | |old|]; simpl; try done.
  match goal with
  | |- itemsBounded (set ?c ?k ?v ?s).2 =>
      destruct (set_lookup c k v s) as [-> | [_ ->]]
  end; [done|].
  intros items. rewrite lookup_insert_eq. intros [= <-].
  simpl. rewrite length_take. lia.
Qed.

Lemma saveChatHistory_bounded chrome messages (store : gmap string JValue) :
  chatBounded store ->
  chatBounded (saveChatHistory chrome messages store).2.
Proof.
  intros Hb. unfold saveChatHistory. simpl.
  match goal with
  | |- chatBounded (set ?c ?k ?v ?s).2 =>
      destruct (set_lookup c k v s) as [-> | [_ ->]]
  end; [done|].
  intros ms. rewrite lookup_insert_eq. intros [= <-].
  apply length_slice_last.
Qed.

(** The other writers of the two keys store empty lists. *)
Lemma clearAddedItems_bounded chrome (store : gmap string JValue) :
  itemsBounded store -> itemsBounded (clearAddedItems chrome store).2.
Proof.
  intros Hb. unfold clearAddedItems.
  destruct (set_lookup chrome ADDED_ITEMS (JArray []) store)
    as [-> | [_ ->]]; [done|].
  intros items. rewrite lookup_insert_eq. intros [= <-]. simpl. lia.
Qed.

Lemma clearChatHistory_bounded chrome (store : gmap string JValue) :
  chatBounded store -> chatBounded (clearChatHistory chrome store).2.
Proof.
  intros Hb. unfold clearChatHistory.
  destruct (set_lookup chrome CHAT_HISTORY (JArray []) store)
    as [-> | [_ ->]]; [done|].
  intros ms. rewrite lookup_insert_eq. intros [= <-]. simpl. lia.
Qed.

(** [itemData.key || fallback], read off the item data as the code does
    for each field of the new item. *)
Definition fieldOr (itemData : list (string * JValue)) (key : string)
  (fallback : JValue) : JValue :=
  match property itemData key with
  | Some v => if toBoolean v then v else fallback
  | None => fallback
  end.

(** The item that [addSuccessfulItem] is to build from [itemData], the
    identifier and the time stamp. *)
Definition itemOf (itemData : list (string * JValue)) (id : JValue)
  (timestamp : string) : JValue :=
  JObject
    [("id", id);
     ("timestamp", JString timestamp);
     ("site", fieldOr itemData "site" (JString "unknown"));
     ("name", fieldOr itemData "name" (JString "Unknown Product"));
     ("price", fieldOr itemData "price" JNull);
     ("image", fieldOr itemData "image" JNull);
     ("url", fieldOr itemData "url" JNull);
     ("category", fieldOr itemData "category" JNull);
     ("originalRequest", fieldOr itemData "originalRequest" JNull)].

(** C10.  Whatever [chrome.storage.local] does, [addSuccessfulItem] keeps
    the stored list of items within 50 and [saveChatHistory] keeps the
    stored history within 100.  When the write goes through,
    [addSuccessfulItem] returns the item built from the item data, the
    identifier and the time stamp (each field the given value when
    truthy, its default otherwise) and stores it in front of the items it
    found, cut to the first 50; and [saveChatHistory] stores the last 100
    of the messages it was given. *)
Theorem persisted_lists_keep_bounds chrome itemData id timestamp messages
  (store : gmap string JValue) :
  (itemsBounded store ->
   itemsBounded (addSuccessfulItem chrome itemData id timestamp store).2)
  /\ (chatBounded store ->
      chatBounded (saveChatHistory chrome messages store).2)
  /\ (setRejects chrome = false ->
      (forall old,
         getAddedItems chrome store = JArray old ->
         exists newItem rest,
           (addSuccessfulItem chrome itemData id timestamp store).1
             = Some newItem
           /\ (addSuccessfulItem chrome itemData id timestamp store).2
                !! ADDED_ITEMS = Some (JArray (newItem :: rest))
           /\ rest = take 49 old
           /\ length (newItem :: rest) <= 50
           /\ newItem = itemOf itemData id timestamp
           /\ (forall key,
                 key <> ADDED_ITEMS ->
                 (addSuccessfulItem chrome itemData id timestamp store).2
                   !! key = store !! key))
      /\ (saveChatHistory chrome messages store).2 !! CHAT_HISTORY
           = Some (JArray (slice_last 100 messages))
      /\ length (slice_last 100 messages) <= 100
      /\ (exists older, messages = older ++ slice_last 100 messages)).
Proof.
  split; [apply addSuccessfulItem_bounded|].
  split; [apply saveChatHistory_bounded|].
  intros Hset. repeat split.
  - intros old Hold. unfold addSuccessfulItem. rewrite Hold.
    exists (itemOf itemData id timestamp), (take 49 old).
    cbn [fst snd]. unfold set. rewrite Hset. cbn [snd].
    rewrite lookup_insert_eq.
    split; [reflexivity|]. split; [reflexivity|]. split; [reflexivity|].
    split; [simpl; rewrite length_take; lia|]. split; [reflexivity|].
    intros key Hkey. by rewrite lookup_insert_ne.
  - unfold saveChatHistory, set. rewrite Hset. simpl.
    by rewrite lookup_insert_eq.
  - apply length_slice_last.
  - apply slice_last_suffix.
Qed.

(** A store that already holds 50 items, and a history of 101 messages. *)
Definition fullStore : gmap string JValue :=
  <[ADDED_ITEMS := JArray (replicate 50 JNull)]> ∅.

Definition reliable : Chrome := mkChrome false false.

(** Item data with a name, a price of 0 and no site. *)
Definition mug : list (string * JValue) :=
  [("name", JString "Mug"); ("price", JNumber 0)].

Lemma persisted_lists_keep_bounds_witness :
  itemsBounded
    (addSuccessfulItem reliable mug (JNumber 1) "now" fullStore).2
  /\ chatBounded (saveChatHistory reliable (replicate 101 JNull) fullStore).2
  /\ (addSuccessfulItem reliable mug (JNumber 1) "now" fullStore).1
     = Some (JObject
               [("id", JNumber 1); ("timestamp", JString "now");
                ("site", JString "unknown"); ("name", JString "Mug");
                ("price", JNull); ("image", JNull); ("url", JNull);
                ("category", JNull); ("originalRequest", JNull)])
  /\ (addSuccessfulItem reliable mug (JNumber 1) "now" fullStore).2
       !! ADDED_ITEMS
     = Some (JArray
               (JObject
                  [("id", JNumber 1); ("timestamp", JString "now");
                   ("site", JString "unknown"); ("name", JString "Mug");
                   ("price", JNull); ("image", JNull); ("url", JNull);
                   ("category", JNull); ("originalRequest", JNull)]
                :: replicate 49 JNull))
  /\ (saveChatHistory reliable (replicate 101 JNull) fullStore).2
       !! CHAT_HISTORY = Some (JArray (replicate 100 JNull)).
Proof.
  destruct (persisted_lists_keep_bounds reliable mug (JNumber 1) "now"
              (replicate 101 JNull) fullStore) as (Hitems & Hchat & Hwrite).
  split.
  { apply Hitems. intros items. unfold fullStore.
    rewrite lookup_insert_eq. intros [= <-]. simpl. lia. }
  split.
  { apply Hchat. intros ms. unfold fullStore.
    rewrite lookup_insert_ne by done. by rewrite lookup_empty. }
  destruct (Hwrite eq_refl) as (Hadd & Hsave & _).
  destruct (Hadd (replicate 50 JNull))
    as (newItem & rest & Hr & Hl & -> & _ & -> & _).
  { unfold getAddedItems, get, fullStore. simpl.
    by rewrite lookup_insert_eq. }
  split; [exact Hr|]. split; [exact Hl | exact Hsave].
Defined.

End StorageSpec.

(** ** Reading back what was stored *)

Module StorageFacts.
Import JS JSFacts Storage StorageSpec.

(** X1.  The target website reads back as it was written when the value
    is truthy; a falsy value, a missing one and a failed read all give
    ['auto'].  A write that fails leaves what was there. *)
Theorem targetWebsite_round_trip (writing reading : Chrome) (site : JValue)
  (store : gmap string JValue) :
  (getRejects reading = false ->
   getTargetWebsite reading (setTargetWebsite writing site store).2
   = if setRejects writing then getTargetWebsite reading store
     else if toBoolean site then site else JString "auto")
  /\ (getRejects reading = true \/ store !! TARGET_WEBSITE = None ->
      getTargetWebsite reading store = JString "auto").
Proof.
  split.
  - intros Hget. unfold getTargetWebsite, setTargetWebsite, get, set.
    rewrite Hget. destruct (setRejects writing); [reflexivity|]. simpl.
    by rewrite lookup_insert_eq.
  - unfold getTargetWebsite, get. intros [->| ->]; [reflexivity|].
    by destruct (getRejects reading).
Qed.

Lemma targetWebsite_round_trip_witness :
  getTargetWebsite reliable
    (setTargetWebsite reliable (JString "amazon") ∅).2
  = JString "amazon"
  /\ getTargetWebsite reliable (setTargetWebsite reliable (JString "") ∅).2
     = JString "auto"
  /\ getTargetWebsite (mkChrome true false) fullStore = JString "auto".
Proof.
  split; [|split].
  - apply (proj1 (targetWebsite_round_trip reliable reliable
                    (JString "amazon") ∅)). reflexivity.
  - apply (proj1 (targetWebsite_round_trip reliable reliable
                    (JString "") ∅)). reflexivity.
  - apply (proj2 (targetWebsite_round_trip reliable (mkChrome true false)
                    JNull fullStore)). left. reflexivity.
Defined.

(** X2.  What [saveChatHistory] stored is what [getChatHistory] reads
    back: the last 100 of the messages given, all of them when they are
    at most 100; and saving what was read back changes nothing. *)
Theorem chatHistory_round_trip (writing reading : Chrome)
  (messages : list JValue) (store : gmap string JValue) :
  setRejects writing = false ->
  getRejects reading = false ->
  let store' := (saveChatHistory writing messages store).2 in
  getChatHistory reading store' = JArray (slice_last 100 messages)
  /\ (length messages <= 100 -> getChatHistory reading store' = JArray messages)
  /\ (forall again items,
        getChatHistory reading store' = JArray items ->
        (saveChatHistory again items store').2 = store').
Proof.
  intros Hset Hget. cbv zeta.
  unfold getChatHistory, saveChatHistory, get, set. rewrite Hset, Hget.
  cbn [snd]. rewrite lookup_insert_eq. cbn [or_default toBoolean].
  split; [reflexivity|]. split.
  - intros Hle. by rewrite slice_last_short.
  - intros again items [= <-].
    destruct (setRejects again); [reflexivity|]. cbn [snd].
    rewrite insert_insert_eq. f_equal. f_equal.
    apply slice_last_short. rewrite length_slice_last. lia.
Qed.

Lemma chatHistory_round_trip_witness :
  getChatHistory reliable
    (saveChatHistory reliable [JString "hello"; JString "world"] fullStore).2
  = JArray [JString "hello"; JString "world"].
Proof.
  destruct (chatHistory_round_trip reliable reliable
              [JString "hello"; JString "world"] fullStore)
    as (_ & Hshort & _); [reflexivity | reflexivity |].
  apply Hshort. simpl. lia.
Defined.

(** X3.  Two items added one after the other, with reads and writes that
    go through, are stored newest first: the second in front of the
    first, in front of what was there, the whole cut to 50. *)
Theorem addSuccessfulItem_newest_first (chrome : Chrome)
  (first second : list (string * JValue)) (id1 id2 : JValue)
  (time1 time2 : string) (old : list JValue)
  (store : gmap string JValue) :
  getRejects chrome = false ->
  setRejects chrome = false ->
  store !! ADDED_ITEMS = Some (JArray old)
  \/ (store !! ADDED_ITEMS = None /\ old = []) ->
  let store1 := (addSuccessfulItem chrome first id1 time1 store).2 in
  let store2 := (addSuccessfulItem chrome second id2 time2 store1).2 in
  getAddedItems chrome store2
  = JArray (take 50 (itemOf second id2 time2
                     :: itemOf first id1 time1 :: old)).
Proof.
  intros Hget Hset Hold. cbv zeta.
  assert (Hfound : getAddedItems chrome store = JArray old).
  { unfold getAddedItems, get. rewrite Hget.
    by destruct Hold as [-> | [-> ->]]. }
  assert (Hstep : forall data id time items (m : gmap string JValue),
    getAddedItems chrome m = JArray items ->
    (addSuccessfulItem chrome data id time m).2
    = <[ADDED_ITEMS := JArray (take 50 (itemOf data id time :: items))]> m).
  { intros data id time items m Hm. unfold addSuccessfulItem.
    rewrite Hm. unfold set. by rewrite Hset. }
  rewrite (Hstep _ _ _ _ _ Hfound).
  assert (Hnext : forall items (m : gmap string JValue),
    getAddedItems chrome (<[ADDED_ITEMS := JArray items]> m) = JArray items).
  { intros items m. unfold getAddedItems, get.
    by rewrite Hget, lookup_insert_eq. }
  rewrite (Hstep _ _ _ _ _ (Hnext _ _)), Hnext.
  f_equal. cbn [take]. f_equal. f_equal.
  destruct old as [|x old]; [reflexivity|]. cbn [take].
  f_equal. rewrite take_take. f_equal.
Qed.

Lemma addSuccessfulItem_newest_first_witness :
  getAddedItems reliable
    (addSuccessfulItem reliable [] (JNumber 2) "later"
       (addSuccessfulItem reliable mug (JNumber 1) "now" ∅).2).2
  = JArray [itemOf [] (JNumber 2) "later"; itemOf mug (JNumber 1) "now"].
Proof.
  apply (addSuccessfulItem_newest_first reliable mug [] (JNumber 1)
           (JNumber 2) "now" "later" [] ∅).
  - reflexivity.
  - reflexivity.
  - right. split; reflexivity.
Defined.

(** X4.  What [addSuccessfulItem] does when storage lets it down.  A
    write that fails goes unnoticed: the new item is returned although
    nothing was stored.  A read that fails, followed by a write that goes
    through, replaces whatever list was stored by the new item alone.
    And when what is stored under the key is truthy but not a list, the
    call returns [null] and stores nothing. *)
Theorem addSuccessfulItem_storage_failures (chrome : Chrome)
  (itemData : list (string * JValue)) (id : JValue) (timestamp : string)
  (store : gmap string JValue) :
  (setRejects chrome = true ->
   (forall found, getAddedItems chrome store = JArray found ->
      addSuccessfulItem chrome itemData id timestamp store
      = (Some (itemOf itemData id timestamp), store)))
  /\ (getRejects chrome = true ->
      setRejects chrome = false ->
      addSuccessfulItem chrome itemData id timestamp store
      = (Some (itemOf itemData id timestamp),
         <[ADDED_ITEMS := JArray [itemOf itemData id timestamp]]> store))
  /\ (getRejects chrome = false ->
      forall stored,
        store !! ADDED_ITEMS = Some stored ->
        toBoolean stored = true ->
        (forall items, stored <> JArray items) ->
        addSuccessfulItem chrome itemData id timestamp store = (None, store)).
Proof.
  split; [|split].
  - intros Hset found Hfound. unfold addSuccessfulItem.
    rewrite Hfound. unfold set. by rewrite Hset.
  - intros Hget Hset. unfold addSuccessfulItem, getAddedItems, get, set.
    by rewrite Hget, Hset.
  - intros Hget stored Hstored Htrue Hnot.
    unfold addSuccessfulItem, getAddedItems, get.
    rewrite Hget, Hstored. cbn [or_default]. rewrite Htrue.
    destruct stored; try reflexivity. by destruct (Hnot items).
Qed.

Lemma addSuccessfulItem_storage_failures_witness :
  addSuccessfulItem (mkChrome false true) mug (JNumber 1) "now" fullStore
  = (Some (itemOf mug (JNumber 1) "now"), fullStore)
  /\ addSuccessfulItem (mkChrome true false) mug (JNumber 1) "now" fullStore
     = (Some (itemOf mug (JNumber 1) "now"),
        <[ADDED_ITEMS := JArray [itemOf mug (JNumber 1) "now"]]> fullStore)
  /\ addSuccessfulItem reliable mug (JNumber 1) "now"
       (<[ADDED_ITEMS := JString "corrupt"]> ∅)
     = (None, <[ADDED_ITEMS := JString "corrupt"]> ∅).
Proof.
  split; [|split].
  - apply (proj1 (addSuccessfulItem_storage_failures (mkChrome false true)
                    mug (JNumber 1) "now" fullStore) eq_refl
             (replicate 50 JNull)).
    reflexivity.
  - apply (proj1 (proj2 (addSuccessfulItem_storage_failures
                           (mkChrome true false) mug (JNumber 1) "now"
                           fullStore)));
      reflexivity.
  - apply (proj2 (proj2 (addSuccessfulItem_storage_failures reliable mug
                           (JNumber 1) "now"
                           (<[ADDED_ITEMS := JString "corrupt"]> ∅)))
             eq_refl (JString "corrupt")).
    + by rewrite lookup_insert_eq.
    + reflexivity.
    + intros items. discriminate.
Defined.

End StorageFacts.

(** ** The transport retries a bounded number of times *)

Module TransportSpec.
Import JS Transport.

(** The attempts made, and the backoffs slept, in the order they occur. *)
Definition sendsOf (trace : list Effect) : list nat :=
  omap (fun e => match e with SendMessage a => Some a | _ => None end) trace.

Definition backoffsOf (trace : list Effect) : list (nat * Z) :=
  omap (fun e => match e with Backoff a ms => Some (a, ms) | _ => None end)
    trace.

Section Retries.

Context {Response : Type}.
Variable tab : Tab Response.
Variable maxRetries : nat.

Lemma sendsOf_app (l1 l2 : list Effect) :
  sendsOf (l1 ++ l2) = sendsOf l1 ++ sendsOf l2.
Proof. apply omap_app. Qed.

Lemma backoffsOf_app (l1 l2 : list Effect) :
  backoffsOf (l1 ++ l2) = backoffsOf l1 ++ backoffsOf l2.
Proof. apply omap_app. Qed.

(** Recovering from a failed attempt sends nothing and sleeps no
    backoff. *)
Lemma recovery_quiet (message : string) (attempt : nat) :
  let recovery :=
    if cacheIssue message then reinject tab attempt else [] in
  sendsOf recovery = [] /\ backoffsOf recovery = [].
Proof.
  simpl. unfold reinject.
  destruct (cacheIssue message), (executeScript tab attempt); auto.
Qed.

(** The loop entered at [attempt] with [remaining] values left makes the
    attempts [attempt], [attempt + 1], ... one after the other, and sleeps
    [delay] of the attempt that failed between two of them. *)
Lemma attempts_shape (remaining attempt : nat) :
  attempt + remaining = S maxRetries ->
  exists n,
    n <= remaining /\ (0 < remaining -> 0 < n)
    /\ sendsOf (attempts tab maxRetries remaining attempt).2 = seq attempt n
    /\ backoffsOf (attempts tab maxRetries remaining attempt).2
       = map (fun a => (a, delay a)) (seq attempt (n - 1)).
Proof.
  revert attempt.
  induction remaining as [|remaining IH]; intros attempt Hinv.
  { exists 0. simpl. repeat split; auto; lia. }
  simpl. destruct (sendMessage tab attempt) as [response|message].
  { exists 1. simpl. repeat split; auto; lia. }
  destruct (recovery_quiet message attempt) as [Hs Hb]. simpl in Hs, Hb.
  destruct (Nat.eqb_spec attempt maxRetries) as [Heq|Hne].
  - exists 1. cbn [snd].
    change (SendMessage attempt :: ?l) with ([SendMessage attempt] ++ l).
    rewrite sendsOf_app, backoffsOf_app, Hs, Hb.
    simpl. repeat split; auto; lia.
  - destruct (IH (S attempt)) as (n & Hle & Hpos & Hsends & Hback); [lia|].
    exists (S n). cbn [snd].
    change (SendMessage attempt :: ?l) with ([SendMessage attempt] ++ l).
    rewrite sendsOf_app, backoffsOf_app.
    rewrite sendsOf_app, backoffsOf_app, Hs, Hb.
    change (Backoff attempt ?d :: ?l) with ([Backoff attempt d] ++ l).
    rewrite sendsOf_app, backoffsOf_app, Hsends, Hback.
    assert (0 < n) by (apply Hpos; lia).
    replace (S n - 1) with (S (n - 1)) by lia.
    simpl. repeat split; auto; lia.
Qed.

(** An attempt that fails on a cache issue is followed at once by the
    re-injection of the content script. *)
Lemma attempts_reinject (remaining attempt : nat) :
  forall a message after,
    (SendMessage a :: after)
      `suffix_of` (attempts tab maxRetries remaining attempt).2 ->
    sendMessage tab a = LastError message ->
    cacheIssue message = true ->
    exists rest, after = ExecuteScript (executeScript tab a) :: rest.
Proof.
  revert attempt.
  induction remaining as [|remaining IH]; intros attempt a message after.
  { simpl. intros Hsuf. apply suffix_nil_inv in Hsuf. discriminate. }
  simpl. destruct (sendMessage tab attempt) as [response|failure] eqn:Hsend.
  { simpl. intros Hsuf Ha _.
    apply suffix_cons_inv in Hsuf as [[= -> ->]|Hsuf]; [congruence|].
    apply suffix_nil_inv in Hsuf. discriminate. }
  assert (Hrec : forall tail,
    (SendMessage a :: after)
      `suffix_of` ((if cacheIssue failure then reinject tab attempt else [])
                     ++ tail) ->
    (SendMessage a :: after) `suffix_of` tail).
  { intros tail. unfold reinject.
    destruct (cacheIssue failure), (executeScript tab attempt); simpl;
      intros Hsuf; auto;
      repeat (apply suffix_cons_inv in Hsuf as [[=]|Hsuf]); auto. }
  assert (Hhere : sendMessage tab attempt = LastError message ->
    cacheIssue message = true ->
    forall tail, exists rest,
      (if cacheIssue failure then reinject tab attempt else []) ++ tail
      = ExecuteScript (executeScript tab attempt) :: rest).
  { intros Ha Hc tail. rewrite Hsend in Ha. injection Ha as ->.
    rewrite Hc. unfold reinject.
    destruct (executeScript tab attempt); simpl; eauto. }
  destruct (attempt =? maxRetries)%nat; cbn [snd]; intros Hsuf Ha Hc.
  - apply suffix_cons_inv in Hsuf as [[= -> ->]|Hsuf].
    + destruct (Hhere Ha Hc []) as [rest Hrest].
      rewrite app_nil_r in Hrest. eauto.
    + specialize (Hrec []). rewrite app_nil_r in Hrec.
      apply Hrec in Hsuf. apply suffix_nil_inv in Hsuf. discriminate.
  - apply suffix_cons_inv in Hsuf as [[= -> ->]|Hsuf].
    + apply (Hhere Ha Hc).
    + apply Hrec in Hsuf.
      apply suffix_cons_inv in Hsuf as [[=]|Hsuf].
      eapply IH; eauto.
Qed.

End Retries.

Lemma delay_values :
  delay 1 = 1000%Z /\ delay 2 = 2000%Z /\ delay 3 = 4000%Z
  /\ delay 4 = 5000%Z.
Proof. by vm_compute. Qed.

Lemma delay_capped (attempt : nat) : (delay attempt <= 5000)%Z.
Proof. unfold delay. lia. Qed.

Lemma delay_monotone (a b : nat) :
  1 <= a -> a <= b -> (delay a <= delay b)%Z.
Proof.
  intros Ha Hab. unfold delay.
  assert (2 ^ (Z.of_nat a - 1) <= 2 ^ (Z.of_nat b - 1))%Z
    by (apply Z.pow_le_mono_r; lia).
  lia.
Qed.

(** C7.  With the default [maxRetries], [sendMessageToTab] makes the
    attempts 1, ..., n for some n between 1 and 5; between two attempts it
    sleeps the backoff [min(1000 * 2^(attempt - 1), 5000)] of the attempt
    that failed, which never decreases from one attempt to the next and
    never exceeds 5000 ms; and an attempt that fails with a cache-related
    error is followed at once, so before any retry, by the re-injection
    of the content script. *)
Theorem sendMessageToTab_retry_policy {Response : Type}
  (tab : Tab Response) :
  let trace := (sendMessageToTab tab defaultMaxRetries).2 in
  (exists n,
     1 <= n <= 5
     /\ sendsOf trace = seq 1 n
     /\ backoffsOf trace
        = map (fun a => (a, Z.min (1000 * 2 ^ (Z.of_nat a - 1)) 5000))
            (seq 1 (n - 1)))
  /\ (forall a b, 1 <= a -> a <= b -> (delay a <= delay b)%Z)
  /\ (forall a, (delay a <= 5000)%Z)
  /\ (forall a message after,
        (SendMessage a :: after) `suffix_of` trace ->
        sendMessage tab a = LastError message ->
        cacheIssue message = true ->
        exists rest, after = ExecuteScript (executeScript tab a) :: rest).
Proof.
  simpl. split; [|split; [|split]].
  - destruct (attempts_shape tab defaultMaxRetries defaultMaxRetries 1)
      as (n & Hle & Hpos & Hsends & Hback); [reflexivity|].
    exists n. unfold defaultMaxRetries in *.
    split; [split; [apply Hpos|]; lia|]. by split.
  - apply delay_monotone.
  - apply delay_capped.
  - apply attempts_reinject.
Qed.

(** A tab whose listener is gone for the first two attempts. *)
Definition staleTwice : Tab nat :=
  mkTab
    (fun attempt =>
       if (attempt <? 3)%nat
       then LastError
              "Could not establish connection. Receiving end does not exist."
       else Responded (Some 7))
    (fun _ => true).

Example staleTwice_trace :
  sendMessageToTab staleTwice defaultMaxRetries
  = (Fulfilled (Some 7),
     [SendMessage 1; ExecuteScript true; Settle 1000; Backoff 1 1000;
      SendMessage 2; ExecuteScript true; Settle 1000; Backoff 2 2000;
      SendMessage 3]).
Proof. reflexivity. Qed.

Lemma sendMessageToTab_retry_policy_witness :
  (delay 1 <= delay 4)%Z
  /\ exists rest,
       [ExecuteScript true; Settle 1000; Backoff 2 2000; SendMessage 3]
       = ExecuteScript (executeScript staleTwice 2) :: rest.
Proof.
  destruct (sendMessageToTab_retry_policy staleTwice)
    as (_ & Hmono & _ & Hinject).
  split.
  - apply Hmono; lia.
  - apply (Hinject 2
             "Could not establish connection. Receiving end does not exist.").
    + exists [SendMessage 1; ExecuteScript true; Settle 1000; Backoff 1 1000].
      reflexivity.
    + reflexivity.
    + reflexivity.
Defined.

End TransportSpec.

(** ** How the retries end *)

Module TransportFacts.
Import JS Transport TransportSpec.



Section Outcome.

Context {Response : Type}.
Variable tab : Tab Response.
Variable maxRetries : nat.

Definition fails (attempt : nat) : Prop :=
  exists message, sendMessage tab attempt = LastError message.






(** The loop from [attempt] on, when the attempts before [k] fail and
    attempt [k] is answered. *)
Lemma attempts_answered (k : nat) (response : option Response) :
  sendMessage tab k = Responded response ->
  forall remaining attempt,
    attempt + remaining = S maxRetries ->
    attempt <= k <= maxRetries ->
    (forall j, attempt <= j < k -> fails j) ->
    (attempts tab maxRetries remaining attempt).1 = Fulfilled response
    /\ sendsOf (attempts tab maxRetries remaining attempt).2
       = seq attempt (S k - attempt)
    /\ last (attempts tab maxRetries remaining attempt).2
       = Some (SendMessage k).
Proof.
  intros Hk.
  induction remaining as [|remaining IH]; intros attempt Hinv Hle Hfail;
    [lia|].
  cbn [attempts].
  destruct (decide (attempt = k)) as [->|Hne].
  { rewrite Hk. replace (S k - k) with 1 by lia. done. }
  destruct (Hfail attempt ltac:(lia)) as [message Hm]. rewrite Hm.
  destruct (Nat.eqb_spec attempt maxRetries) as [Heq|Hne']; [lia|].
  destruct (IH (S attempt)) as (Hres & Hsends & Hlast);
    [lia | lia | intros j Hj; apply Hfail; lia |].
  cbn [fst snd]. split; [exact Hres|].
  destruct (recovery_quiet tab message attempt) as [Hs _]. simpl in Hs.
  split.
  - change (SendMessage attempt :: ?l) with ([SendMessage attempt] ++ l).
    rewrite sendsOf_app, sendsOf_app, Hs.
    change (Backoff attempt ?d :: ?l) with ([Backoff attempt d] ++ l).
    rewrite sendsOf_app, Hsends.
    replace (S k - attempt) with (S (S k - S attempt)) by lia.
    reflexivity.
  - rewrite last_cons, last_app, last_cons, Hlast. reflexivity.
Qed.

(** The loop from [attempt] on, when every attempt left fails. *)
Lemma attempts_exhausted :
  forall remaining attempt,
    0 < remaining ->
    attempt + remaining = S maxRetries ->
    (forall j, attempt <= j <= maxRetries -> fails j) ->
    exists message,
      sendMessage tab maxRetries = LastError message
      /\ (attempts tab maxRetries remaining attempt).1 = RejectedWith message
      /\ sendsOf (attempts tab maxRetries remaining attempt).2
         = seq attempt remaining.
Proof.
  induction remaining as [|remaining IH]; intros attempt Hpos Hinv Hfail;
    [lia|].
  cbn [attempts].
  destruct (Hfail attempt ltac:(lia)) as [message Hm]. rewrite Hm.
  destruct (recovery_quiet tab message attempt) as [Hs _]. simpl in Hs.
  destruct (Nat.eqb_spec attempt maxRetries) as [Heq|Hne].
  - subst attempt. assert (remaining = 0) as -> by lia.
    exists message. cbn [fst snd]. split; [exact Hm|]. split; [reflexivity|].
    change (SendMessage maxRetries :: ?l)
      with ([SendMessage maxRetries] ++ l).
    by rewrite sendsOf_app, Hs.
  - destruct (IH (S attempt)) as (final & Hfinal & Hres & Hsends);
      [lia | lia | intros j Hj; apply Hfail; lia |].
    exists final. cbn [fst snd]. split; [exact Hfinal|].
    split; [exact Hres|].
    change (SendMessage attempt :: ?l) with ([SendMessage attempt] ++ l).
    rewrite sendsOf_app, sendsOf_app, Hs.
    change (Backoff attempt ?d :: ?l) with ([Backoff attempt d] ++ l).
    by rewrite sendsOf_app, Hsends.
Qed.

End Outcome.

(** X5.  The first answered attempt settles the call: when attempt [k] is
    the first that the tab answers, the promise fulfils with that answer,
    the attempts 1..k were made and nothing happens after attempt [k].
    When all [maxRetries] attempts fail, the promise rejects with the
    error of the last one.  With [maxRetries = 0] nothing is sent and the
    promise fulfils with [undefined]. *)
Theorem sendMessageToTab_outcome {Response : Type} (tab : Tab Response)
  (maxRetries : nat) :
  let settled := (sendMessageToTab tab maxRetries).1 in
  let trace := (sendMessageToTab tab maxRetries).2 in
  (forall k response,
     1 <= k <= maxRetries ->
     sendMessage tab k = Responded response ->
     (forall j, 1 <= j < k -> fails tab j) ->
     settled = Fulfilled response
     /\ sendsOf trace = seq 1 k
     /\ last trace = Some (SendMessage k))
  /\ (1 <= maxRetries ->
      (forall j, 1 <= j <= maxRetries -> fails tab j) ->
      exists message,
        sendMessage tab maxRetries = LastError message
        /\ settled = RejectedWith message
        /\ sendsOf trace = seq 1 maxRetries)
  /\ (maxRetries = 0 -> settled = Fulfilled None /\ trace = []).
Proof.
  cbv zeta. unfold sendMessageToTab. split; [|split].
  - intros k response Hk Hans Hfail.
    destruct (attempts_answered tab maxRetries k response Hans maxRetries 1)
      as (Hres & Hsends & Hlast); [lia | lia | exact Hfail |].
    replace (S k - 1) with k in Hsends by lia. done.
  - intros Hpos Hfail.
    apply attempts_exhausted; [lia | lia | exact Hfail].
  - intros ->. done.
Qed.

Definition deaf : Tab nat :=
  mkTab (fun _ => LastError "The message port closed before a response was received.")
        (fun _ => true).

Lemma sendMessageToTab_outcome_witness :
  (sendMessageToTab staleTwice 5).1 = Fulfilled (Some 7)
  /\ (sendMessageToTab deaf 2).1
     = RejectedWith "The message port closed before a response was received.".
Proof.
  split.
  - apply (proj1 (sendMessageToTab_outcome staleTwice 5) 3 (Some 7)).
    + lia.
    + reflexivity.
    + intros j Hj. assert (j = 1 \/ j = 2) as [-> | ->] by lia;
        eexists; reflexivity.
  - destruct (proj1 (proj2 (sendMessageToTab_outcome deaf 2)))
      as (message & Hm & Hres & _).
    + lia.
    + intros j _. eexists. reflexivity.
    + rewrite Hres. f_equal. by injection Hm.
Defined.



End TransportFacts.

(** ** [extractText] fails on no match and bounds what it returns *)

Module ToolsSpec.
Import JS BrowserTools.

(** *** What the normalised text is

    The words of a text are its maximal runs of code units that are not
    white space, in order. *)
Fixpoint wordsFrom (current : Text) (s : Text) : list Text :=
  match s with
  | [] =>
      match current with
      | [] => []
      | _ => [current]
      end
  | c :: rest =>
      if isSpace c then
        match current with
        | [] => wordsFrom [] rest
        | _ => current :: wordsFrom [] rest
        end
      else wordsFrom (current ++ [c]) rest
  end.

Definition words (s : Text) : list Text := wordsFrom [] s.

(** The texts of [l] in order, with [sep] between two of them. *)
Definition separated (sep : Text) (l : list Text) : Text :=
  match l with
  | [] => []
  | first :: rest => first ++ concat (map (fun t => sep ++ t) rest)
  end.

(** The text of an element that [extractText] starts from: its
    [textContent] when that is not empty, else its [innerText] when that
    is not empty, else the empty text. *)
Definition rawText (el : Element) : Text :=
  match textContent el with
  | Some (c :: t) => c :: t
  | _ =>
      match innerText el with
      | Some (c :: t) => c :: t
      | _ => []
      end
  end.

(** *** White space after normalisation *)

Definition startsClean (s : Text) : Prop :=
  match s with
  | [] => True
  | c :: _ => isSpace c = false
  end.

Fixpoint endsClean (s : Text) : Prop :=
  match s with
  | [] => True
  | [c] => isSpace c = false
  | _ :: rest => endsClean rest
  end.

(** Every white-space code unit is a space, and the next one is not white
    space. *)
Fixpoint spaced (s : Text) : Prop :=
  match s with
  | [] => True
  | c :: rest =>
      (isSpace c = true -> c = space /\ startsClean rest) /\ spaced rest
  end.

(** White space only occurs as single spaces between other code units. *)
Definition collapsed (s : Text) : Prop :=
  startsClean s /\ endsClean s /\ spaced s.

Lemma replaceSpaceRuns_spaced (s : Text) :
  forall inRun,
    spaced (replaceSpaceRuns inRun s)
    /\ (inRun = true -> startsClean (replaceSpaceRuns inRun s)).
Proof.
  induction s as [|c rest IH]; intros inRun; simpl; [auto|].
  destruct (isSpace c) eqn:Hc.
  - destruct inRun.
    + apply IH.
    + simpl. destruct (IH true) as [Hs Hstart].
      repeat split; auto; discriminate.
  - simpl. destruct (IH false) as [Hs _].
    repeat split; auto; congruence.
Qed.

Lemma trimStart_spaced (s : Text) :
  spaced s -> spaced (trimStart s) /\ startsClean (trimStart s).
Proof.
  induction s as [|c rest IH]; simpl; [auto|].
  intros [Hc Hrest]. destruct (isSpace c) eqn:Hsp; [auto|].
  simpl. repeat split; auto; congruence.
Qed.

Lemma trimEnd_startsClean (s : Text) :
  startsClean s -> startsClean (trimEnd s).
Proof.
  destruct s as [|c rest]; simpl; [auto|].
  intros Hc. destruct (trimEnd rest); rewrite ?Hc; exact Hc.
Qed.

Lemma trimEnd_endsClean (s : Text) : endsClean (trimEnd s).
Proof.
  induction s as [|c rest IH]; simpl; [auto|].
  destruct (trimEnd rest) as [|d r] eqn:Hrest.
  - destruct (isSpace c) eqn:Hc; simpl; auto.
  - exact IH.
Qed.

Lemma trimEnd_spaced (s : Text) : spaced s -> spaced (trimEnd s).
Proof.
  induction s as [|c rest IH]; simpl; [auto|].
  intros [Hc Hrest]. specialize (IH Hrest).
  destruct (trimEnd rest) as [|d r] eqn:Hcut.
  - destruct (isSpace c) eqn:Hsp; simpl; [auto|].
    split; [congruence | auto].
  - split; [|exact IH].
    intros Hsp. destruct (Hc Hsp) as [-> Hstart].
    split; [reflexivity|].
    pose proof (trimEnd_startsClean rest Hstart) as H. by rewrite Hcut in H.
Qed.

Lemma cleanText_collapsed (el : Element) : collapsed (cleanText el).
Proof.
  unfold cleanText, trim.
  set (text := showText _).
  destruct (replaceSpaceRuns_spaced text false) as [Hs _].
  destruct (trimStart_spaced _ Hs) as [Hs' Hstart].
  repeat split.
  - by apply trimEnd_startsClean.
  - apply trimEnd_endsClean.
  - by apply trimEnd_spaced.
Qed.

(** *** The normalised text is the words with one space in between *)

Lemma join_separated (sep : Text) (l : list Text) :
  join sep l = separated sep l.
Proof.
  induction l as [|t [|u rest] IH]; [done | simpl; by rewrite app_nil_r |].
  change (join sep (t :: u :: rest)) with (t ++ sep ++ join sep (u :: rest)).
  rewrite IH. simpl. by rewrite <- app_assoc.
Qed.

Lemma trimEnd_cons (c : N) (rest : Text) :
  trimEnd (c :: rest)
  = match trimEnd rest with
    | [] => if isSpace c then [] else [c]
    | rest' => c :: rest'
    end.
Proof. reflexivity. Qed.

Lemma trimEnd_app (a b : Text) :
  trimEnd (a ++ b)
  = match trimEnd b with
    | [] => trimEnd a
    | b' => a ++ b'
    end.
Proof.
  induction a as [|c a IH]; simpl.
  - by destruct (trimEnd b).
  - rewrite IH. destruct (trimEnd b) as [|d b'] eqn:Hb; [reflexivity|].
    by destruct a.
Qed.

Lemma trimEnd_words (s : Text) :
  Forall (fun c => isSpace c = false) s -> trimEnd s = s.
Proof.
  induction 1 as [|c rest Hc _ IH]; simpl; [done|].
  rewrite IH. destruct rest; by rewrite ?Hc.
Qed.

Lemma wordsFrom_head (current s : Text) :
  current <> [] ->
  exists rest, wordsFrom current s = (current ++ rest.1) :: rest.2.
Proof.
  revert current. induction s as [|c s IH]; intros current Hne; simpl.
  - destruct current; [done|]. exists ([], []). by rewrite app_nil_r.
  - destruct (isSpace c).
    + destruct current; [done|]. exists ([], wordsFrom [] s).
      by rewrite app_nil_r.
    + destruct (IH (current ++ [c])) as [[more ws] Hw].
      { by destruct current. }
      exists (c :: more, ws). rewrite Hw. simpl. by rewrite <- app_assoc.
Qed.

Lemma words_first (s : Text) :
  match wordsFrom [] s with
  | [] => True
  | w :: _ => w <> []
  end.
Proof.
  induction s as [|c s IH]; simpl; [done|].
  destruct (isSpace c); [exact IH|].
  destruct (wordsFrom_head [c] s) as [[more ws] ->]; done.
Qed.

Lemma normalised_words (s : Text) :
  (forall current,
     current <> [] ->
     Forall (fun c => isSpace c = false) current ->
     trimEnd (current ++ replaceSpaceRuns false s)
     = join [space] (wordsFrom current s))
  /\ trimEnd (replaceSpaceRuns true s) = join [space] (wordsFrom [] s).
Proof.
  induction s as [|c s [IHA IHB]].
  - split; [|reflexivity].
    intros current Hne Hall. rewrite app_nil_r. simpl.
    destruct current; [done|]. by apply trimEnd_words.
  - simpl. destruct (isSpace c) eqn:Hc.
    + split; [|exact IHB].
      intros current Hne Hall.
      rewrite trimEnd_app, (trimEnd_cons space), IHB.
      change (isSpace space) with true.
      pose proof (words_first s) as Hfirst.
      destruct current as [|d current]; [done|].
      destruct (wordsFrom [] s) as [|w ws].
      * cbn [join]. by apply trimEnd_words.
      * destruct w as [|e w]; [done|].
        destruct ws; reflexivity.
    + split.
      * intros current Hne Hall.
        replace (current ++ c :: replaceSpaceRuns false s)
          with ((current ++ [c]) ++ replaceSpaceRuns false s)
          by (by rewrite <- app_assoc).
        apply IHA; [by destruct current|].
        apply Forall_app. by repeat constructor.
      * apply (IHA [c]); [done | by repeat constructor].
Qed.

Lemma trimStart_clean (s : Text) : startsClean s -> trimStart s = s.
Proof. destruct s as [|c s]; simpl; [done|]. by intros ->. Qed.

Lemma trimStart_replaced (s : Text) :
  trimStart (replaceSpaceRuns false s) = replaceSpaceRuns true s.
Proof.
  destruct s as [|c s]; simpl; [done|].
  destruct (isSpace c) eqn:Hc; simpl.
  - apply trimStart_clean. by apply replaceSpaceRuns_spaced.
  - by rewrite Hc.
Qed.

(** Collapsing the white space of a text and trimming it gives its words
    with one space between two of them. *)
Lemma normalised (s : Text) :
  trim (replaceSpaceRuns false s) = separated [space] (words s).
Proof.
  unfold trim, words. rewrite trimStart_replaced, <- join_separated.
  apply normalised_words.
Qed.

Lemma cleanText_words (el : Element) :
  cleanText el = separated [space] (words (rawText el)).
Proof.
  unfold cleanText, rawText, orElse, truthyText, showText. cbv zeta.
  rewrite <- normalised.
  destruct (textContent el) as [[|c t]|], (innerText el) as [[|d u]|];
    reflexivity.
Qed.

(** *** What [trim] removes *)

Definition blank (s : Text) : Prop := Forall (fun c => isSpace c = true) s.

Lemma trimStart_split (s : Text) :
  exists lead, s = lead ++ trimStart s /\ blank lead.
Proof.
  induction s as [|c s (lead & Hs & Hlead)];
    [exists []; split; [reflexivity | constructor]|].
  simpl. destruct (isSpace c) eqn:Hc.
  - exists (c :: lead). split; [simpl; by f_equal | by constructor].
  - exists []. split; [reflexivity | constructor].
Qed.

Lemma trimEnd_split (s : Text) :
  exists trail, s = trimEnd s ++ trail /\ blank trail.
Proof.
  induction s as [|c s (trail & Hs & Htrail)];
    [exists []; split; [reflexivity | constructor]|].
  rewrite trimEnd_cons. destruct (trimEnd s) as [|d r].
  - destruct (isSpace c) eqn:Hc.
    + exists (c :: trail). simpl in *. subst s. split; [reflexivity|].
      by constructor.
    + exists trail. simpl in *. subst s. by split.
  - exists trail. split; [|exact Htrail]. simpl. by f_equal.
Qed.

(** [trim] removes a blank head and a blank tail, and leaves a text that
    neither starts nor ends with white space. *)
Lemma trim_spec (s : Text) :
  exists lead trail,
    s = lead ++ trim s ++ trail
    /\ blank lead /\ blank trail
    /\ startsClean (trim s) /\ endsClean (trim s).
Proof.
  destruct (trimStart_split s) as (lead & Hs & Hlead).
  destruct (trimEnd_split (trimStart s)) as (trail & Ht & Htrail).
  exists lead, trail. unfold trim. rewrite <- Ht, <- Hs.
  split; [reflexivity|]. split; [exact Hlead|]. split; [exact Htrail|].
  split; [|apply trimEnd_endsClean].
  apply trimEnd_startsClean.
  clear. induction s as [|c s IH]; simpl; [done|].
  destruct (isSpace c) eqn:Hc; [exact IH | exact Hc].
Qed.

(** *** What the page summary holds *)

(** [v?.trim()] when it is not empty. *)
Definition label (v : option Text) : option Text :=
  match v with
  | Some t =>
      match trim t with
      | [] => None
      | shown => Some shown
      end
  | None => None
  end.

(** The label of a button: from its text, else from its value. *)
Definition buttonLabel (btn : Element) : option Text :=
  match label (textContent btn) with
  | Some shown => Some shown
  | None => label (value btn)
  end.

(** The descriptor of an input: its type (its lower-cased tag name when
    it has none), its placeholder, and its [aria-label] or else its
    name. *)
Definition descriptorOf (input : Element) : Descriptor :=
  mkDescriptor
    match type input with
    | Some (c :: t) => c :: t
    | _ => lit (toLowerCase (tagName input))
    end
    (default [] (placeholder input))
    match ariaLabel input with
    | Some (c :: t) => c :: t
    | _ => default [] (nameAttribute input)
    end.

Lemma truthyTexts_label (f : Element -> option Text) (l : list Element) :
  truthyTexts (map (fun el => trimmed (f el)) l)
  = omap (fun el => label (f el)) l.
Proof.
  unfold truthyTexts. induction l as [|el l IH]; [done|].
  csimpl. rewrite IH. unfold trimmed, label, truthyText.
  destruct (f el) as [t|]; [|done]. by destruct (trim t).
Qed.

Lemma truthyTexts_buttonLabel (l : list Element) :
  truthyTexts
    (map (fun btn => orElse (trimmed (textContent btn)) (trimmed (value btn)))
       l)
  = omap buttonLabel l.
Proof.
  unfold truthyTexts. induction l as [|el l IH]; [done|].
  csimpl. rewrite IH.
  unfold buttonLabel, orElse, trimmed, label, truthyText.
  destruct (textContent el) as [t|], (value el) as [v|];
    try destruct (trim t); try destruct (trim v); reflexivity.
Qed.

Lemma describeInput_descriptorOf (input : Element) :
  describeInput input = descriptorOf input.
Proof.
  unfold describeInput, descriptorOf, orElse, truthyText, showText.
  destruct (type input) as [[|? ?]|], (placeholder input) as [[|? ?]|],
    (ariaLabel input) as [[|? ?]|], (nameAttribute input) as [[|? ?]|];
    reflexivity.
Qed.

(** *** Lengths *)

Lemma length_take_le {A : Type} (n : nat) (l : list A) :
  length (take n l) <= n.
Proof. rewrite length_take. lia. Qed.

(** C8.  [extractText] returns a failure whose error is ['No elements
    found: ...'] when the selector matches nothing.  When it matches some
    elements (and the queries behind the page summary do not throw) it
    returns a success whose text is made as follows: each match gives
    the words of its text (its [textContent], or its [innerText] when
    that is empty) with one space between two of them; the texts so
    obtained that are not empty are put together with a blank line
    between two of them; and the first 5000 code units of the whole are
    kept.  With it comes the page summary: the title, the address, the
    first 10 non-empty trimmed texts of the headings, the first 10
    labels of the buttons, the first 10 non-empty trimmed texts of the
    links, and the descriptors of the first 10 inputs. *)
Theorem extractText_result (doc : Document) (selector : option Text)
  (tools : Tools) :
  let target := default (lit "body") selector in
  let result := (extractText doc selector tools).1 in
  (querySelectorAll doc target = Matched [] ->
   success result = false
   /\ error result = Some (lit "No elements found: " ++ target))
  /\ (forall elements hs btns anchors fields,
        querySelectorAll doc target = Matched elements ->
        elements <> [] ->
        querySelectorAll doc headingSelector = Matched hs ->
        querySelectorAll doc buttonSelector = Matched btns ->
        querySelectorAll doc linkSelector = Matched anchors ->
        querySelectorAll doc inputSelector = Matched fields ->
        exists extracted info,
          success result = true
          /\ text result = Some extracted
          /\ extracted
             = take 5000
                 (separated newline2
                    (List.filter
                       (fun t => negb (length t =? 0)%nat)
                       (map (fun el => separated [space] (words (rawText el)))
                          elements)))
          /\ Forall collapsed
               (map (fun el => separated [space] (words (rawText el)))
                  elements)
          /\ length extracted <= 5000
          /\ pageInfo result = Some info
          /\ pi_title info = title doc
          /\ pi_url info = href doc
          /\ headings info
             = take 10 (omap (fun h => label (textContent h)) hs)
          /\ buttons info = take 10 (omap buttonLabel btns)
          /\ links info
             = take 10 (omap (fun a => label (textContent a)) anchors)
          /\ inputs info = take 10 (map descriptorOf fields)
          /\ length (headings info) <= 10
          /\ length (buttons info) <= 10
          /\ length (links info) <= 10
          /\ length (inputs info) <= 10)
  /\ (forall s,
        exists lead trail,
          s = lead ++ trim s ++ trail
          /\ blank lead /\ blank trail
          /\ startsClean (trim s) /\ endsClean (trim s)).
Proof.
  cbv zeta. split; [|split; [|apply trim_spec]].
  - intros Hnone. unfold extractText, querying.
    change (match selector with Some s => s | None => lit "body" end)
      with (default (lit "body") selector).
    rewrite Hnone. simpl. auto.
  - intros elements hs btns anchors fields Hsome Hne Hhs Hbtns Hanchors
      Hfields.
    unfold extractText, querying.
    change (match selector with Some s => s | None => lit "body" end)
      with (default (lit "body") selector).
    rewrite Hsome.
    destruct elements as [|el els]; [done|].
    cbn [length Nat.eqb].
    rewrite Hhs, Hbtns, Hanchors, Hfields. cbn [fst success text pageInfo].
    eexists _, _. split; [reflexivity|]. split; [reflexivity|].
    assert (Hclean : map cleanText (el :: els)
                     = map (fun el => separated [space] (words (rawText el)))
                         (el :: els)).
    { apply map_ext. intros e. apply cleanText_words. }
    split.
    { unfold extractedText. rewrite join_separated, Hclean.
      f_equal. f_equal. apply filter_ext. intros t. by destruct t. }
    split.
    { rewrite <- Hclean. apply Forall_forall. intros t Ht.
      apply list_elem_of_fmap in Ht as (e & -> & _).
      apply cleanText_collapsed. }
    split; [apply length_take_le|].
    split; [reflexivity|].
    cbn [pi_title pi_url headings buttons links inputs].
    split; [reflexivity|]. split; [reflexivity|].
    split; [by rewrite truthyTexts_label|].
    split; [by rewrite truthyTexts_buttonLabel|].
    split; [by rewrite truthyTexts_label|].
    split.
    { f_equal. apply map_ext. intros e. apply describeInput_descriptorOf. }
    repeat split; apply length_take_le.
Qed.

(** A page with a heading, a paragraph, an empty division and a search
    box.  The heading holds an ideographic space (U+3000) and a no-break
    space; the paragraph holds Japanese text around a line separator
    (U+2028). *)
Definition heading : Element :=
  mkElement "H1"
    (Some ([32; 32] ++ lit "Example" ++ [12288; 10] ++ lit "Domain"
           ++ [160])%N)
    None None None None None None.

Definition paragraph : Element :=
  mkElement "P" (Some [26085; 26412; 8232; 35486]%N) None None None None
    None None.

Definition division : Element :=
  mkElement "DIV" (Some [9; 32]%N) (Some []) None None None None None.

Definition searchBox : Element :=
  mkElement "INPUT" (Some []) (Some []) (Some []) None
    (Some (lit "Search")) None (Some (lit "q")).

Definition examplePage : Document :=
  mkDocument (lit "Example") (lit "https://example.com/")
    (fun s =>
       if decide (s = lit "h1, p, div") then
         Matched [heading; paragraph; division]
       else if decide (s = headingSelector) then Matched [heading]
       else if decide (s = inputSelector) then Matched [searchBox]
       else if decide (s = lit "p:") then
         Thrown (lit "'p:' is not a valid selector")
       else Matched []).

Definition noTools : Tools := mkTools None [].

Example extractText_heading :
  extractText examplePage (Some (lit "h1, p, div")) noTools
  = (mkToolResult true (Some (lit "Extracted text from: h1, p, div")) None
       (Some (lit "h1, p, div"))
       (Some (lit "Example Domain" ++ [10; 10; 26085; 26412; 32; 35486])%N)
       (Some (mkPageInfo (lit "Example") (lit "https://example.com/")
                [(lit "Example" ++ [12288; 10] ++ lit "Domain")%N] [] []
                [mkDescriptor (lit "input") (lit "Search") (lit "q")])),
     mkTools (Some (mkRecord "extract_text" (lit "h1, p, div") None))
       [mkRecord "extract_text" (lit "h1, p, div") None]).
Proof. vm_compute. reflexivity. Qed.

Example extractText_invalid_selector :
  extractText examplePage (Some (lit "p:")) noTools
  = (mkToolResult false None
       (Some (lit "Text extraction failed: 'p:' is not a valid selector"))
       None None None,
     noTools).
Proof. vm_compute. reflexivity. Qed.

Lemma extractText_result_witness :
  error (extractText examplePage (Some (lit ".missing")) noTools).1
  = Some (lit "No elements found: .missing")
  /\ text (extractText examplePage (Some (lit "h1, p, div")) noTools).1
     = Some (lit "Example Domain" ++ [10; 10; 26085; 26412; 32; 35486])%N
  /\ exists info,
       pageInfo (extractText examplePage (Some (lit "h1, p, div")) noTools).1
       = Some info
       /\ headings info = [(lit "Example" ++ [12288; 10] ++ lit "Domain")%N]
       /\ inputs info = [mkDescriptor (lit "input") (lit "Search") (lit "q")].
Proof.
  split.
  - destruct (extractText_result examplePage (Some (lit ".missing")) noTools)
      as [Hnone _].
    destruct (Hnone eq_refl) as [_ Herror]. exact Herror.
  - destruct (extractText_result examplePage (Some (lit "h1, p, div"))
                noTools) as (_ & Hsome & _).
    destruct (Hsome [heading; paragraph; division] [heading] [] []
                [searchBox])
      as (extracted & info & _ & Ht & He & _ & _ & Hi & _ & _ & Hh & _ & _
          & Hin & _); try reflexivity; [discriminate|].
    split; [rewrite Ht, He; reflexivity|].
    exists info. split; [exact Hi|]. split; [rewrite Hh | rewrite Hin];
      reflexivity.
Defined.

End ToolsSpec.

(** ** The agent *)

Module AgentSpec.
Import JS JSFacts Agent.

(** *** The loop guard *)

Lemma sameAction_spec (r : ActionRecord) (functionCall : FunctionCall) :
  sameAction r functionCall = true
  <-> rec_action r = action functionCall
      /\ rec_target r = target functionCall.
Proof.
  unfold sameAction. rewrite andb_true_iff, String.eqb_eq, strict_eq_spec.
  reflexivity.
Qed.

(** [isRepeatingAction] holds exactly when the decision has the action
    and target of the last recorded one, or of one of the last two
    entries of the history. *)
Lemma isRepeatingAction_spec (a : AIAgent) (functionCall : FunctionCall) :
  isRepeatingAction a functionCall = true
  <-> (exists r, lastAction a = Some r
                 /\ rec_action r = action functionCall
                 /\ rec_target r = target functionCall)
      \/ (exists r, r ∈ slice_last 2 (actionHistory a)
                    /\ rec_action r = action functionCall
                    /\ rec_target r = target functionCall).
Proof.
  unfold isRepeatingAction. split.
  - destruct (lastAction a) as [r|] eqn:Hlast.
    + destruct (sameAction r functionCall) eqn:Hsame.
      * intros _. left. exists r. split; [reflexivity|].
        by apply sameAction_spec.
      * intros Hcount. right.
        destruct (List.filter _ _) as [|r' rest] eqn:Hf; [discriminate|].
        assert (Hin : In r' (List.filter
                  (fun r => sameAction r functionCall)
                  (slice_last 2 (actionHistory a))))
          by (rewrite Hf; left; reflexivity).
        apply filter_In in Hin as [Hin Hsame'].
        exists r'. split; [by apply list_elem_of_In|].
        by apply sameAction_spec.
    + intros Hcount. right.
      destruct (List.filter _ _) as [|r' rest] eqn:Hf; [discriminate|].
      assert (Hin : In r' (List.filter
                (fun r => sameAction r functionCall)
                (slice_last 2 (actionHistory a))))
        by (rewrite Hf; left; reflexivity).
      apply filter_In in Hin as [Hin Hsame'].
      exists r'. split; [by apply list_elem_of_In|].
      by apply sameAction_spec.
  - intros [(r & Hlast & Hr)|(r & Hin & Hr)].
    + rewrite Hlast. apply sameAction_spec in Hr. by rewrite Hr.
    + destruct (match lastAction a with
                | Some r0 => sameAction r0 functionCall
                | None => false
                end); [reflexivity|].
      apply sameAction_spec in Hr.
      assert (Hf : In r (List.filter
                (fun r => sameAction r functionCall)
                (slice_last 2 (actionHistory a)))).
      { apply filter_In. split; [by apply list_elem_of_In|done]. }
      destruct (List.filter _ _); [destruct Hf|reflexivity].
Qed.

(** C2, amended.  A proposed decision that has the action and target of
    the last recorded decision, or of one of the last two entries of the
    history, and whose action is [open], [click] or [extract_text], is
    replaced before execution by a decision of another kind: [open] and
    [click] by [extract_text] on [body], [extract_text] by [finish] with
    the generic summary. *)
Theorem loopDetection_rewrites (a : AIAgent) (functionCall : FunctionCall) :
  (exists r, lastAction a = Some r
             /\ rec_action r = action functionCall
             /\ rec_target r = target functionCall)
  \/ (exists r, r ∈ slice_last 2 (actionHistory a)
                /\ rec_action r = action functionCall
                /\ rec_target r = target functionCall) ->
  (action functionCall = "open" \/ action functionCall = "click" ->
   action (loopDetection a functionCall) = "extract_text"
   /\ target (loopDetection a functionCall) = Some "body")
  /\ (action functionCall = "extract_text" ->
      action (loopDetection a functionCall) = "finish"
      /\ summary (loopDetection a functionCall)
         = Some "Task appears complete based on previous actions")
  /\ (action functionCall = "open" \/ action functionCall = "click"
      \/ action functionCall = "extract_text" ->
      action (loopDetection a functionCall) <> action functionCall).
Proof.
  intros Hrepeat. apply isRepeatingAction_spec in Hrepeat.
  unfold loopDetection, forceProgression. rewrite Hrepeat.
  split; [|split].
  - intros [-> | ->]; split; reflexivity.
  - intros ->. split; reflexivity.
  - intros [-> | [-> | ->]]; simpl; discriminate.
Qed.

(** An agent that has just navigated, and the planner proposing the same
    navigation again. *)
Definition navigated : AIAgent :=
  mkAgent true (Some "Go to example.com") 1 10 [] (Some 7)
    (Some (mkRecord "open" (Some "https://example.com") None 1))
    [mkRecord "open" (Some "https://example.com") None 1] 0.

Definition navigateAgain : FunctionCall :=
  mkCall "open" (Some "https://example.com") None (Some "open the site")
    None.

Lemma loopDetection_rewrites_witness :
  action (loopDetection navigated navigateAgain) = "extract_text"
  /\ target (loopDetection navigated navigateAgain) = Some "body"
  /\ action (loopDetection navigated navigateAgain)
     <> action navigateAgain.
Proof.
  destruct (loopDetection_rewrites navigated navigateAgain)
    as (Hread & _ & Hdiff).
  - left. eexists. split; [reflexivity|]. split; reflexivity.
  - destruct Hread as [Haction Htarget]; [left; reflexivity|].
    split; [exact Haction|]. split; [exact Htarget|].
    apply Hdiff. left. reflexivity.
Defined.

(** An agent that has just typed into the search box, and the planner
    proposing to type there again. *)
Definition typed : AIAgent :=
  mkAgent true (Some "Search for shoes") 1 10 [] (Some 7)
    (Some (mkRecord "type" (Some "#q") (Some "shoes") 1))
    [mkRecord "type" (Some "#q") (Some "shoes") 1] 0.

Definition typeAgain : FunctionCall :=
  mkCall "type" (Some "#q") (Some "shoes") (Some "fill the search box")
    None.

(** C2 as stated fails: a repeated [type] decision is detected as a
    repetition and goes through unchanged. *)
Lemma loopDetection_keeps_repeated_type :
  (exists r, lastAction typed = Some r
             /\ rec_action r = action typeAgain
             /\ rec_target r = target typeAgain)
  /\ isRepeatingAction typed typeAgain = true
  /\ loopDetection typed typeAgain = typeAgain
  /\ ~ (action (loopDetection typed typeAgain) <> action typeAgain).
Proof.
  split; [eexists; split; [reflexivity|]; split; reflexivity|].
  split; [reflexivity|]. split; [reflexivity|].
  intros Hne. apply Hne. reflexivity.
Qed.

(** *** Reasoning about the methods

    [wp m a Q]: running [m] from the agent [a] leads to an outcome that
    satisfies [Q]. *)

Definition wp {A : Type} (m : M A) (a : AIAgent) (Q : Outcome A -> Prop)
  : Prop := Q (m a).

(** What remains to be shown after the first half of a [bind]. *)
Definition after {A B : Type} (o : Outcome A) (k : A -> M B)
  (Q : Outcome B -> Prop) : Prop :=
  match completion o with
  | Normal x =>
      wp (k x) (agent o)
        (fun o' =>
           Q (mkOutcome (completion o') (agent o') (sent o ++ sent o')))
  | Throw e => Q (mkOutcome (Throw e) (agent o) (sent o))
  end.

Lemma wp_bind {A B : Type} (m : M A) (k : A -> M B) a Q :
  wp m a (fun o => after o k Q) -> wp (bind m k) a Q.
Proof.
  unfold wp, after, bind, and_then. destruct (completion (m a)); auto.
Qed.

Lemma wp_ret {A : Type} (x : A) a (Q : Outcome A -> Prop) :
  Q (mkOutcome (Normal x) a []) -> wp (ret x) a Q.
Proof. auto. Qed.

Lemma wp_throw {A : Type} e a (Q : Outcome A -> Prop) :
  Q (mkOutcome (Throw e) a []) -> wp (throw e) a Q.
Proof. auto. Qed.

Lemma wp_gets {A : Type} (f : AIAgent -> A) a (Q : Outcome A -> Prop) :
  Q (mkOutcome (Normal (f a)) a []) -> wp (gets f) a Q.
Proof. auto. Qed.

Lemma wp_modify f a (Q : Outcome unit -> Prop) :
  Q (mkOutcome (Normal tt) (f a) []) -> wp (modify f) a Q.
Proof. auto. Qed.

Lemma wp_sendUpdate u a (Q : Outcome unit -> Prop) :
  Q (mkOutcome (Normal tt) a [u]) -> wp (sendUpdate u) a Q.
Proof. auto. Qed.

Lemma wp_pushMessage m a (Q : Outcome unit -> Prop) :
  Q (mkOutcome (Normal tt)
       (set_conversationHistory (conversationHistory a ++ [m]) a) []) ->
  wp (pushMessage m) a Q.
Proof. auto. Qed.

(** Nothing is assumed about the outcome of [m]. *)
Lemma wp_any {A : Type} (m : M A) a (Q : Outcome A -> Prop) :
  (forall c a' s, Q (mkOutcome c a' s)) -> wp m a Q.
Proof. intros H. unfold wp. destruct (m a). apply H. Qed.

Ltac wp_simpl :=
  cbn beta iota delta
    [after completion agent sent
     isRunning currentTask stepCount maxSteps conversationHistory
     tabId lastAction actionHistory consecutiveFailures
     set_isRunning set_currentTask set_stepCount
     set_conversationHistory set_tabId set_lastAction
     set_actionHistory set_consecutiveFailures].

(** One step of symbolic execution; a condition met on the way is split
    into its cases. *)
Ltac wp_step :=
  lazymatch goal with
  | |- wp (bind _ _) _ _ => apply wp_bind
  | |- wp (ret _) _ _ => apply wp_ret; wp_simpl
  | |- wp (throw _) _ _ => apply wp_throw; wp_simpl
  | |- wp (gets _) _ _ => apply wp_gets; wp_simpl
  | |- wp (modify _) _ _ => apply wp_modify; wp_simpl
  | |- wp (sendUpdate _) _ _ => apply wp_sendUpdate; wp_simpl
  | |- wp (pushMessage _) _ _ => apply wp_pushMessage; wp_simpl
  | |- wp (when _ _) _ _ => unfold when
  | |- wp (match ?x with _ => _ end) _ _ =>
      lazymatch x with
      | true => cbv beta iota
      | false => cbv beta iota
      | Some _ => cbv beta iota
      | None => cbv beta iota
      | Z.leb ?n ?m => destruct (Z.leb_spec n m)
      | _ => destruct x eqn:?
      end
  | |- wp lastActionIsSubmitClick _ _ => unfold lastActionIsSubmitClick
  | |- wp getNextActionSuggestion _ _ => unfold getNextActionSuggestion
  | |- wp handleAgentStop _ _ => unfold handleAgentStop
  | |- wp stopTask _ _ => unfold stopTask
  | |- wp (recordAction _) _ _ => unfold recordAction
  end.

Ltac wp_run := repeat wp_step.

(** *** OBSERVE *)

(** The last action is a click on a target that mentions [submit]. *)
Definition submitClick (a : AIAgent) : Prop :=
  exists r t,
    lastAction a = Some r /\ rec_action r = "click"
    /\ rec_target r = Some t /\ includes t "submit" = true.

(** The last action, when it is a click, has a target.  (This holds
    whenever the loop reaches [observe]: [act] throws on a click without
    target.) *)
Definition targeted (a : AIAgent) : Prop :=
  forall r,
    lastAction a = Some r -> rec_action r = "click" ->
    rec_target r <> None.

Lemma observe_lastAction r a :
  lastAction (agent (observe r a)) = lastAction a.
Proof.
  change (wp (observe r) a (fun o => lastAction (agent o) = lastAction a)).
  unfold observe. wp_run; congruence.
Qed.

Lemma observe_targeted r a : targeted a -> targeted (agent (observe r a)).
Proof. unfold targeted. by rewrite observe_lastAction. Qed.

Lemma observe_success r a :
  success r = true ->
  consecutiveFailures (agent (observe r a)) = 0%Z
  /\ exists added,
       conversationHistory (agent (observe r a))
       = conversationHistory a ++ added
       /\ (finishDirective ∉ added)
       /\ (tooManyFailures ∉ sent (observe r a)).
Proof.
  intros Hs.
  change (wp (observe r) a (fun o =>
    consecutiveFailures (agent o) = 0%Z
    /\ exists added,
         conversationHistory (agent o) = conversationHistory a ++ added
         /\ (finishDirective ∉ added) /\ (tooManyFailures ∉ sent o))).
  unfold observe. rewrite Hs.
  wp_run; (split; [reflexivity|]); rewrite <- ?app_assoc;
    first [ eexists; split; [reflexivity|]
          | exists []; split; [by rewrite app_nil_r|] ];
    split; intros Hin; simpl in Hin;
    repeat (apply elem_of_cons in Hin as [Hin|Hin]);
    try discriminate; by apply elem_of_nil in Hin.
Qed.

(** Paths that contradict [targeted], or the absence of a submit click. *)
Ltac absurd_target Ht :=
  simplify_eq;
  match goal with
  | H1 : lastAction ?a = Some ?r,
    H2 : String.eqb (rec_action ?r) "click" = true,
    H3 : rec_target ?r = None |- _ =>
      exfalso; apply (Ht r H1); [by apply String.eqb_eq | exact H3]
  end.

Ltac absurd_submit Hn :=
  simplify_eq;
  match goal with
  | H1 : lastAction ?a = Some ?r,
    H2 : String.eqb (rec_action ?r) "click" = true,
    H3 : rec_target ?r = Some ?t,
    H4 : includes ?t "submit" = true |- _ =>
      exfalso; apply Hn; split; [done|]; exists r, t;
      split; [exact H1|]; split; [by apply String.eqb_eq|];
      split; [exact H3 | exact H4]
  end.

(** A failure that is not the timeout of a submit click adds one to the
    counter. *)
Lemma observe_failure r a :
  success r = false ->
  targeted a ->
  ~ (timedOut r = true /\ submitClick a) ->
  consecutiveFailures (agent (observe r a))
  = (consecutiveFailures a + 1)%Z.
Proof.
  intros Hs Ht Hn.
  change (wp (observe r) a (fun o =>
    consecutiveFailures (agent o) = (consecutiveFailures a + 1)%Z)).
  unfold observe. rewrite Hs.
  wp_run; try reflexivity; first [absurd_target Ht | absurd_submit Hn].
Qed.

(** The timeout of a submit click first takes one off the counter, not
    below 0, and tells the planner to look at the page. *)
Lemma observe_submit_timeout r a :
  success r = false ->
  timedOut r = true ->
  submitClick a ->
  consecutiveFailures (agent (observe r a))
  = (Z.max 0 (consecutiveFailures a - 1) + 1)%Z
  /\ completion (observe r a) = Normal tt
  /\ exists added,
       conversationHistory (agent (observe r a))
       = conversationHistory a ++ submitTimeoutNote :: added.
Proof.
  intros Hs Hto (rec & t & Hlast & Hclick & Htarget & Hsubmit).
  change (wp (observe r) a (fun o =>
    consecutiveFailures (agent o)
    = (Z.max 0 (consecutiveFailures a - 1) + 1)%Z
    /\ completion o = Normal tt
    /\ exists added,
         conversationHistory (agent o)
         = conversationHistory a ++ submitTimeoutNote :: added)).
  unfold observe. rewrite Hs, Hto.
  wp_run; simplify_eq; try congruence;
    try (rewrite Hclick, String.eqb_refl in *; discriminate);
    (split; [reflexivity|]); (split; [reflexivity|]);
    rewrite <- ?app_assoc; eexists; reflexivity.
Qed.

(** A failure that leaves the counter at 2 or more tells the side panel
    so and directs the planner to [finish]. *)
Lemma observe_escalates r a :
  success r = false ->
  targeted a ->
  (2 <= consecutiveFailures (agent (observe r a)))%Z ->
  tooManyFailures ∈ sent (observe r a)
  /\ exists added,
       conversationHistory (agent (observe r a))
       = conversationHistory a ++ added
       /\ finishDirective ∈ added.
Proof.
  intros Hs Ht.
  change (wp (observe r) a (fun o =>
    (2 <= consecutiveFailures (agent o))%Z ->
    tooManyFailures ∈ sent o
    /\ exists added,
         conversationHistory (agent o) = conversationHistory a ++ added
         /\ finishDirective ∈ added)).
  unfold observe. rewrite Hs.
  wp_run; try absurd_target Ht; intros Hcount; try lia;
    (split; [simpl; set_solver|]);
    rewrite <- ?app_assoc; eexists; (split; [reflexivity|]); set_solver.
Qed.

(** C4, amended.  In [observe] a successful result sets the counter of
    consecutive failures to 0 and escalates nothing; a failed result adds
    one to it, unless it is the timeout of a submit click; and a failed
    result that leaves the counter at 2 or more adds the directive to
    use [finish] to the conversation.  So two failures in a row from 0,
    neither of them such a timeout, bring the directive with the second,
    and a success after them brings the counter back to 0. *)
Theorem observe_failure_budget (a : AIAgent) (r1 r2 r3 : ActionResult) :
  targeted a ->
  (success r3 = true ->
   consecutiveFailures (agent (observe r3 a)) = 0%Z
   /\ (exists added,
         conversationHistory (agent (observe r3 a))
         = conversationHistory a ++ added
         /\ (finishDirective ∉ added)))
  /\ (success r1 = false ->
      ~ (timedOut r1 = true /\ submitClick a) ->
      consecutiveFailures (agent (observe r1 a))
      = (consecutiveFailures a + 1)%Z)
  /\ (success r1 = false ->
      (2 <= consecutiveFailures (agent (observe r1 a)))%Z ->
      exists added,
        conversationHistory (agent (observe r1 a))
        = conversationHistory a ++ added
        /\ finishDirective ∈ added)
  /\ (consecutiveFailures a = 0%Z ->
      ~ submitClick a ->
      success r1 = false -> success r2 = false -> success r3 = true ->
      let a1 := agent (observe r1 a) in
      let a2 := agent (observe r2 a1) in
      let a3 := agent (observe r3 a2) in
      consecutiveFailures a1 = 1%Z
      /\ consecutiveFailures a2 = 2%Z
      /\ (exists added,
            conversationHistory a2 = conversationHistory a1 ++ added
            /\ finishDirective ∈ added)
      /\ consecutiveFailures a3 = 0%Z).
Proof.
  intros Ht. split; [|split; [|split]].
  - intros Hs. destruct (observe_success r3 a Hs) as (H0 & added & Hc & Hn & _).
    split; [exact H0|]. by exists added.
  - intros Hs Hn. by apply observe_failure.
  - intros Hs Hc. by apply observe_escalates.
  - intros H0 Hn Hs1 Hs2 Hs3. cbn zeta.
    assert (Hn1 : ~ submitClick (agent (observe r1 a))).
    { unfold submitClick. by rewrite observe_lastAction. }
    pose proof (observe_targeted r1 a Ht) as Ht1.
    assert (H1 : consecutiveFailures (agent (observe r1 a)) = 1%Z).
    { rewrite observe_failure; [lia|done|done|tauto]. }
    assert (H2 : consecutiveFailures (agent (observe r2 (agent (observe r1 a))))
                 = 2%Z).
    { rewrite observe_failure; [lia|done|done|tauto]. }
    split; [exact H1|]. split; [exact H2|]. split.
    + apply observe_escalates; [done|done|lia].
    + by apply observe_success.
Qed.

(** An agent that clicked a missing button, and two failures and a
    success reported after it. *)
Definition clicked : AIAgent :=
  mkAgent true (Some "Add to cart") 1 10 [] (Some 7)
    (Some (mkRecord "click" (Some ".missing") None 1))
    [mkRecord "click" (Some ".missing") None 1] 0.

Definition notFound : ActionResult :=
  mkResult false None (Some "Element not found: .missing") None None.

Definition extracted : ActionResult :=
  mkResult true (Some "Extracted text from: body") None None None.

Lemma clicked_targeted : targeted clicked.
Proof. intros r [= <-] _. discriminate. Defined.

Lemma clicked_not_submit : ~ submitClick clicked.
Proof.
  intros (r & t & [= <-] & _ & [= <-] & Hsubmit). discriminate.
Defined.

Lemma observe_failure_budget_witness :
  consecutiveFailures (agent (observe notFound clicked)) = 1%Z
  /\ consecutiveFailures
       (agent (observe notFound (agent (observe notFound clicked)))) = 2%Z
  /\ consecutiveFailures
       (agent (observe extracted
                 (agent (observe notFound
                           (agent (observe notFound clicked)))))) = 0%Z.
Proof.
  destruct (observe_failure_budget clicked notFound notFound extracted
              clicked_targeted) as (_ & _ & _ & Hseq).
  destruct Hseq as (H1 & H2 & _ & H3); try reflexivity.
  - exact clicked_not_submit.
  - split; [exact H1|]. split; [exact H2 | exact H3].
Defined.

(** An agent that clicked the search button after one failure, and the
    timeout reported for the click. *)
Definition submitted (failures : Z) : AIAgent :=
  mkAgent true (Some "Search for shoes") 3 10 [] (Some 7)
    (Some (mkRecord "click" (Some "input[type='submit']") None 3))
    [mkRecord "click" (Some "input[type='submit']") None 3] failures.

Definition timeoutFailure : ActionResult :=
  mkResult false None (Some "Click failed: timeout") None None.

Definition plainFailure : ActionResult :=
  mkResult false None (Some "Click failed: element is detached") None None.

(** C4 as stated fails: the timeout of a submit click is a failed result
    that leaves the counter where it was, and two such failures in a row
    bring no directive to [finish]. *)
Lemma observe_failure_not_counted :
  success timeoutFailure = false
  /\ consecutiveFailures (submitted 1) = 1%Z
  /\ consecutiveFailures (agent (observe timeoutFailure (submitted 1)))
     = 1%Z
  /\ consecutiveFailures
       (agent (observe timeoutFailure
                 (agent (observe timeoutFailure (submitted 0))))) = 1%Z
  /\ (finishDirective ∉
        conversationHistory
          (agent (observe timeoutFailure
                    (agent (observe timeoutFailure (submitted 0)))))).
Proof.
  repeat split; try reflexivity.
  intros Hin. vm_compute in Hin.
  repeat (apply elem_of_cons in Hin as [Hin|Hin]; [discriminate|]).
  by apply elem_of_nil in Hin.
Qed.

(** C6, amended.  When the last action is a click whose target mentions
    [submit] and the result fails with a timeout, [observe] completes
    normally, adds to the conversation the note that tells the planner
    to extract the page content, and takes one off the counter (not
    below 0) before the failure is counted: a positive counter is left
    as it was, one less than a failure otherwise produces, and a counter
    at 0 goes to 1 as for any failure. *)
Theorem observe_submit_timeout_lowers (r : ActionResult) (a : AIAgent) :
  success r = false ->
  timedOut r = true ->
  submitClick a ->
  completion (observe r a) = Normal tt
  /\ (exists added,
        conversationHistory (agent (observe r a))
        = conversationHistory a ++ submitTimeoutNote :: added)
  /\ includes (content submitTimeoutNote) "Extract the page content" = true
  /\ consecutiveFailures (agent (observe r a))
     = (Z.max 0 (consecutiveFailures a - 1) + 1)%Z
  /\ ((1 <= consecutiveFailures a)%Z ->
      consecutiveFailures (agent (observe r a)) = consecutiveFailures a
      /\ (consecutiveFailures (agent (observe r a))
          < consecutiveFailures a + 1)%Z)
  /\ (consecutiveFailures a = 0%Z ->
      consecutiveFailures (agent (observe r a)) = 1%Z).
Proof.
  intros Hs Hto Hsubmit.
  destruct (observe_submit_timeout r a Hs Hto Hsubmit) as (Hc & Hn & Hadd).
  split; [exact Hn|]. split; [exact Hadd|]. split; [reflexivity|].
  split; [exact Hc|]. rewrite Hc. split; intros; lia.
Qed.

Lemma submitted_submitClick (failures : Z) : submitClick (submitted failures).
Proof.
  exists (mkRecord "click" (Some "input[type='submit']") None 3),
    "input[type='submit']".
  repeat split; reflexivity.
Defined.

Lemma observe_submit_timeout_lowers_witness :
  consecutiveFailures (agent (observe timeoutFailure (submitted 2))) = 2%Z
  /\ (consecutiveFailures (agent (observe timeoutFailure (submitted 2)))
      < consecutiveFailures (submitted 2) + 1)%Z.
Proof.
  destruct (observe_submit_timeout_lowers timeoutFailure (submitted 2))
    as (_ & _ & _ & _ & Hpos & _).
  - reflexivity.
  - reflexivity.
  - apply submitted_submitClick.
  - apply Hpos. simpl. lia.
Defined.

(** C6 as stated fails: with the counter at 0 the timeout of a submit
    click leaves it at 1, which is what any other failure produces. *)
Lemma observe_submit_timeout_not_lower :
  submitClick (submitted 0)
  /\ success timeoutFailure = false
  /\ timedOut timeoutFailure = true
  /\ timedOut plainFailure = false
  /\ consecutiveFailures (agent (observe timeoutFailure (submitted 0)))
     = 1%Z
  /\ consecutiveFailures (agent (observe plainFailure (submitted 0)))
     = 1%Z
  /\ ~ (consecutiveFailures (agent (observe timeoutFailure (submitted 0)))
        < consecutiveFailures (agent (observe plainFailure (submitted 0))))%Z.
Proof.
  split; [apply submitted_submitClick|].
  repeat split; try reflexivity.
  vm_compute. intros H. discriminate H.
Qed.

(** *** THINK *)

Lemma parseToolCall_fallback (response : ChatResponse) :
  (forall tc, tool_call response = Some tc -> name tc <> "browser_action") ->
  parseToolCall response = fallbackCall.
Proof.
  intros Hno. unfold parseToolCall.
  destruct (tool_call response) as [tc|]; [|reflexivity].
  destruct (String.eqb_spec (name tc) "browser_action") as [Heq|_];
    [|reflexivity].
  by destruct (Hno tc eq_refl).
Qed.

(** [handleAgentStop] stops a running agent and leaves any other
    alone. *)
Lemma handleAgentStop_spec a :
  handleAgentStop a
  = if isRunning a then
      mkOutcome (Normal tt)
        (mkAgent false None 0 (maxSteps a) (conversationHistory a) (tabId a)
           None [] 0)
        [taskAborted]
    else mkOutcome (Normal tt) a [].
Proof. by destruct a as [[] ? ? ? ? ? ? ? ?]. Qed.

(** [think] when the planner answered: the decision is what the loop
    guard makes of the parsed one, on the agent as it stands once a stop
    request that arrived meanwhile has been served. *)
Lemma think_decides (w : World) (n : nat) (a : AIAgent) :
  chat_success (chat w n) = true ->
  let s := if stopWhileThinking w n then agent (handleAgentStop a) else a in
  let decision := loopDetection s (parseToolCall (chat w n)) in
  completion (think w n a) = Normal decision
  /\ lastAction (agent (think w n a))
     = Some (mkRecord (action decision) (target decision) (text decision)
               (stepCount s))
  /\ Forall (fun u => u_type u = "thinking" \/ u = taskAborted)
       (sent (think w n a)).
Proof.
  intros Hok. cbv zeta.
  change (wp (think w n) a (fun o =>
    let s := if stopWhileThinking w n then agent (handleAgentStop a) else a in
    let decision := loopDetection s (parseToolCall (chat w n)) in
    completion o = Normal decision
    /\ lastAction (agent o)
       = Some (mkRecord (action decision) (target decision) (text decision)
                 (stepCount s))
    /\ Forall (fun u => u_type u = "thinking" \/ u = taskAborted) (sent o))).
  unfold think. cbv zeta. rewrite Hok. cbn [negb].
  wp_step. wp_step. wp_step.
  assert (Hrest : forall s0 before,
    Forall (fun u => u_type u = "thinking" \/ u = taskAborted) before ->
    wp (functionCall <- gets (fun a0 => loopDetection a0 (parseToolCall (chat w n)));;
        recordAction functionCall;;
        sendUpdate (mkUpdate "thinking" ("💭 " +:+ show (reasoning functionCall)));;
        ret functionCall) s0
      (fun o' =>
         completion o' = Normal (loopDetection s0 (parseToolCall (chat w n)))
         /\ lastAction (agent o')
            = Some (mkRecord
                      (action (loopDetection s0 (parseToolCall (chat w n))))
                      (target (loopDetection s0 (parseToolCall (chat w n))))
                      (text (loopDetection s0 (parseToolCall (chat w n))))
                      (stepCount s0))
         /\ Forall (fun u => u_type u = "thinking" \/ u = taskAborted)
              (before ++ sent o'))).
  { intros s0 before Hbefore. wp_run.
    all: split; [reflexivity|]; split; [by destruct (10 <? _)%nat|];
      apply Forall_app; split; [exact Hbefore|];
      repeat (constructor; [first [by left | by right]|]); constructor. }
  assert (Hthinking : forall rest,
    Forall (fun u => u_type u = "thinking" \/ u = taskAborted) rest ->
    Forall (fun u => u_type u = "thinking" \/ u = taskAborted)
      (mkUpdate "thinking" "🤔 Thinking about next action..." :: rest)).
  { intros rest Hr. constructor; [by left | exact Hr]. }
  destruct (stopWhileThinking w n).
  - unfold when, wp at 1. rewrite handleAgentStop_spec.
    destruct (isRunning a); wp_simpl.
    + exact (Hrest (mkAgent false None 0 (maxSteps a) (conversationHistory a)
                      (tabId a) None [] 0)
               [mkUpdate "thinking" "🤔 Thinking about next action...";
                taskAborted]
               (Hthinking _ (Forall_cons_2 _ _ _ (or_intror eq_refl)
                               (Forall_nil_2 _)))).
    + exact (Hrest a [mkUpdate "thinking" "🤔 Thinking about next action..."]
               (Hthinking _ (Forall_nil_2 _))).
  - unfold when. wp_step.
    exact (Hrest a [mkUpdate "thinking" "🤔 Thinking about next action..."]
             (Hthinking _ (Forall_nil_2 _))).
Qed.

(** C5.  When the response carries no [browser_action] tool call, the
    decision [think] works with is the fallback: [extract_text] on
    [body], with its fixed reasoning.  [think] then completes normally:
    it returns the fallback itself unless the loop guard finds it
    repeated, which is exactly when the last recorded action, or one of
    the last two entries of the history, is [extract_text] on [body];
    in that case it returns the guard's [finish] decision.  The decision
    returned is recorded as the last action, and nothing is sent but the
    two [thinking] updates (and [task_aborted] if the user stopped the
    task meanwhile): the missing tool call raises no error. *)
Theorem think_falls_back (w : World) (n : nat) (a : AIAgent) :
  chat_success (chat w n) = true ->
  (forall tc,
     tool_call (chat w n) = Some tc -> name tc <> "browser_action") ->
  let s := if stopWhileThinking w n then agent (handleAgentStop a) else a in
  let repeated :=
    (exists r, lastAction s = Some r
               /\ rec_action r = "extract_text"
               /\ rec_target r = Some "body")
    \/ (exists r, r ∈ slice_last 2 (actionHistory s)
                  /\ rec_action r = "extract_text"
                  /\ rec_target r = Some "body") in
  parseToolCall (chat w n) = fallbackCall
  /\ fallbackCall
     = mkCall "extract_text" (Some "body") None
         (Some "No tool call received, extracting page content to understand current state")
         None
  /\ action fallbackCall = "extract_text"
  /\ target fallbackCall = Some "body"
  /\ (~ repeated -> completion (think w n a) = Normal fallbackCall)
  /\ (repeated ->
      completion (think w n a)
      = Normal (mkCall "finish" None None
                  (Some "Preventing loop by finishing task")
                  (Some "Task appears complete based on previous actions")))
  /\ (exists decision,
        completion (think w n a) = Normal decision
        /\ decision = loopDetection s fallbackCall
        /\ (action decision = "extract_text" \/ action decision = "finish")
        /\ lastAction (agent (think w n a))
           = Some (mkRecord (action decision) (target decision)
                     (text decision) (stepCount s))
        /\ Forall (fun u => u_type u = "thinking" \/ u = taskAborted)
             (sent (think w n a))).
Proof.
  intros Hok Hno. cbv zeta.
  pose proof (parseToolCall_fallback (chat w n) Hno) as Hparse.
  destruct (think_decides w n a Hok) as (Hc & Hlast & Hsent).
  rewrite Hparse in Hc, Hlast.
  set (s := if stopWhileThinking w n then agent (handleAgentStop a) else a)
    in *.
  pose proof (isRepeatingAction_spec s fallbackCall) as Hspec.
  cbn [action target fallbackCall] in Hspec.
  split; [exact Hparse|]. split; [reflexivity|].
  split; [reflexivity|]. split; [reflexivity|].
  split; [|split].
  - intros Hnot. rewrite Hc. unfold loopDetection.
    destruct (isRepeatingAction s fallbackCall); [|reflexivity].
    destruct Hnot. by apply Hspec.
  - intros Hrep. rewrite Hc. unfold loopDetection.
    apply Hspec in Hrep. by rewrite Hrep.
  - exists (loopDetection s fallbackCall).
    split; [exact Hc|]. split; [reflexivity|].
    split; [|split; [exact Hlast | exact Hsent]].
    unfold loopDetection.
    destruct (isRepeatingAction s fallbackCall); [by right | by left].
Qed.

(** A world whose planner answers in prose at every step. *)
Definition prose : World :=
  mkWorld (fun _ => mkChatResponse true None None) (fun _ => None)
    (fun _ => Resolved (Some extracted))
    (fun _ => false) (fun _ => false) (fun _ => false).

(** An agent that has just read the whole page. *)
Definition readBody : AIAgent :=
  mkAgent true (Some "Read the page") 1 10 [] (Some 7)
    (Some (mkRecord "extract_text" (Some "body") None 1))
    [mkRecord "extract_text" (Some "body") None 1] 0.

Lemma think_falls_back_witness :
  completion (think prose 1 clicked) = Normal fallbackCall
  /\ action (mkCall "finish" None None
               (Some "Preventing loop by finishing task")
               (Some "Task appears complete based on previous actions"))
     = "finish"
  /\ completion (think prose 2 readBody)
     = Normal (mkCall "finish" None None
                 (Some "Preventing loop by finishing task")
                 (Some "Task appears complete based on previous actions")).
Proof.
  split; [|split; [reflexivity|]].
  - destruct (think_falls_back prose 1 clicked)
      as (_ & _ & _ & _ & Hfresh & _).
    + reflexivity.
    + intros tc Htc. discriminate Htc.
    + apply Hfresh. simpl.
      intros [(r & [= <-] & Hr & _)|(r & Hin & Hr & _)].
      * discriminate Hr.
      * apply elem_of_cons in Hin as [->|Hin];
          [discriminate Hr | by apply elem_of_nil in Hin].
  - destruct (think_falls_back prose 2 readBody)
      as (_ & _ & _ & _ & _ & Hrep & _).
    + reflexivity.
    + intros tc Htc. discriminate Htc.
    + apply Hrep. simpl. left. eexists. split; [reflexivity|]. by split.
Defined.

(** *** What the methods leave alone

    [Respects R P m]: running [m] relates the agent before to the agent
    after by [R], and sends only updates that satisfy [P]. *)

Definition Respects {A : Type} (R : relation AIAgent) (P : Update -> Prop)
  (m : M A) : Prop :=
  forall a, R a (agent (m a)) /\ Forall P (sent (m a)).

Section Respects.

Context (R : relation AIAgent) `{!Reflexive R} `{!Transitive R}.
Context (P : Update -> Prop).

Lemma respects_ret {A : Type} (x : A) : Respects R P (ret x).
Proof. intros a. split; [reflexivity | constructor]. Qed.

Lemma respects_throw {A : Type} (e : string) : Respects R P (@throw A e).
Proof. intros a. split; [reflexivity | constructor]. Qed.

Lemma respects_gets {A : Type} (f : AIAgent -> A) : Respects R P (gets f).
Proof. intros a. split; [reflexivity | constructor]. Qed.

Lemma respects_modify (f : AIAgent -> AIAgent) :
  (forall a, R a (f a)) -> Respects R P (modify f).
Proof. intros Hf a. split; [apply Hf | constructor]. Qed.

Lemma respects_sendUpdate (u : Update) : P u -> Respects R P (sendUpdate u).
Proof. intros Hu a. split; [reflexivity | by repeat constructor]. Qed.

Lemma respects_bind {A B : Type} (m : M A) (k : A -> M B) :
  Respects R P m -> (forall x, Respects R P (k x)) ->
  Respects R P (bind m k).
Proof.
  intros Hm Hk a. unfold bind, and_then.
  destruct (Hm a) as [Hr Hs].
  destruct (completion (m a)) as [x|e]; simpl; [|done].
  destruct (Hk x (agent (m a))) as [Hr' Hs'].
  split; [by etrans | by apply Forall_app].
Qed.

Lemma respects_try_catch {A : Type} (m : M A) (h : string -> M A) :
  Respects R P m -> (forall e, Respects R P (h e)) ->
  Respects R P (try_catch m h).
Proof.
  intros Hm Hh a. unfold try_catch, or_catch.
  destruct (Hm a) as [Hr Hs].
  destruct (completion (m a)) as [x|e]; simpl; [done|].
  destruct (Hh e (agent (m a))) as [Hr' Hs'].
  split; [by etrans | by apply Forall_app].
Qed.

Lemma respects_when (b : bool) (m : M unit) :
  Respects R P m -> Respects R P (when b m).
Proof. destruct b; [done | intros _; apply respects_ret]. Qed.

End Respects.

(** Break a goal [Respects R P m] down along the structure of [m];
    [leaf] closes what remains at the assignments and updates. *)
Ltac respects_with leaf :=
  repeat first
    [ apply respects_bind; [apply _ | | intros ?]
    | apply respects_try_catch; [apply _ | | intros ?]
    | apply respects_ret; apply _
    | apply respects_throw; apply _
    | apply respects_gets; apply _
    | apply respects_when; [apply _ |]
    | apply respects_modify; intros ?; leaf
    | apply respects_sendUpdate; [apply _ | leaf]
    | match goal with
      | |- Respects _ _ (pushMessage _) => unfold pushMessage
      | |- Respects _ _ (match ?x with _ => _ end) => destruct x
      | |- Respects _ _ (let _ := _ in _) => cbv zeta
      | H : Respects ?R ?P ?m |- Respects ?R ?P ?m => exact H
      end ].

(** The fields that steer the loop. *)
Definition sameControl (a a' : AIAgent) : Prop :=
  isRunning a' = isRunning a /\ stepCount a' = stepCount a
  /\ maxSteps a' = maxSteps a /\ currentTask a' = currentTask a.

#[local] Instance sameControl_refl : Reflexive sameControl.
Proof. by intros a. Qed.

#[local] Instance sameControl_trans : Transitive sameControl.
Proof.
  intros a b c (? & ? & ? & ?) (? & ? & ? & ?).
  repeat split; congruence.
Qed.

Definition notAborted (u : Update) : Prop := u_type u <> "task_aborted".

(** [Quiet m]: [m] leaves the control fields alone and does not send
    [task_aborted]. *)
Definition Quiet {A : Type} (m : M A) : Prop :=
  Respects sameControl notAborted m.

Ltac quiet :=
  unfold Quiet;
  respects_with
    ltac:(first [ by repeat split | discriminate
                | by case_match; repeat split ]).

Lemma recordAction_quiet fc : Quiet (recordAction fc).
Proof. unfold recordAction. quiet. Qed.

Lemma observe_quiet r : Quiet (observe r).
Proof.
  unfold observe, lastActionIsSubmitClick, getNextActionSuggestion. quiet.
Qed.

Lemma catchBlock_quiet e : Quiet (catchBlock e).
Proof. unfold catchBlock. quiet. Qed.

Lemma think_quiet w n : stopWhileThinking w n = false -> Quiet (think w n).
Proof.
  intros Hno. unfold think. rewrite Hno.
  pose proof recordAction_quiet. quiet.
Qed.

Lemma act_quiet w n fc : stopWhileActing w n = false -> Quiet (act w n fc).
Proof. intros Hno. unfold act. rewrite Hno. quiet. Qed.

Lemma pause_quiet w n : stopWhileSleeping w n = false -> Quiet (pause w n).
Proof. intros Hno. unfold pause. rewrite Hno. quiet. Qed.

(** *** Stopping

    The agent after [stopTask]: not running, no task, step counter 0. *)
Definition stopped (a : AIAgent) : Prop :=
  isRunning a = false /\ stepCount a = 0 /\ currentTask a = None.

(** From [a], sending [sent], to [a']: either the control fields are
    untouched and no [task_aborted] was sent, or the task was stopped
    and [task_aborted] was sent. *)
Definition Transition (a : AIAgent) (sent : list Update) (a' : AIAgent)
  : Prop :=
  maxSteps a' = maxSteps a
  /\ ((sameControl a a' /\ Forall notAborted sent)
      \/ (stopped a' /\ taskAborted ∈ sent)).

Lemma transition_refl a : Transition a [] a.
Proof. split; [done|]. left. split; [done | constructor]. Qed.

Lemma transition_trans a s1 b s2 c :
  Transition a s1 b -> Transition b s2 c -> Transition a (s1 ++ s2) c.
Proof.
  intros [Hm1 H1] [Hm2 H2]. split; [congruence|].
  destruct H2 as [[Hc2 Hs2]|[Hst2 Hin2]].
  - destruct H1 as [[Hc1 Hs1]|[Hst1 Hin1]].
    + left. split; [by etrans | by apply Forall_app].
    + right. destruct Hc2 as (Hr & Hn & _ & Ht).
      destruct Hst1 as (Hr1 & Hn1 & Ht1).
      split; [repeat split; congruence | apply elem_of_app; by left].
  - right. split; [done | apply elem_of_app; by right].
Qed.

Definition MayStop {A : Type} (m : M A) : Prop :=
  forall a, Transition a (sent (m a)) (agent (m a)).

Lemma quiet_may_stop {A : Type} (m : M A) : Quiet m -> MayStop m.
Proof.
  intros Hq a. destruct (Hq a) as [Hc Hs].
  split; [apply Hc | by left].
Qed.

Lemma may_stop_bind {A B : Type} (m : M A) (k : A -> M B) :
  MayStop m -> (forall x, MayStop (k x)) -> MayStop (bind m k).
Proof.
  intros Hm Hk a. unfold bind, and_then. specialize (Hm a).
  destruct (completion (m a)) as [x|e]; simpl; [|done].
  eapply transition_trans; [exact Hm | apply Hk].
Qed.

Lemma may_stop_try_catch {A : Type} (m : M A) (h : string -> M A) :
  MayStop m -> (forall e, MayStop (h e)) -> MayStop (try_catch m h).
Proof.
  intros Hm Hh a. unfold try_catch, or_catch. specialize (Hm a).
  destruct (completion (m a)) as [x|e]; simpl; [done|].
  eapply transition_trans; [exact Hm | apply Hh].
Qed.

Lemma stopTask_spec a :
  stopTask a
  = mkOutcome (Normal tt)
      (mkAgent false None 0 (maxSteps a) (conversationHistory a) (tabId a)
         None [] 0)
      [taskAborted].
Proof. by destruct a. Qed.

Lemma stopTask_may_stop : MayStop stopTask.
Proof.
  intros a. rewrite stopTask_spec. split; [done|]. right.
  split; [done | set_solver].
Qed.

Lemma handleAgentStop_may_stop : MayStop handleAgentStop.
Proof.
  intros a. unfold handleAgentStop, bind, and_then, gets, when. simpl.
  destruct (isRunning a); simpl.
  - apply (transition_trans a [] a); [apply transition_refl|].
    apply stopTask_may_stop.
  - apply transition_refl.
Qed.

(** Break a goal [MayStop m] down along the structure of [m]. *)
Ltac may_stop :=
  repeat first
    [ apply stopTask_may_stop
    | apply handleAgentStop_may_stop
    | match goal with
      | |- MayStop (when ?b _) => destruct b; unfold when; cbv beta iota
      | |- MayStop (match ?x with _ => _ end) => destruct x
      | |- MayStop (let _ := _ in _) => cbv zeta
      | |- MayStop (pause _ _) => unfold pause
      | |- MayStop (bind _ _) => apply may_stop_bind; [|intros ?]
      | |- MayStop (try_catch _ _) => apply may_stop_try_catch; [|intros ?]
      end
    | apply quiet_may_stop; first [ apply observe_quiet
                                  | apply recordAction_quiet
                                  | apply catchBlock_quiet
                                  | quiet ] ].

Lemma think_may_stop w n : MayStop (think w n).
Proof. unfold think. may_stop. Qed.

Lemma act_may_stop w n fc : MayStop (act w n fc).
Proof. unfold act. may_stop. Qed.

Lemma tryBlock_may_stop w n : MayStop (tryBlock w n).
Proof.
  unfold tryBlock.
  apply may_stop_bind; [apply think_may_stop | intros thinking].
  apply may_stop_bind; [apply quiet_may_stop; quiet | intros running].
  destruct (negb running); [apply quiet_may_stop; quiet|].
  destruct (String.eqb _ _); [may_stop|].
  apply may_stop_bind; [apply act_may_stop | intros actionResult].
  may_stop.
Qed.

(** The body of the loop: the step counter goes up, then the [try]
    block runs under its [catch] block. *)
Lemma loopBody_unfold w a :
  let o := try_catch (tryBlock w (S (stepCount a))) catchBlock
             (set_stepCount (S (stepCount a)) a) in
  loopBody w a = mkOutcome (completion o) (agent o) (sent o).
Proof. reflexivity. Qed.

Lemma loopBody_may_stop w a :
  Transition (set_stepCount (S (stepCount a)) a)
    (sent (loopBody w a)) (agent (loopBody w a)).
Proof.
  rewrite loopBody_unfold. cbn [sent agent].
  apply may_stop_try_catch; [apply tryBlock_may_stop | intros e].
  apply quiet_may_stop, catchBlock_quiet.
Qed.

(** *** The loop *)

Ltac wp_skip := apply wp_any; intros [?|?] ? ?; wp_simpl.

(** The [try] block only breaks out of the loop once the agent has
    stopped running. *)
Lemma tryBlock_break w n a :
  completion (tryBlock w n a) = Normal Break ->
  isRunning (agent (tryBlock w n a)) = false.
Proof.
  change (wp (tryBlock w n) a (fun o =>
    completion o = Normal Break -> isRunning (agent o) = false)).
  unfold tryBlock, pause.
  repeat first
    [ wp_step
    | match goal with
      | |- wp (think _ _) _ _ => wp_skip
      | |- wp (act _ _ _) _ _ => wp_skip
      | |- wp (observe _) _ _ => wp_skip
      end ];
    try discriminate; try reflexivity; intros _; by apply negb_true_iff.
Qed.

(** The body of the loop never throws. *)
Lemma loopBody_flow w a :
  exists flow,
    completion (loopBody w a) = Normal flow
    /\ (flow = Break -> isRunning (agent (loopBody w a)) = false).
Proof.
  rewrite loopBody_unfold. cbn [completion agent].
  unfold try_catch, or_catch.
  destruct (completion (tryBlock w (S (stepCount a)) _)) as [flow|e] eqn:Hc.
  - exists flow. split; [exact Hc|]. intros ->. by apply tryBlock_break.
  - exists Continue. split; [reflexivity | discriminate].
Qed.

Lemma whileLoop_not_running fuel w a :
  isRunning a = false ->
  whileLoop fuel w a = Some ([a], mkOutcome (Normal tt) a []).
Proof.
  intros Hr. destruct fuel; simpl; unfold loopCondition; by rewrite Hr.
Qed.

Lemma last_cons_some {A : Type} (x y : A) (l : list A) :
  last l = Some y -> last (x :: l) = Some y.
Proof. intros H. rewrite last_cons. by rewrite H. Qed.

(** The loop from a running agent: it terminates within the fuel that
    the step budget calls for; the step counter stays within the budget
    at every head; and the loop is left either still running, with the
    budget used up after one pass per step and no [task_aborted] sent,
    or stopped, with [task_aborted] sent. *)
Lemma whileLoop_running w fuel :
  forall a,
    isRunning a = true ->
    stepCount a <= maxSteps a ->
    maxSteps a - stepCount a <= fuel ->
    exists heads o,
      whileLoop fuel w a = Some (heads, o)
      /\ completion o = Normal tt
      /\ length heads <= S (maxSteps a - stepCount a)
      /\ Forall (fun h => stepCount h <= maxSteps a) heads
      /\ last heads = Some (agent o)
      /\ maxSteps (agent o) = maxSteps a
      /\ ((isRunning (agent o) = true
           /\ currentTask (agent o) = currentTask a
           /\ stepCount (agent o) = maxSteps a
           /\ Forall notAborted (sent o)
           /\ length heads = S (maxSteps a - stepCount a))
          \/ (stepCount a < maxSteps a
              /\ stopped (agent o) /\ taskAborted ∈ sent o)).
Proof.
  induction fuel as [|fuel IH]; intros a Hrun Hle Hfuel.
  - assert (Hcond : loopCondition a = false).
    { unfold loopCondition. rewrite Hrun. simpl. apply Nat.ltb_ge. lia. }
    simpl. rewrite Hcond.
    exists [a], (mkOutcome (Normal tt) a []). simpl.
    split; [reflexivity|]. split; [reflexivity|]. split; [lia|].
    split; [by repeat constructor|]. split; [reflexivity|].
    split; [reflexivity|].
    left. split; [exact Hrun|]. split; [reflexivity|]. split; [lia|].
    split; [constructor | lia].
  - cbn [whileLoop]. cbv zeta. destruct (loopCondition a) eqn:Hcond.
    2:{ unfold loopCondition in Hcond. rewrite Hrun in Hcond.
        simpl in Hcond. apply Nat.ltb_ge in Hcond.
        exists [a], (mkOutcome (Normal tt) a []). simpl.
        split; [reflexivity|]. split; [reflexivity|]. split; [lia|].
        split; [by repeat constructor|]. split; [reflexivity|].
        split; [reflexivity|].
        left. split; [exact Hrun|]. split; [reflexivity|]. split; [lia|].
        split; [constructor | lia]. }
    unfold loopCondition in Hcond. rewrite Hrun in Hcond.
    simpl in Hcond. apply Nat.ltb_lt in Hcond.
    destruct (loopBody_flow w a) as (flow & Hflow & Hbreak).
    destruct (loopBody_may_stop w a) as [Hmax Htrans].
    cbn [maxSteps set_stepCount] in Hmax.
    rewrite Hflow.
    assert (Hstop : isRunning (agent (loopBody w a)) = false ->
                    stopped (agent (loopBody w a))
                    /\ taskAborted ∈ sent (loopBody w a)).
    { intros Hnot. destruct Htrans as [[(Hr & _) _]|Hst]; [|exact Hst].
      cbn [isRunning set_stepCount] in Hr. congruence. }
    destruct flow.
    + (* the pass ends normally: the condition is evaluated again *)
      destruct (isRunning (agent (loopBody w a))) eqn:Hrun'.
      * destruct Htrans as [[(_ & Hn & _ & Ht) Hquiet]|[(Hr & _) _]];
          [|congruence].
        cbn [stepCount currentTask set_stepCount] in Hn, Ht.
        destruct (IH (agent (loopBody w a)))
          as (heads & o & Hloop & Hc & Hlen & Hheads & Hlast & Hm & Hexit);
          [done | lia | lia |].
        rewrite Hmax, Hn in *.
        rewrite Hloop.
        eexists (a :: heads), _. split; [reflexivity|].
        cbn [completion agent sent].
        split; [exact Hc|]. split; [simpl; lia|].
        split; [constructor; [lia | exact Hheads]|].
        split; [by apply last_cons_some|].
        split; [congruence|].
        destruct Hexit as [(Hr & Hct & Hsc & Hq & Hl)|(Hlt & Hst & Hin)].
        -- left. split; [exact Hr|]. split; [congruence|].
           split; [congruence|]. split; [by apply Forall_app|].
           simpl. lia.
        -- right. split; [lia|]. split; [exact Hst|].
           apply elem_of_app. by right.
      * destruct (Hstop eq_refl) as [Hst Hin].
        rewrite whileLoop_not_running by exact Hrun'.
        eexists [a; agent (loopBody w a)], _. split; [reflexivity|].
        cbn [completion agent sent]. rewrite app_nil_r.
        destruct Hst as (Hr & Hn & Ht).
        split; [reflexivity|]. split; [simpl; lia|].
        split; [repeat constructor; lia|].
        split; [reflexivity|]. split; [exact Hmax|].
        right. done.
    + (* the pass ends with [break] *)
      destruct (Hstop (Hbreak eq_refl)) as [Hst Hin].
      eexists [a; agent (loopBody w a)], _. split; [reflexivity|].
      cbn [completion agent sent].
      destruct Hst as (Hr & Hn & Ht).
      split; [reflexivity|]. split; [simpl; lia|].
      split; [repeat constructor; lia|].
      split; [reflexivity|]. split; [exact Hmax|].
      right. done.
Qed.

Lemma afterLoop_spec a :
  afterLoop a
  = if (maxSteps a <=? stepCount a)%nat
    then mkOutcome (Normal tt) (agent (stopTask a))
           [maximumSteps; taskAborted]
    else mkOutcome (Normal tt) a [].
Proof.
  unfold afterLoop, bind, and_then, gets, when. simpl.
  destruct (maxSteps a <=? stepCount a)%nat; reflexivity.
Qed.

Lemma enterTask_spec prompt tab a :
  enterTask prompt tab a
  = mkOutcome (Normal tt)
      (mkAgent true (Some prompt) 0 (maxSteps a)
         [mkMessage "system" getSystemPrompt; mkMessage "user" prompt]
         (Some tab) None [] 0)
      [taskStarted prompt].
Proof. reflexivity. Qed.

(** Every run of [startTask]: it terminates within the fuel that the step
    budget calls for, never throws, keeps the step counter within the
    budget, and ends stopped with [task_aborted] sent.  When the loop is
    left with the agent still running, one pass was made per step of the
    budget, and the run ends with the maximum-steps update followed by
    [stopTask]. *)
Lemma startTask_run w prompt tab a fuel :
  maxSteps a <= fuel ->
  exists heads o loopEnd,
    startTask fuel w prompt tab a = Some (heads, o)
    /\ completion o = Normal tt
    /\ length heads <= S (maxSteps a)
    /\ Forall (fun h => stepCount h <= maxSteps a) heads
    /\ last heads = Some loopEnd
    /\ stopped (agent o)
    /\ maxSteps (agent o) = maxSteps a
    /\ taskAborted ∈ sent o
    /\ (isRunning loopEnd = true ->
        length heads = S (maxSteps a)
        /\ stepCount loopEnd = maxSteps a
        /\ agent o = agent (stopTask loopEnd)
        /\ exists before,
             sent o = before ++ [maximumSteps; taskAborted]
             /\ Forall notAborted before).
Proof.
  intros Hfuel. unfold startTask, agentLoop. cbv zeta.
  rewrite enterTask_spec. cbn [agent sent].
  set (a0 := mkAgent true (Some prompt) 0 (maxSteps a) _ (Some tab) None [] 0).
  destruct (whileLoop_running w fuel a0)
    as (heads & o & Hloop & Hc & Hlen & Hheads & Hlast & Hm & Hexit);
    [reflexivity | simpl; lia | simpl; lia |].
  cbn [maxSteps stepCount currentTask a0] in Hlen, Hheads, Hm, Hexit.
  rewrite Nat.sub_0_r in Hlen, Hexit.
  rewrite Hloop. unfold and_then. rewrite Hc, afterLoop_spec.
  destruct Hexit as [(Hr & Hct & Hsc & Hq & Hl)|(Hlt & Hst & Hin)].
  - (* the budget is used up *)
    rewrite Hm, Hsc, Nat.leb_refl. unfold or_catch. cbn [completion agent sent].
    eexists heads, _, (agent o). split; [reflexivity|].
    cbn [completion agent sent].
    split; [reflexivity|]. split; [exact Hlen|]. split; [exact Hheads|].
    split; [exact Hlast|]. split; [done|]. split; [exact Hm|].
    split; [set_solver|].
    intros _. split; [exact Hl|]. split; [exact Hsc|].
    split; [reflexivity|].
    exists (taskStarted prompt :: sent o). split; [reflexivity|].
    constructor; [discriminate | exact Hq].
  - (* the task was stopped inside the loop *)
    destruct Hst as (Hr & Hn & Ht).
    rewrite Hm, Hn.
    assert (Hpos : (maxSteps a <=? 0)%nat = false)
      by (apply Nat.leb_gt; lia).
    rewrite Hpos. unfold or_catch. cbn [completion agent sent].
    eexists heads, _, (agent o). split; [reflexivity|].
    cbn [completion agent sent]. rewrite app_nil_r.
    split; [reflexivity|]. split; [exact Hlen|]. split; [exact Hheads|].
    split; [exact Hlast|]. split; [done|]. split; [exact Hm|].
    split; [set_solver|].
    intros Hrun. congruence.
Qed.


(** No [AGENT_STOP] arrives while the task runs. *)
Definition undisturbed (w : World) : Prop :=
  forall n,
    stopWhileThinking w n = false /\ stopWhileActing w n = false
    /\ stopWhileSleeping w n = false.

Lemma wp_quiet_rule {A : Type} (m : M A) a (Q : Outcome A -> Prop) :
  Quiet m ->
  (forall c a' s,
     sameControl a a' -> Forall notAborted s -> Q (mkOutcome c a' s)) ->
  wp m a Q.
Proof.
  intros Hq H. unfold wp. destruct (Hq a) as [Hc Hs].
  destruct (m a). by apply H.
Qed.

Ltac wp_quiet H :=
  apply wp_quiet_rule; [apply H | intros [?|?] ? ? ? ?; wp_simpl].

Lemma tryBlock_undisturbed w n a :
  stopWhileThinking w n = false ->
  stopWhileActing w n = false ->
  stopWhileSleeping w n = false ->
  isRunning a = true ->
  let o := tryBlock w n a in
  (completion o <> Normal Break
   /\ sameControl a (agent o) /\ Forall notAborted (sent o))
  \/ (completion o = Normal Break
      /\ exists before fc a1,
           sent o = before ++ [taskCompleted fc; taskAborted]
           /\ Forall notAborted before
           /\ agent o = agent (stopTask a1)).
Proof.
  intros Hthink Hact Hsleep Hrun. cbv zeta.
  change (wp (tryBlock w n) a (fun o =>
    (completion o <> Normal Break
     /\ sameControl a (agent o) /\ Forall notAborted (sent o))
    \/ (completion o = Normal Break
        /\ exists before fc a1,
             sent o = before ++ [taskCompleted fc; taskAborted]
             /\ Forall notAborted before
             /\ agent o = agent (stopTask a1)))).
  unfold tryBlock.
  repeat first
    [ wp_step
    | match goal with
      | |- wp (think _ _) _ _ => wp_quiet (think_quiet w n Hthink)
      | |- wp (act _ _ ?fc) _ _ => wp_quiet (act_quiet w n fc Hact)
      | |- wp (observe _) _ _ => wp_quiet observe_quiet
      | |- wp (pause _ _) _ _ => wp_quiet (pause_quiet w n Hsleep)
      end ].
  all: unfold sameControl in *;
    repeat match goal with H : _ /\ _ |- _ => destruct H end;
    try match goal with
        | H : negb (isRunning ?x) = true |- _ =>
            apply negb_true_iff in H; congruence
        end.
  all: first
    [ right; split; [reflexivity|]; eexists _, _, _;
      split; [simpl; by rewrite ?app_nil_r|];
      split; [eassumption | reflexivity]
    | left; split; [discriminate|];
      split; [repeat split; congruence|];
      rewrite ?Forall_app; repeat split; auto; constructor ].
Qed.

Lemma loopBody_undisturbed w a :
  stopWhileThinking w (S (stepCount a)) = false ->
  stopWhileActing w (S (stepCount a)) = false ->
  stopWhileSleeping w (S (stepCount a)) = false ->
  isRunning a = true ->
  let o := loopBody w a in
  (completion o = Normal Continue
   /\ isRunning (agent o) = true
   /\ stepCount (agent o) = S (stepCount a)
   /\ maxSteps (agent o) = maxSteps a
   /\ Forall notAborted (sent o))
  \/ (completion o = Normal Break
      /\ exists before fc a1,
           sent o = before ++ [taskCompleted fc; taskAborted]
           /\ Forall notAborted before
           /\ agent o = agent (stopTask a1)).
Proof.
  intros Hthink Hact Hsleep Hrun. cbv zeta.
  rewrite loopBody_unfold. cbn [completion agent sent].
  destruct (tryBlock_undisturbed w (S (stepCount a))
              (set_stepCount (S (stepCount a)) a) Hthink Hact Hsleep Hrun)
    as [(Hflow & (Hr & Hn & Hm & _) & Hq)|(Hflow & Hfinish)].
  - left. unfold try_catch, or_catch.
    cbn [isRunning stepCount maxSteps set_stepCount] in Hr, Hn, Hm.
    destruct (completion (tryBlock w _ _)) as [[|]|e] eqn:Hc; try done.
    + split; [exact Hc|]. split; [congruence|]. split; [congruence|].
      split; [congruence | exact Hq].
    + cbn [completion agent sent].
      destruct (catchBlock_quiet e (agent (tryBlock w (S (stepCount a))
                  (set_stepCount (S (stepCount a)) a))))
        as [(Hr' & Hn' & Hm' & _) Hq'].
      split; [reflexivity|]. split; [congruence|]. split; [congruence|].
      split; [congruence|]. by apply Forall_app.
  - right. unfold try_catch, or_catch. rewrite Hflow. done.
Qed.

(** Without stop requests the loop is left still running, or right after
    a [finish] decision. *)
Lemma whileLoop_undisturbed w fuel :
  undisturbed w ->
  forall a heads o,
    isRunning a = true ->
    whileLoop fuel w a = Some (heads, o) ->
    isRunning (agent o) = true
    \/ (exists before fc a1,
          sent o = before ++ [taskCompleted fc; taskAborted]
          /\ Forall notAborted before
          /\ agent o = agent (stopTask a1)).
Proof.
  intros Hw.
  induction fuel as [|fuel IH]; intros a heads o Hrun; cbn [whileLoop];
    cbv zeta; destruct (loopCondition a); try discriminate;
    try (intros [= <- <-]; by left).
  destruct (Hw (S (stepCount a))) as (Hthink & Hact & Hsleep).
  destruct (loopBody_undisturbed w a Hthink Hact Hsleep Hrun)
    as [(Hflow & Hr & _ & _ & Hq)|(Hflow & Hfinish)]; rewrite Hflow.
  - destruct (whileLoop fuel w (agent (loopBody w a)))
      as [[heads' o']|] eqn:Hloop; [|discriminate].
    intros [= <- <-]. cbn [agent sent].
    destruct (IH _ _ _ Hr Hloop)
      as [Hr'|(before & fc & a1 & Hs & Hb & Ha)]; [by left|].
    right. exists (sent (loopBody w a) ++ before), fc, a1.
    rewrite Hs, app_assoc. split; [reflexivity|].
    split; [by apply Forall_app | exact Ha].
  - intros [= <- <-]. by right.
Qed.

Lemma startTask_undisturbed w prompt tab a fuel :
  undisturbed w ->
  maxSteps a <= fuel ->
  exists heads o,
    startTask fuel w prompt tab a = Some (heads, o)
    /\ exists before final a1,
         sent o = before ++ [final; taskAborted]
         /\ Forall notAborted before
         /\ (final = maximumSteps \/ exists fc, final = taskCompleted fc)
         /\ agent o = agent (stopTask a1).
Proof.
  intros Hw Hfuel.
  destruct (startTask_run w prompt tab a fuel Hfuel)
    as (heads & o & loopEnd & Hstart & _ & _ & _ & Hlast & _ & _ & _ & Hend).
  exists heads, o. split; [exact Hstart|].
  destruct (isRunning loopEnd) eqn:Hrun.
  { destruct (Hend eq_refl) as (_ & _ & Ha & before & Hs & Hb).
    exists before, maximumSteps, loopEnd. auto. }
  clear Hend. revert Hstart. unfold startTask, agentLoop. cbv zeta.
  rewrite enterTask_spec. cbn [agent sent].
  set (a0 := mkAgent true (Some prompt) 0 (maxSteps a) _ (Some tab) None [] 0).
  destruct (whileLoop_running w fuel a0)
    as (heads' & o' & Hloop & Hc & _ & _ & Hlast' & Hm & Hexit);
    [reflexivity | simpl; lia | simpl; lia |].
  rewrite Hloop. intros [= <- <-].
  assert (Hsame : agent o' = loopEnd) by congruence.
  destruct (whileLoop_undisturbed w fuel Hw a0 _ _ eq_refl Hloop)
    as [Hr|(before & fc & a1 & Hs & Hb & Ha)]; [congruence|].
  destruct Hexit as [(Hr & _)|(Hlt & (_ & Hn & _) & _)]; [congruence|].
  cbn [stepCount maxSteps a0] in Hlt, Hm.
  unfold and_then. rewrite Hc, afterLoop_spec, Hm, Hn.
  assert (Hpos : (maxSteps a <=? 0)%nat = false)
    by (apply Nat.leb_gt; lia).
  rewrite Hpos. unfold or_catch. cbn [completion agent sent].
  exists (taskStarted prompt :: before), (taskCompleted fc), a1.
  rewrite app_nil_r, Hs. split; [reflexivity|].
  split; [constructor; [discriminate | exact Hb]|].
  split; [right; by exists fc | exact Ha].
Qed.


(** C1.  Whatever the goal, the planner, the page and the user do, a task
    started on an agent whose budget is [maxSteps] makes at most
    [maxSteps] passes through the loop (10 for an agent as constructed),
    its step counter never exceeds [maxSteps], and it ends with the agent
    no longer running.  When the loop is left with the agent still
    running, so with no [finish] decision and no stop request before the
    budget ran out, exactly [maxSteps] passes were made and the run ends
    with the maximum-steps update followed by [task_aborted]; and when
    no stop request arrives at all, the last update before
    [task_aborted] is either that of a [finish] decision or the
    maximum-steps one. *)
Theorem startTask_terminates (w : World) (prompt : string) (tab : nat)
  (a : AIAgent) (fuel : nat) :
  maxSteps a <= fuel ->
  exists heads o,
    startTask fuel w prompt tab a = Some (heads, o)
    /\ completion o = Normal tt
    /\ length heads - 1 <= maxSteps a
    /\ Forall (fun h => stepCount h <= maxSteps a) heads
    /\ isRunning (agent o) = false
    /\ (forall loopEnd,
          last heads = Some loopEnd -> isRunning loopEnd = true ->
          length heads - 1 = maxSteps a
          /\ exists before,
               sent o = before ++ [maximumSteps; taskAborted])
    /\ (undisturbed w ->
        exists before final,
          sent o = before ++ [final; taskAborted]
          /\ (final = maximumSteps \/ exists fc, final = taskCompleted fc))
    /\ maxSteps new = 10.
Proof.
  intros Hfuel.
  destruct (startTask_run w prompt tab a fuel Hfuel)
    as (heads & o & loopEnd & Hstart & Hc & Hlen & Hheads & Hlast
        & (Hr & _) & _ & _ & Hend).
  exists heads, o. split; [exact Hstart|]. split; [exact Hc|].
  split; [lia|]. split; [exact Hheads|]. split; [exact Hr|].
  split; [|split; [|reflexivity]].
  - intros loopEnd' Hlast' Hrun.
    assert (loopEnd' = loopEnd) as -> by congruence.
    destruct (Hend Hrun) as (Hl & _ & _ & before & Hs & _).
    split; [lia|]. by exists before.
  - intros Hw.
    destruct (startTask_undisturbed w prompt tab a fuel Hw Hfuel)
      as (heads' & o' & Hstart' & before & final & a1 & Hs & _ & Hf & _).
    assert (o' = o) as -> by congruence.
    by exists before, final.
Qed.

(** A planner that never finishes: at step [n] it types into field [n];
    every action succeeds. *)
Definition typing : World :=
  mkWorld
    (fun n =>
       mkChatResponse true None
         (Some (mkToolCall "browser_action"
                  (mkCall "type" (Some ("#field" +:+ pretty n))
                     (Some "shoes") (Some "fill the form") None))))
    (fun _ => None)
    (fun _ => Resolved (Some (mkResult true (Some "Typed") None None None)))
    (fun _ => false) (fun _ => false) (fun _ => false).

Example startTask_typing :
  match startTask 10 typing "Fill the form" 7 new with
  | Some (heads, o) =>
      map stepCount heads = [0; 1; 2; 3; 4; 5; 6; 7; 8; 9; 10]
      /\ drop 41 (sent o) = [maximumSteps; taskAborted]
      /\ isRunning (agent o) = false
  | None => False
  end.
Proof. vm_compute. auto. Qed.

Lemma startTask_terminates_witness :
  exists heads o,
    startTask 10 typing "Fill the form" 7 new = Some (heads, o)
    /\ length heads - 1 <= 10
    /\ isRunning (agent o) = false.
Proof.
  destruct (startTask_terminates typing "Fill the form" 7 new 10)
    as (heads & o & Hstart & _ & Hlen & _ & Hr & _).
  - simpl. lia.
  - exists heads, o. split; [exact Hstart|]. split; [exact Hlen | exact Hr].
Defined.


(** *** The types of the updates *)

(** The types the agent gives to its updates. *)
Definition sentType (u : Update) : Prop :=
  u_type u ∈ ["task_started"; "thinking"; "action"; "observation";
              "system"; "task_aborted"].

Definition anyAgent : relation AIAgent := fun _ _ => True.

#[local] Instance anyAgent_refl : Reflexive anyAgent.
Proof. by intros a. Qed.

#[local] Instance anyAgent_trans : Transitive anyAgent.
Proof. by intros a b c _ _. Qed.

(** [Typed m]: the updates [m] sends all have such a type. *)
Definition Typed {A : Type} (m : M A) : Prop :=
  Respects anyAgent sentType m.

Ltac typed :=
  unfold Typed;
  respects_with ltac:(first [ exact I | by repeat constructor ]).

Lemma stopTask_typed : Typed stopTask.
Proof. unfold stopTask. typed. Qed.

Lemma tryBlock_typed w n : Typed (tryBlock w n).
Proof.
  pose proof stopTask_typed as Hstop. unfold Typed in Hstop.
  unfold tryBlock, think, act, observe, pause, handleAgentStop,
    recordAction, lastActionIsSubmitClick, getNextActionSuggestion.
  typed.
Qed.

Lemma loopBody_typed w : Typed (loopBody w).
Proof.
  pose proof (tryBlock_typed w) as Htry. unfold Typed in Htry.
  unfold loopBody, catchBlock. typed.
Qed.

Lemma whileLoop_typed w fuel :
  forall a heads o,
    whileLoop fuel w a = Some (heads, o) -> Forall sentType (sent o).
Proof.
  induction fuel as [|fuel IH]; intros a heads o; cbn [whileLoop];
    cbv zeta; destruct (loopCondition a); try discriminate;
    try (intros [= <- <-]; constructor).
  destruct (loopBody_typed w a) as [_ Hbody].
  destruct (completion (loopBody w a)) as [[|]|e].
  - destruct (whileLoop fuel w _) as [[heads' o']|] eqn:Hloop;
      [|discriminate].
    intros [= <- <-]. cbn [sent]. apply Forall_app. split; [exact Hbody|].
    by eapply IH.
  - by intros [= <- <-].
  - by intros [= <- <-].
Qed.

(** No run of [startTask] sends an update of another type; in
    particular none is of type [task_completed] or [task_failed]. *)
Lemma startTask_typed w prompt tab a fuel heads o :
  startTask fuel w prompt tab a = Some (heads, o) ->
  Forall sentType (sent o)
  /\ Forall (fun u => u_type u <> "task_completed"
                      /\ u_type u <> "task_failed") (sent o).
Proof.
  intros Hstart.
  assert (Hsent : Forall sentType (sent o)).
  { revert Hstart. unfold startTask, agentLoop. cbv zeta.
    rewrite enterTask_spec. cbn [agent sent].
    destruct (whileLoop fuel w _) as [[heads' o']|] eqn:Hloop;
      [|discriminate].
    intros [= <- <-].
    pose proof (whileLoop_typed w fuel _ _ _ Hloop) as Hloop'.
    assert (Hafter : Typed afterLoop).
    { pose proof stopTask_typed as Hstop. unfold Typed in Hstop.
      unfold afterLoop. typed. }
    assert (Hfailed : forall e, Typed (taskFailed e)).
    { intros e. pose proof stopTask_typed as Hstop. unfold Typed in Hstop.
      unfold taskFailed. typed. }
    unfold or_catch, and_then.
    destruct (completion o') as [[]|e]; cbn [completion agent sent].
    - destruct (Hafter (agent o')) as [_ Ha].
      destruct (completion (afterLoop (agent o'))) as [[]|e];
        cbn [completion agent sent].
      + constructor; [by repeat constructor|]. by apply Forall_app.
      + destruct (Hfailed e (agent (afterLoop (agent o')))) as [_ Hf].
        apply Forall_app. split; [|exact Hf].
        constructor; [by repeat constructor|]. by apply Forall_app.
    - destruct (Hfailed e (agent o')) as [_ Hf].
      apply Forall_app. split; [|exact Hf].
      constructor; [by repeat constructor | exact Hloop']. }
  split; [exact Hsent|].
  eapply Forall_impl; [exact Hsent|].
  intros u Hu. unfold sentType in Hu.
  split; intros Heq; rewrite Heq in Hu;
    repeat (apply elem_of_cons in Hu as [Hu|Hu]; [discriminate|]);
    by apply elem_of_nil in Hu.
Qed.

(** *** How a task ends *)

(** A [finish] decision taken while the agent runs: the completion
    update, then [stopTask], then [break]. *)
Lemma tryBlock_finish w n a fc a1 u1 :
  think w n a = mkOutcome (Normal fc) a1 u1 ->
  isRunning a1 = true ->
  action fc = "finish" ->
  tryBlock w n a
  = mkOutcome (Normal Break) (agent (stopTask a1))
      (u1 ++ [taskCompleted fc; taskAborted]).
Proof.
  intros Hthink Hrun Hfinish.
  change (wp (tryBlock w n) a (fun o =>
    o = mkOutcome (Normal Break) (agent (stopTask a1))
          (u1 ++ [taskCompleted fc; taskAborted]))).
  unfold tryBlock. apply wp_bind. unfold wp at 1. rewrite Hthink. wp_simpl.
  apply wp_bind. wp_step. rewrite Hrun, Hfinish, String.eqb_refl.
  cbn [negb]. wp_run. rewrite stopTask_spec. cbn [app agent].
  clear. by destruct a1.
Qed.

Lemma taskFailed_catches (o : Outcome unit) (reason : string) :
  completion o = Throw reason ->
  or_catch o taskFailed
  = mkOutcome (Normal tt) (agent (stopTask (agent o)))
      (sent o
       ++ [mkUpdate "system" ("❌ Task failed: " +:+ reason); taskAborted]).
Proof.
  intros Hc. unfold or_catch. rewrite Hc.
  destruct o as [c [] s]. reflexivity.
Qed.

(** C9.  [stopTask] clears the current task, the step counter, the last
    action, the action history and the failure counter whatever the
    agent, and sends [task_aborted].  It is what ends a task on a
    [finish] decision, on the exhaustion of the step budget and in the
    [catch] block of [startTask].  So every run of [startTask] sends
    [task_aborted] and leaves the agent stopped; and when no stop request
    arrives, [task_aborted] is the last update of the run, right after
    the completion update of a [finish] decision or the maximum-steps
    update, and the agent is left as [stopTask] leaves it. *)
Theorem every_task_ends_aborted (w : World) (prompt : string) (tab : nat)
  (a : AIAgent) (fuel : nat) :
  maxSteps a <= fuel ->
  (forall s,
     sent (stopTask s) = [taskAborted]
     /\ isRunning (agent (stopTask s)) = false
     /\ currentTask (agent (stopTask s)) = None
     /\ stepCount (agent (stopTask s)) = 0
     /\ lastAction (agent (stopTask s)) = None
     /\ actionHistory (agent (stopTask s)) = []
     /\ consecutiveFailures (agent (stopTask s)) = 0%Z)
  /\ (forall n s fc s1 u1,
        think w n s = mkOutcome (Normal fc) s1 u1 ->
        isRunning s1 = true ->
        action fc = "finish" ->
        tryBlock w n s
        = mkOutcome (Normal Break) (agent (stopTask s1))
            (u1 ++ [taskCompleted fc; taskAborted]))
  /\ (forall s,
        maxSteps s <= stepCount s ->
        afterLoop s
        = mkOutcome (Normal tt) (agent (stopTask s))
            [maximumSteps; taskAborted])
  /\ (forall (o : Outcome unit) reason,
        completion o = Throw reason ->
        or_catch o taskFailed
        = mkOutcome (Normal tt) (agent (stopTask (agent o)))
            (sent o
             ++ [mkUpdate "system" ("❌ Task failed: " +:+ reason);
                 taskAborted]))
  /\ exists heads o,
       startTask fuel w prompt tab a = Some (heads, o)
       /\ taskAborted ∈ sent o
       /\ stopped (agent o)
       /\ (undisturbed w ->
           exists before final a1,
             sent o = before ++ [final; taskAborted]
             /\ Forall notAborted before
             /\ (final = maximumSteps
                 \/ exists fc, final = taskCompleted fc)
             /\ agent o = agent (stopTask a1)).
Proof.
  intros Hfuel.
  split; [intros s; by rewrite stopTask_spec|].
  split; [apply tryBlock_finish|].
  split.
  { intros s Hle. rewrite afterLoop_spec.
    by apply Nat.leb_le in Hle as ->. }
  split; [apply taskFailed_catches|].
  destruct (startTask_run w prompt tab a fuel Hfuel)
    as (heads & o & loopEnd & Hstart & _ & _ & _ & _ & Hst & _ & Hin & _).
  exists heads, o. split; [exact Hstart|]. split; [exact Hin|].
  split; [exact Hst|].
  intros Hw.
  destruct (startTask_undisturbed w prompt tab a fuel Hw Hfuel)
    as (heads' & o' & Hstart' & Hend).
  assert (o' = o) as -> by congruence.
  exact Hend.
Qed.

(** A planner that finishes at once. *)
Definition finishing : World :=
  mkWorld
    (fun _ =>
       mkChatResponse true None
         (Some (mkToolCall "browser_action"
                  (mkCall "finish" None None (Some "nothing to do")
                     (Some "done")))))
    (fun _ => None)
    (fun _ => Resolved (Some (mkResult true (Some "ok") None None None)))
    (fun _ => false) (fun _ => false) (fun _ => false).

Lemma finishing_undisturbed : undisturbed finishing.
Proof. intros n. repeat split. Defined.

Lemma every_task_ends_aborted_witness :
  exists heads o,
    startTask 10 finishing "Done already" 7 new = Some (heads, o)
    /\ taskAborted ∈ sent o
    /\ exists before final,
         sent o = before ++ [final; taskAborted].
Proof.
  destruct (every_task_ends_aborted finishing "Done already" 7 new 10)
    as (_ & _ & _ & _ & heads & o & Hstart & Hin & _ & Hend).
  - simpl. lia.
  - destruct (Hend finishing_undisturbed)
      as (before & final & a1 & Hs & _).
    exists heads, o. split; [exact Hstart|]. split; [exact Hin|].
    exists before, final. exact Hs.
Defined.

(** C3: what the code does on a [finish] decision.  The run of a task
    whose planner answers [finish] at the first step sends, in order,
    [task_started], two [thinking] updates, a [system] update carrying
    the completion message, and [task_aborted]; no update of type
    [task_completed] is sent. *)
Theorem finish_sends_system_then_aborted :
  match startTask 10 finishing "Done already" 7 new with
  | Some (heads, o) =>
      map u_type (sent o)
      = ["task_started"; "thinking"; "thinking"; "system"; "task_aborted"]
      /\ drop 3 (sent o)
         = [mkUpdate "system" "✅ Task completed: done"; taskAborted]
      /\ Forall (fun u => u_type u <> "task_completed") (sent o)
  | None => False
  end.
Proof.
  vm_compute. split; [reflexivity|]. split; [reflexivity|].
  repeat constructor; discriminate.
Qed.



(** *** Runs *)

(** A world without stop requests, from what the planner decides and how
    the tab answers at each step. *)
Definition calm (decide : nat -> FunctionCall) (answer : nat -> Delivery)
  : World :=
  mkWorld
    (fun n =>
       mkChatResponse true None (Some (mkToolCall "browser_action" (decide n))))
    (fun _ => None) answer
    (fun _ => false) (fun _ => false) (fun _ => false).

(** The types of the updates of a run on a fresh agent, and the number
    of passes through the loop. *)
Definition trace (w : World) (prompt : string)
  : option (nat * list string) :=
  match startTask 10 w prompt 7 new with
  | Some (heads, o) => Some (length heads - 1, map u_type (sent o))
  | None => None
  end.

(** Navigate, read the heading, finish: three passes, nothing rewritten. *)
Example run_navigate_read_finish :
  trace
    (calm
       (fun n =>
          match n with
          | 1 => mkCall "open" (Some "https://example.com") None
                   (Some "open the site") None
          | 2 => mkCall "extract_text" (Some "h1") None
                   (Some "read the heading") None
          | _ => mkCall "finish" None None (Some "all done") (Some "done")
          end)
       (fun _ => Resolved (Some extracted)))
    "Go to example.com and read the heading"
  = Some (3,
          ["task_started";
           "thinking"; "thinking"; "action"; "observation";
           "thinking"; "thinking"; "action"; "observation";
           "thinking"; "thinking"; "system"; "task_aborted"]).
Proof. vm_compute. reflexivity. Qed.

(** The same navigation proposed twice: the second is executed as
    [extract_text] on [body]. *)
Example run_navigate_twice :
  match
    startTask 2 (calm (fun _ => navigateAgain)
                   (fun _ => Resolved (Some extracted)))
      "Go to example.com" 7 (mkAgent false None 0 2 [] None None [] 0)
  with
  | Some (heads, o) =>
      map u_message (List.filter (fun u => String.eqb (u_type u) "action")
                       (sent o))
      = ["🌐 open: https://example.com"; "📄 extract_text: body"]
  | None => False
  end.
Proof. vm_compute. reflexivity. Qed.

(** The same typing proposed at every step: it is executed every time. *)
Example run_type_again :
  match
    startTask 3 (calm (fun _ => typeAgain)
                   (fun _ => Resolved (Some notFound)))
      "Search for shoes" 7 (mkAgent false None 0 3 [] None None [] 0)
  with
  | Some (heads, o) =>
      map u_message (List.filter (fun u => String.eqb (u_type u) "action")
                       (sent o))
      = ["⌨️ type: #q (" +:+ dq +:+ "shoes" +:+ dq +:+ ")";
         "⌨️ type: #q (" +:+ dq +:+ "shoes" +:+ dq +:+ ")";
         "⌨️ type: #q (" +:+ dq +:+ "shoes" +:+ dq +:+ ")"]
  | None => False
  end.
Proof. vm_compute. reflexivity. Qed.

End AgentSpec.

(** ** More on the agent

    What single passes and whole runs do in the situations the
    properties above leave open: a planner that cannot be reached or
    that never calls the tool, an action that is never answered, stop
    requests, and the conversation that is sent to the planner. *)

Module AgentFacts.
Import JS JSFacts Agent AgentSpec.

#[local] Existing Instance sameControl_refl.
#[local] Existing Instance sameControl_trans.

(** *** [recordAction] *)

(** The entry that [recordAction] builds. *)
Definition recordOf (functionCall : FunctionCall) (a : AIAgent)
  : ActionRecord :=
  mkRecord (action functionCall) (target functionCall) (text functionCall)
    (stepCount a).

Lemma recordAction_spec fc a :
  recordAction fc a
  = mkOutcome (Normal tt)
      (mkAgent (isRunning a) (currentTask a) (stepCount a) (maxSteps a)
         (conversationHistory a) (tabId a) (Some (recordOf fc a))
         (if (10 <? length (actionHistory a ++ [recordOf fc a]))%nat
          then slice_last 10 (actionHistory a ++ [recordOf fc a])
          else actionHistory a ++ [recordOf fc a])
         (consecutiveFailures a))
      [].
Proof.
  destruct a. unfold recordAction, recordOf, bind, and_then, gets, modify.
  wp_simpl. by destruct (10 <? _)%nat.
Qed.

Lemma last_slice_last {A : Type} (n : nat) (l : list A) (x : A) :
  0 < n -> last (slice_last n (l ++ [x])) = Some x.
Proof.
  intros Hn. unfold slice_last. rewrite length_app. simpl.
  rewrite drop_app_le by lia. rewrite last_app. reflexivity.
Qed.

Lemma recordAction_last fc a :
  lastAction (agent (recordAction fc a)) = Some (recordOf fc a)
  /\ last (actionHistory (agent (recordAction fc a))) = Some (recordOf fc a).
Proof.
  rewrite recordAction_spec. cbn [agent lastAction actionHistory].
  split; [reflexivity|].
  destruct (10 <? _)%nat; [apply last_slice_last; lia | by rewrite last_app].
Qed.

(** X7.  [recordAction] makes the decision the last action and the last
    entry of the history, which keeps at most 10 entries: the older ones
    are dropped from the front.  Nothing else changes and nothing is
    sent. *)
Theorem recordAction_keeps_last_ten (functionCall : FunctionCall)
  (a : AIAgent) :
  let o := recordAction functionCall a in
  let r := recordOf functionCall a in
  completion o = Normal tt
  /\ sent o = []
  /\ lastAction (agent o) = Some r
  /\ last (actionHistory (agent o)) = Some r
  /\ length (actionHistory (agent o)) <= 10
  /\ actionHistory (agent o) `suffix_of` (actionHistory a ++ [r])
  /\ (length (actionHistory a) < 10 ->
      actionHistory (agent o) = actionHistory a ++ [r])
  /\ sameControl a (agent o)
  /\ conversationHistory (agent o) = conversationHistory a
  /\ consecutiveFailures (agent o) = consecutiveFailures a.
Proof.
  cbv zeta. rewrite recordAction_spec. cbn [completion sent agent
    lastAction actionHistory conversationHistory consecutiveFailures].
  split; [reflexivity|]. split; [reflexivity|]. split; [reflexivity|].
  destruct (Nat.ltb_spec 10 (length (actionHistory a ++ [recordOf functionCall a])))
    as [Hlong|Hshort].
  - split; [apply last_slice_last; lia|].
    split; [apply length_slice_last|].
    split.
    { destruct (slice_last_suffix 10
                  (actionHistory a ++ [recordOf functionCall a]))
        as [front Hfront].
      exists front. exact Hfront. }
    split; [|done].
    intros Hlt. rewrite length_app in Hlong. simpl in Hlong. lia.
  - split; [by rewrite last_app|].
    split; [exact Hshort|]. split; [done|]. done.
Qed.

Lemma recordAction_keeps_last_ten_witness :
  lastAction (agent (recordAction fallbackCall clicked))
  = Some (mkRecord "extract_text" (Some "body") None 1)
  /\ actionHistory (agent (recordAction fallbackCall clicked))
     = [mkRecord "click" (Some ".missing") None 1;
        mkRecord "extract_text" (Some "body") None 1].
Proof.
  pose proof (recordAction_keeps_last_ten fallbackCall clicked) as H.
  cbv zeta in H. destruct H as (_ & _ & Hlast & _ & _ & _ & Hshort & _).
  split; [exact Hlast | apply Hshort; simpl; lia].
Defined.

(** *** THINK *)

Definition thinkingAbout : Update :=
  mkUpdate "thinking" "🤔 Thinking about next action...".

(** [think] when no stop request arrives while it awaits the planner. *)
Lemma think_spec w n a :
  stopWhileThinking w n = false ->
  think w n a
  = if chat_success (chat w n) then
      let fc := loopDetection a (parseToolCall (chat w n)) in
      mkOutcome (Normal fc) (agent (recordAction fc a))
        [thinkingAbout; mkUpdate "thinking" ("💭 " +:+ show (reasoning fc))]
    else
      mkOutcome
        (Throw ("AI thinking failed: " +:+ show (chat_error (chat w n))))
        a [thinkingAbout].
Proof.
  intros Hno. unfold think. rewrite Hno.
  unfold when, bind, and_then, sendUpdate, ret, gets, throw.
  cbn [completion agent sent].
  destruct (chat_success (chat w n)); cbn [negb completion agent sent app];
    [|reflexivity].
  rewrite recordAction_spec. reflexivity.
Qed.

(** *** A pass through the loop whose [try] block throws *)

Definition stepFailed (step : nat) (reason : string) : Update :=
  mkUpdate "system" ("⚠️ Step " +:+ pretty step +:+ " failed: " +:+ reason).

Definition errorNote (reason : string) : ChatMessage :=
  mkMessage "system"
    ("Error occurred: " +:+ reason +:+ ". Try a different approach.").

Lemma catchBlock_spec reason a :
  catchBlock reason a
  = mkOutcome (Normal Continue)
      (set_conversationHistory (conversationHistory a ++ [errorNote reason])
         a)
      [stepFailed (stepCount a) reason].
Proof. reflexivity. Qed.

Definition thinkingFailed (w : World) (n : nat) : string :=
  "AI thinking failed: " +:+ show (chat_error (chat w n)).

Lemma tryBlock_think_fails w n a :
  stopWhileThinking w n = false ->
  chat_success (chat w n) = false ->
  tryBlock w n a
  = mkOutcome (Throw (thinkingFailed w n)) a [thinkingAbout].
Proof.
  intros Hno Hfail. unfold tryBlock, bind, and_then.
  rewrite think_spec, Hfail by exact Hno. reflexivity.
Qed.

Lemma loopBody_planner_error (w : World) (a : AIAgent) :
  let n := S (stepCount a) in
  stopWhileThinking w n = false ->
  chat_success (chat w n) = false ->
  loopBody w a
  = mkOutcome (Normal Continue)
      (set_conversationHistory
         (conversationHistory a ++ [errorNote (thinkingFailed w n)])
         (set_stepCount n a))
      [thinkingAbout; stepFailed n (thinkingFailed w n)].
Proof.
  cbv zeta. intros Hno Hfail. rewrite loopBody_unfold. cbv zeta.
  unfold try_catch, or_catch.
  rewrite tryBlock_think_fails by done.
  cbn [completion agent sent]. rewrite catchBlock_spec. reflexivity.
Qed.

(** A world whose planner cannot be reached. *)
Definition outage : World :=
  mkWorld (fun _ => mkChatResponse false (Some "rate limit") None)
    (fun _ => None) (fun _ => Rejected "unreachable")
    (fun _ => false) (fun _ => false) (fun _ => false).

(** X8.  A pass in which the request to the planner fails (and no stop
    request arrives meanwhile) uses the step up and goes on: it sends the
    thinking update and the failed-step update with the planner's error,
    adds one corrective message to the conversation, and leaves the
    running flag, the last action, the history and the failure counter
    as they were. *)
Theorem loopBody_think_fails (w : World) (a : AIAgent) :
  let n := S (stepCount a) in
  stopWhileThinking w n = false ->
  chat_success (chat w n) = false ->
  let o := loopBody w a in
  let reason := "AI thinking failed: " +:+ show (chat_error (chat w n)) in
  completion o = Normal Continue
  /\ sent o
     = [mkUpdate "thinking" "🤔 Thinking about next action...";
        mkUpdate "system"
          ("⚠️ Step " +:+ pretty n +:+ " failed: " +:+ reason)]
  /\ conversationHistory (agent o)
     = conversationHistory a
       ++ [mkMessage "system"
             ("Error occurred: " +:+ reason
              +:+ ". Try a different approach.")]
  /\ stepCount (agent o) = n
  /\ isRunning (agent o) = isRunning a
  /\ lastAction (agent o) = lastAction a
  /\ actionHistory (agent o) = actionHistory a
  /\ consecutiveFailures (agent o) = consecutiveFailures a.
Proof.
  cbv zeta. intros Hno Hfail.
  rewrite (loopBody_planner_error w a Hno Hfail). by destruct a.
Qed.

Lemma loopBody_think_fails_witness :
  sent (loopBody outage clicked)
  = [mkUpdate "thinking" "🤔 Thinking about next action...";
     mkUpdate "system"
       "⚠️ Step 2 failed: AI thinking failed: rate limit"]
  /\ stepCount (agent (loopBody outage clicked)) = 2.
Proof.
  pose proof (loopBody_think_fails outage clicked eq_refl eq_refl) as H.
  cbv zeta in H. destruct H as (_ & Hsent & _ & Hstep & _).
  split; [exact Hsent | exact Hstep].
Defined.

(** *** ACT *)

Definition acting (thinking : FunctionCall) : Update :=
  mkUpdate "action" (getActionMessage thinking).

(** [act] when no stop request arrives while it awaits: the agent is
    left as it is. *)
Lemma act_spec w n fc a :
  stopWhileActing w n = false ->
  act w n fc a
  = mkOutcome
      (if String.eqb (action fc) "open" then
         match tabsUpdate w n with
         | None =>
             Normal (Some (mkResult true
                             (Some ("Navigated to " +:+ show (target fc)))
                             None None (target fc)))
         | Some reason =>
             Normal (Some (mkResult false None
                             (Some ("Failed to navigate: " +:+ reason))
                             None None))
         end
       else
         match delivery w n with
         | Rejected reason => Throw reason
         | Resolved result =>
             if String.eqb (action fc) "click" then
               match target fc with
               | None => Throw (type_error "includes")
               | Some _ => Normal result
               end
             else Normal result
         end)
      a [acting fc].
Proof.
  intros Hno. unfold act. rewrite Hno.
  unfold when, bind, and_then, sendUpdate, ret, throw.
  cbn [completion agent sent].
  destruct (String.eqb (action fc) "open").
  - by destruct (tabsUpdate w n).
  - destruct (delivery w n) as [result|reason]; [|reflexivity].
    destruct (String.eqb (action fc) "click"); [|reflexivity].
    by destruct (target fc).
Qed.

(** *** A planner that is out of reach *)

(** The updates and the corrective messages of the steps [from],
    [from + 1], ... ([count] of them) when the planner fails at each. *)
Definition outageUpdates (w : World) (from count : nat) : list Update :=
  flat_map (fun n => [thinkingAbout; stepFailed n (thinkingFailed w n)])
    (seq from count).

Definition outageNotes (w : World) (from count : nat) : list ChatMessage :=
  map (fun n => errorNote (thinkingFailed w n)) (seq from count).

Definition outageEnd (w : World) (a : AIAgent) (count : nat) : AIAgent :=
  set_conversationHistory
    (conversationHistory a ++ outageNotes w (S (stepCount a)) count)
    (set_stepCount (stepCount a + count) a).

Lemma outageEnd_zero (w : World) (a : AIAgent) : outageEnd w a 0 = a.
Proof.
  unfold outageEnd, outageNotes. cbn [seq map].
  rewrite app_nil_r, Nat.add_0_r. by destruct a.
Qed.

Lemma outageEnd_step (w : World) (a : AIAgent) (count : nat) :
  outageEnd w
    (set_conversationHistory
       (conversationHistory a
        ++ [errorNote (thinkingFailed w (S (stepCount a)))])
       (set_stepCount (S (stepCount a)) a)) count
  = outageEnd w a (S count).
Proof.
  destruct a as [r t n m c tb la ah cf]. unfold outageEnd, outageNotes.
  wp_simpl. cbn [seq map]. rewrite <- app_assoc.
  by replace (S n + count) with (n + S count) by lia.
Qed.

Lemma whileLoop_outage (w : World) (count : nat) :
  forall fuel a,
    isRunning a = true ->
    stepCount a + count = maxSteps a ->
    count <= fuel ->
    (forall n,
       stepCount a < n <= maxSteps a ->
       stopWhileThinking w n = false /\ chat_success (chat w n) = false) ->
    exists heads,
      whileLoop fuel w a
      = Some (heads,
              mkOutcome (Normal tt) (outageEnd w a count)
                (outageUpdates w (S (stepCount a)) count))
      /\ length heads = S count.
Proof.
  induction count as [|count IH]; intros fuel a Hrun Hsteps Hfuel Hout.
  - exists [a].
    assert (Hcond : loopCondition a = false).
    { unfold loopCondition. rewrite Hrun. apply Nat.ltb_ge. lia. }
    split; [|reflexivity].
    rewrite outageEnd_zero.
    destruct fuel; cbn [whileLoop]; by rewrite Hcond.
  - destruct fuel as [|fuel]; [lia|].
    assert (Hcond : loopCondition a = true).
    { unfold loopCondition. rewrite Hrun. apply Nat.ltb_lt. lia. }
    destruct (Hout (S (stepCount a))) as [Hno Hfail]; [lia|].
    cbn [whileLoop]. rewrite Hcond. cbv zeta.
    rewrite (loopBody_planner_error w a Hno Hfail).
    cbn [completion agent sent].
    destruct (IH fuel
                (set_conversationHistory
                   (conversationHistory a
                    ++ [errorNote (thinkingFailed w (S (stepCount a)))])
                   (set_stepCount (S (stepCount a)) a)))
      as (heads & Hloop & Hlen).
    + exact Hrun.
    + wp_simpl. lia.
    + lia.
    + wp_simpl. intros n Hn. apply Hout. lia.
    + rewrite Hloop. exists (a :: heads). split; [|simpl; lia].
      cbn [completion agent sent]. by rewrite outageEnd_step.
Qed.

(** X9.  When every request to the planner fails (and no stop request
    arrives meanwhile), no request ends the task: each of the [maxSteps]
    steps sends the thinking update and a step-failed update and adds one
    corrective message to the conversation, nothing is ever executed, and
    the run ends with the maximum-steps update followed by
    [task_aborted]. *)
Theorem startTask_planner_outage (w : World) (prompt : string) (tab : nat)
  (a : AIAgent) (fuel : nat) :
  maxSteps a <= fuel ->
  (forall n,
     1 <= n <= maxSteps a ->
     stopWhileThinking w n = false /\ chat_success (chat w n) = false) ->
  exists heads o,
    startTask fuel w prompt tab a = Some (heads, o)
    /\ length heads = S (maxSteps a)
    /\ sent o
       = taskStarted prompt
         :: outageUpdates w 1 (maxSteps a) ++ [maximumSteps; taskAborted]
    /\ conversationHistory (agent o)
       = [mkMessage "system" getSystemPrompt; mkMessage "user" prompt]
         ++ outageNotes w 1 (maxSteps a)
    /\ Forall (fun u => u_type u <> "action" /\ u_type u <> "observation")
         (sent o).
Proof.
  intros Hfuel Hout. unfold startTask, agentLoop. cbv zeta.
  rewrite enterTask_spec. cbn [agent sent].
  set (a0 := mkAgent true (Some prompt) 0 (maxSteps a) _ (Some tab) None [] 0).
  destruct (whileLoop_outage w (maxSteps a) fuel a0) as (heads & Hloop & Hlen);
    [reflexivity | reflexivity | exact Hfuel | |].
  { intros n Hn. apply Hout. cbn in Hn. lia. }
  rewrite Hloop. unfold and_then. cbn [completion agent sent].
  rewrite afterLoop_spec.
  assert (Hmax : (maxSteps (outageEnd w a0 (maxSteps a))
                  <=? stepCount (outageEnd w a0 (maxSteps a)))%nat = true).
  { apply Nat.leb_le. cbn. lia. }
  rewrite Hmax. unfold or_catch. cbn [completion agent sent].
  eexists heads, _. split; [reflexivity|]. cbn [agent sent].
  split; [exact Hlen|]. split; [reflexivity|].
  split; [by rewrite stopTask_spec|].
  constructor; [split; discriminate|].
  apply Forall_app. split; [|repeat constructor; discriminate].
  unfold outageUpdates. apply Forall_flat_map, Forall_forall.
  intros n _. repeat constructor; discriminate.
Qed.

Lemma startTask_planner_outage_witness :
  exists heads o,
    startTask 10 outage "Buy a mug" 7 new = Some (heads, o)
    /\ length heads = 11
    /\ length (sent o) = 23
    /\ length (conversationHistory (agent o)) = 12.
Proof.
  destruct (startTask_planner_outage outage "Buy a mug" 7 new 10)
    as (heads & o & Hrun & Hlen & Hsent & Hnotes & _).
  - simpl; lia.
  - intros n _. split; reflexivity.
  - exists heads, o. split; [exact Hrun|]. split; [exact Hlen|].
    rewrite Hsent, Hnotes. split; reflexivity.
Defined.

(** *** What a pass leaves of the decision it took *)

(** The control fields and the record of past decisions. *)
Definition sameRecords (a a' : AIAgent) : Prop :=
  sameControl a a' /\ lastAction a' = lastAction a
  /\ actionHistory a' = actionHistory a.

#[local] Instance sameRecords_refl : Reflexive sameRecords.
Proof. by intros a. Qed.

#[local] Instance sameRecords_trans : Transitive sameRecords.
Proof.
  intros a b c (Hc & ? & ?) (Hc' & ? & ?).
  split; [by etrans | split; congruence].
Qed.

(** The types of the updates that follow the execution of an action. *)
Definition afterAction (u : Update) : Prop :=
  u_type u = "observation" \/ u_type u = "system".

Ltac records :=
  respects_with
    ltac:(first [ by repeat split | by left | by right
                | by case_match; repeat split ]).

Lemma observe_records r : Respects sameRecords afterAction (observe r).
Proof.
  unfold observe, lastActionIsSubmitClick, getNextActionSuggestion. records.
Qed.

Lemma catchBlock_records e : Respects sameRecords afterAction (catchBlock e).
Proof. unfold catchBlock. records. Qed.

Lemma pause_records w n :
  stopWhileSleeping w n = false ->
  Respects sameRecords afterAction (pause w n).
Proof. intros Hno. unfold pause. rewrite Hno. records. Qed.

Lemma wp_respects {A : Type} (R : relation AIAgent) (P : Update -> Prop)
  (m : M A) a (Q : Outcome A -> Prop) :
  Respects R P m ->
  (forall c a' s, R a a' -> Forall P s -> Q (mkOutcome c a' s)) ->
  wp m a Q.
Proof.
  intros Hm H. unfold wp. destruct (Hm a) as [Hr Hs].
  destruct (m a). by apply H.
Qed.

(** The decision of the pass that starts from [a]. *)
Definition decision (w : World) (a : AIAgent) : FunctionCall :=
  loopDetection (set_stepCount (S (stepCount a)) a)
    (parseToolCall (chat w (S (stepCount a)))).

(** The agent once [think] has recorded that decision. *)
Definition decided (w : World) (a : AIAgent) : AIAgent :=
  agent (recordAction (decision w a) (set_stepCount (S (stepCount a)) a)).

Lemma decided_control w a :
  sameControl (set_stepCount (S (stepCount a)) a) (decided w a).
Proof. unfold decided. rewrite recordAction_spec. by destruct a. Qed.

Definition reasoningOf (fc : FunctionCall) : Update :=
  mkUpdate "thinking" ("💭 " +:+ show (reasoning fc)).

(** What a pass sends up to the execution of its decision. *)
Definition announced (fc : FunctionCall) : list Update :=
  [thinkingAbout; reasoningOf fc; acting fc].

Lemma tryBlock_keeps_record w a :
  let n := S (stepCount a) in
  isRunning a = true ->
  stopWhileThinking w n = false ->
  stopWhileActing w n = false ->
  stopWhileSleeping w n = false ->
  chat_success (chat w n) = true ->
  action (decision w a) <> "finish" ->
  let o := tryBlock w n (set_stepCount n a) in
  completion o <> Normal Break
  /\ sameRecords (decided w a) (agent o)
  /\ exists rest,
       sent o = announced (decision w a) ++ rest /\ Forall afterAction rest.
Proof.
  cbv zeta. intros Hrun Hthink Hact Hsleep Hchat Hfinish.
  change (wp (tryBlock w (S (stepCount a))) (set_stepCount (S (stepCount a)) a)
            (fun o => completion o <> Normal Break
                      /\ sameRecords (decided w a) (agent o)
                      /\ exists rest,
                           sent o = announced (decision w a) ++ rest
                           /\ Forall afterAction rest)).
  unfold tryBlock. apply wp_bind. unfold wp at 1.
  rewrite think_spec, Hchat by exact Hthink. cbv zeta.
  fold (decision w a). fold (decided w a). fold (reasoningOf (decision w a)).
  destruct (decided_control w a) as (Hr & Hn & Hm & Ht).
  cbn [isRunning stepCount maxSteps currentTask set_stepCount] in Hr, Hn, Hm, Ht.
  unfold after. cbn [completion agent sent].
  apply wp_bind. wp_step. rewrite Hr, Hrun. cbn [negb].
  destruct (String.eqb_spec (action (decision w a)) "finish") as [|_];
    [done|].
  apply wp_bind. unfold wp at 1. rewrite act_spec by exact Hact.
  unfold after. cbn [completion agent sent].
  match goal with
  | |- match ?c with _ => _ end => destruct c as [[result|]|e]
  end.
  - apply wp_bind. wp_step. rewrite Hr, Hrun. cbn [negb].
    apply wp_bind. cbv beta iota.
    apply (wp_respects sameRecords afterAction); [apply observe_records|].
    intros [[]|e] a1 s1 H1 Hs1; wp_simpl.
    + apply wp_bind.
      apply (wp_respects sameRecords afterAction);
        [by apply pause_records|].
      intros [[]|e] a2 s2 H2 Hs2; wp_simpl.
      * wp_step. split; [done|]. split; [by etrans|].
        exists (s1 ++ s2 ++ []). split; [reflexivity|].
        rewrite app_nil_r. by apply Forall_app.
      * split; [done|]. split; [by etrans|].
        exists (s1 ++ s2). split; [reflexivity|]. by apply Forall_app.
    + split; [done|]. split; [done|]. by exists s1.
  - apply wp_bind. wp_step. rewrite Hr, Hrun. cbn [negb].
    apply wp_bind. cbv beta iota. wp_step.
    split; [done|]. split; [done|]. exists []. split; [reflexivity|].
    constructor.
  - split; [done|]. split; [done|]. exists []. split; [reflexivity|].
    constructor.
Qed.

Lemma loopBody_decided (w : World) (a : AIAgent) :
  let n := S (stepCount a) in
  isRunning a = true ->
  stopWhileThinking w n = false ->
  stopWhileActing w n = false ->
  stopWhileSleeping w n = false ->
  chat_success (chat w n) = true ->
  action (decision w a) <> "finish" ->
  let o := loopBody w a in
  completion o = Normal Continue
  /\ isRunning (agent o) = true
  /\ stepCount (agent o) = n
  /\ maxSteps (agent o) = maxSteps a
  /\ lastAction (agent o) = Some (recordOf (decision w a) (set_stepCount n a))
  /\ last (actionHistory (agent o))
     = Some (recordOf (decision w a) (set_stepCount n a))
  /\ exists rest,
       sent o = announced (decision w a) ++ rest /\ Forall afterAction rest.
Proof.
  cbv zeta. intros Hrun Hthink Hact Hsleep Hchat Hfinish.
  destruct (tryBlock_keeps_record w a Hrun Hthink Hact Hsleep Hchat Hfinish)
    as (Hflow & Hsame & rest & Hsent & Hrest).
  destruct (decided_control w a) as (Hr & Hn & Hm & _).
  cbn [isRunning stepCount maxSteps set_stepCount] in Hr, Hn, Hm.
  assert (Hrec : lastAction (decided w a)
                 = Some (recordOf (decision w a)
                           (set_stepCount (S (stepCount a)) a))
                 /\ last (actionHistory (decided w a))
                    = Some (recordOf (decision w a)
                              (set_stepCount (S (stepCount a)) a))).
  { unfold decided.
    destruct (recordAction_last (decision w a)
                (set_stepCount (S (stepCount a)) a)) as [H1 H2].
    done. }
  destruct Hrec as [Hlast Hhist].
  rewrite loopBody_unfold. cbv zeta. cbn [completion agent sent].
  unfold try_catch, or_catch.
  destruct (completion (tryBlock w _ _)) as [[|]|e] eqn:Hc; [|done|].
  - destruct Hsame as ((Hr' & Hn' & Hm' & _) & Hl' & Hh').
    split; [exact Hc|]. split_and!; try congruence. by exists rest.
  - cbn [completion agent sent].
    destruct (catchBlock_records e (agent (tryBlock w (S (stepCount a))
                (set_stepCount (S (stepCount a)) a))))
      as [((Hr'' & Hn'' & Hm'' & _) & Hl'' & Hh'') Hcatch].
    destruct Hsame as ((Hr' & Hn' & Hm' & _) & Hl' & Hh').
    split; [reflexivity|]. split_and!; try congruence.
    exists (rest ++ sent (catchBlock e (agent (tryBlock w (S (stepCount a))
                (set_stepCount (S (stepCount a)) a))))).
    rewrite Hsent, <- app_assoc. split; [reflexivity|]. by apply Forall_app.
Qed.

(** X10.  A pass in which the planner answers, no stop request arrives and
    the decision is not [finish] always ends with the loop going on, the
    agent still running and the step used up, and with that decision as
    the last action and the last entry of the history: whether the
    action succeeded, failed, timed out or was never delivered makes no
    difference to what the next pass compares its decision with. *)
Theorem loopBody_keeps_record (w : World) (a : AIAgent) :
  let n := S (stepCount a) in
  isRunning a = true ->
  stopWhileThinking w n = false ->
  stopWhileActing w n = false ->
  stopWhileSleeping w n = false ->
  chat_success (chat w n) = true ->
  action (decision w a) <> "finish" ->
  let o := loopBody w a in
  completion o = Normal Continue
  /\ isRunning (agent o) = true
  /\ stepCount (agent o) = n
  /\ lastAction (agent o)
     = Some (mkRecord (action (decision w a)) (target (decision w a))
               (text (decision w a)) n)
  /\ last (actionHistory (agent o)) = lastAction (agent o).
Proof.
  cbv zeta. intros Hrun Hthink Hact Hsleep Hchat Hfinish.
  destruct (loopBody_decided w a Hrun Hthink Hact Hsleep Hchat Hfinish)
    as (Hc & Hr & Hn & _ & Hl & Hh & _).
  rewrite Hh, Hl. done.
Qed.

(** A world whose planner asks for the same click at every step and
    whose tab never answers in time. *)
Definition unanswered : World :=
  calm (fun _ => mkCall "click" (Some "#buy") None (Some "Buy it") None)
    (fun _ => Rejected "Action timeout after 10 seconds").

Lemma loopBody_keeps_record_witness :
  completion (loopBody unanswered clicked) = Normal Continue
  /\ lastAction (agent (loopBody unanswered clicked))
     = Some (mkRecord "click" (Some "#buy") None 2).
Proof.
  pose proof (loopBody_keeps_record unanswered clicked) as H.
  cbv zeta in H.
  destruct H as (Hflow & _ & _ & Hlast & _);
    [reflexivity | reflexivity | reflexivity | reflexivity | reflexivity
    | vm_compute; discriminate |].
  split; [exact Hflow | exact Hlast].
Defined.

(** *** An action that is never answered *)

(** X11.  When the race of [act] is lost or the transport gives up (the
    promise rejects), the pass does not reach [observe]: the failure
    counter stays as it was, no observation is sent, the rejection is
    reported as a failed step and added to the conversation as a
    corrective message, the decision stays recorded, and the loop goes
    on. *)
Theorem loopBody_delivery_rejected (w : World) (a : AIAgent)
  (reason : string) :
  let n := S (stepCount a) in
  isRunning a = true ->
  stopWhileThinking w n = false ->
  stopWhileActing w n = false ->
  chat_success (chat w n) = true ->
  action (decision w a) <> "finish" ->
  action (decision w a) <> "open" ->
  delivery w n = Rejected reason ->
  let o := loopBody w a in
  completion o = Normal Continue
  /\ map u_type (sent o) = ["thinking"; "thinking"; "action"; "system"]
  /\ last (sent o)
     = Some (mkUpdate "system"
               ("⚠️ Step " +:+ pretty n +:+ " failed: " +:+ reason))
  /\ conversationHistory (agent o)
     = conversationHistory a
       ++ [mkMessage "system"
             ("Error occurred: " +:+ reason
              +:+ ". Try a different approach.")]
  /\ lastAction (agent o)
     = Some (mkRecord (action (decision w a)) (target (decision w a))
               (text (decision w a)) n)
  /\ consecutiveFailures (agent o) = consecutiveFailures a
  /\ stepCount (agent o) = n
  /\ isRunning (agent o) = true.
Proof.
  cbv zeta. intros Hrun Hthink Hact Hchat Hfinish Hopen Hdelivery.
  assert (Hbody : loopBody w a
    = mkOutcome (Normal Continue)
        (set_conversationHistory
           (conversationHistory a ++ [errorNote reason]) (decided w a))
        [thinkingAbout; reasoningOf (decision w a); acting (decision w a);
         stepFailed (S (stepCount a)) reason]).
  { rewrite loopBody_unfold. cbv zeta. unfold try_catch, or_catch.
    assert (Htry : tryBlock w (S (stepCount a))
                     (set_stepCount (S (stepCount a)) a)
                   = mkOutcome (Throw reason) (decided w a)
                       [thinkingAbout; reasoningOf (decision w a);
                        acting (decision w a)]).
    { unfold tryBlock, bind, and_then.
      rewrite think_spec, Hchat by exact Hthink. cbv zeta.
      fold (decision w a). fold (decided w a).
      destruct (decided_control w a) as (Hr & _).
      cbn [isRunning set_stepCount] in Hr.
      cbn [completion agent sent gets]. rewrite Hr, Hrun. cbn [negb].
      destruct (String.eqb_spec (action (decision w a)) "finish") as [|_];
        [done|].
      rewrite act_spec by exact Hact. cbn [completion agent sent].
      destruct (String.eqb_spec (action (decision w a)) "open") as [|_];
        [done|].
      rewrite Hdelivery. reflexivity. }
    rewrite Htry. cbn [completion agent sent]. rewrite catchBlock_spec.
    cbn [completion agent sent app].
    destruct (decided_control w a) as (_ & Hn & _).
    cbn [stepCount set_stepCount] in Hn. rewrite Hn.
    unfold decided. rewrite recordAction_spec. reflexivity. }
  rewrite Hbody. cbn [completion agent sent].
  unfold decided. rewrite recordAction_spec.
  destruct a as [r t n m c tb la ah cf]. cbn in Hrun. subst r.
  split_and!; reflexivity.
Qed.

Lemma loopBody_delivery_rejected_witness :
  last (sent (loopBody unanswered clicked))
  = Some (mkUpdate "system"
            "⚠️ Step 2 failed: Action timeout after 10 seconds")
  /\ consecutiveFailures (agent (loopBody unanswered clicked)) = 0%Z.
Proof.
  pose proof (loopBody_delivery_rejected unanswered clicked
                "Action timeout after 10 seconds") as H.
  cbv zeta in H.
  destruct H as (_ & _ & Hlast & _ & _ & Hfailures & _);
    [reflexivity | reflexivity | reflexivity | reflexivity
    | vm_compute; discriminate | vm_compute; discriminate | reflexivity |].
  split; [exact Hlast | exact Hfailures].
Defined.

(** *** A planner that never calls the tool *)

(** What the loop guard makes of a repeated fallback decision. *)
Definition finishCall : FunctionCall := forceProgression fallbackCall.

Lemma loopBody_finish w a fc a1 u1 :
  think w (S (stepCount a)) (set_stepCount (S (stepCount a)) a)
  = mkOutcome (Normal fc) a1 u1 ->
  isRunning a1 = true ->
  action fc = "finish" ->
  loopBody w a
  = mkOutcome (Normal Break) (agent (stopTask a1))
      (u1 ++ [taskCompleted fc; taskAborted]).
Proof.
  intros Hthink Hrun Hfinish. rewrite loopBody_unfold. cbv zeta.
  unfold try_catch, or_catch.
  by rewrite (tryBlock_finish _ _ _ _ _ _ Hthink Hrun Hfinish).
Qed.

Definition silent (response : ChatResponse) : Prop :=
  chat_success response = true
  /\ forall tc, tool_call response = Some tc -> name tc <> "browser_action".

Lemma decision_fallback w a :
  silent (chat w (S (stepCount a))) ->
  decision w a
  = loopDetection (set_stepCount (S (stepCount a)) a) fallbackCall.
Proof.
  intros [_ Hno]. unfold decision. by rewrite (parseToolCall_fallback _ Hno).
Qed.

(** The first pass of a silent planner, from an agent without history. *)
Lemma silent_first_pass w a :
  let n := S (stepCount a) in
  isRunning a = true ->
  lastAction a = None ->
  actionHistory a = [] ->
  stopWhileThinking w n = false ->
  stopWhileActing w n = false ->
  stopWhileSleeping w n = false ->
  silent (chat w n) ->
  let o := loopBody w a in
  completion o = Normal Continue
  /\ isRunning (agent o) = true
  /\ stepCount (agent o) = n
  /\ maxSteps (agent o) = maxSteps a
  /\ lastAction (agent o)
     = Some (mkRecord "extract_text" (Some "body") None n)
  /\ exists rest,
       sent o = announced fallbackCall ++ rest /\ Forall afterAction rest.
Proof.
  cbv zeta. intros Hrun Hlast Hhist Hthink Hact Hsleep Hsilent.
  assert (Hd : decision w a = fallbackCall).
  { rewrite (decision_fallback w a Hsilent).
    unfold loopDetection, isRepeatingAction.
    cbn [lastAction actionHistory set_stepCount]. by rewrite Hlast, Hhist. }
  destruct Hsilent as [Hchat _].
  destruct (loopBody_decided w a Hrun Hthink Hact Hsleep Hchat)
    as (Hc & Hr & Hn & Hm & Hl & _ & Hs); [by rewrite Hd|].
  rewrite Hd in Hl, Hs. done.
Qed.

(** A pass of a silent planner right after [extract_text] on [body]. *)
Lemma silent_second_pass w a r :
  let n := S (stepCount a) in
  isRunning a = true ->
  lastAction a = Some r ->
  rec_action r = "extract_text" ->
  rec_target r = Some "body" ->
  stopWhileThinking w n = false ->
  silent (chat w n) ->
  loopBody w a
  = mkOutcome (Normal Break) (agent (stopTask (decided w a)))
      [thinkingAbout; reasoningOf finishCall; taskCompleted finishCall;
       taskAborted].
Proof.
  cbv zeta. intros Hrun Hlast Hra Hrt Hthink Hsilent.
  assert (Hd : decision w a = finishCall).
  { rewrite (decision_fallback w a Hsilent).
    unfold loopDetection, isRepeatingAction.
    cbn [lastAction set_stepCount]. rewrite Hlast.
    unfold sameAction. rewrite Hra, Hrt. reflexivity. }
  destruct Hsilent as [Hchat _].
  apply (loopBody_finish w a finishCall (decided w a)
           [thinkingAbout; reasoningOf finishCall]).
  - rewrite think_spec, Hchat by exact Hthink. cbv zeta.
    fold (decision w a). fold (decided w a). by rewrite Hd.
  - destruct (decided_control w a) as (Hr & _).
    cbn [isRunning set_stepCount] in Hr. congruence.
  - reflexivity.
Qed.

(** Two passes, the second of which breaks out of the loop. *)
Lemma whileLoop_two_passes w fuel a a2 s2 :
  loopCondition a = true ->
  completion (loopBody w a) = Normal Continue ->
  loopCondition (agent (loopBody w a)) = true ->
  loopBody w (agent (loopBody w a)) = mkOutcome (Normal Break) a2 s2 ->
  whileLoop (S (S fuel)) w a
  = Some ([a; agent (loopBody w a); a2],
          mkOutcome (Normal tt) a2 (sent (loopBody w a) ++ s2)).
Proof.
  intros Hcond Hflow Hcond' Hbody.
  change (whileLoop (S (S fuel)) w a)
    with (if loopCondition a then
            let o := loopBody w a in
            match completion o with
            | Normal Continue =>
                match whileLoop (S fuel) w (agent o) with
                | Some (heads, o') =>
                    Some (a :: heads,
                          mkOutcome (completion o') (agent o')
                            (sent o ++ sent o'))
                | None => None
                end
            | Normal Break =>
                Some ([a; agent o], mkOutcome (Normal tt) (agent o) (sent o))
            | Throw reason =>
                Some ([a; agent o],
                      mkOutcome (Throw reason) (agent o) (sent o))
            end
          else Some ([a], mkOutcome (Normal tt) a [])).
  rewrite Hcond. cbv zeta. rewrite Hflow.
  change (whileLoop (S fuel) w (agent (loopBody w a)))
    with (if loopCondition (agent (loopBody w a)) then
            let o := loopBody w (agent (loopBody w a)) in
            match completion o with
            | Normal Continue =>
                match whileLoop fuel w (agent o) with
                | Some (heads, o') =>
                    Some (agent (loopBody w a) :: heads,
                          mkOutcome (completion o') (agent o')
                            (sent o ++ sent o'))
                | None => None
                end
            | Normal Break =>
                Some ([agent (loopBody w a); agent o],
                      mkOutcome (Normal tt) (agent o) (sent o))
            | Throw reason =>
                Some ([agent (loopBody w a); agent o],
                      mkOutcome (Throw reason) (agent o) (sent o))
            end
          else Some ([agent (loopBody w a)],
                     mkOutcome (Normal tt) (agent (loopBody w a)) [])).
  rewrite Hcond'. cbv zeta. rewrite Hbody. reflexivity.
Qed.

Lemma stopTask_budget x :
  stepCount (agent (stopTask x)) = 0
  /\ maxSteps (agent (stopTask x)) = maxSteps x
  /\ stopped (agent (stopTask x)).
Proof. by rewrite stopTask_spec. Qed.

(** What [startTask] makes of a loop that was left by a stop. *)
Lemma startTask_stopped w prompt tab a fuel heads a2 s :
  whileLoop fuel w (agent (enterTask prompt tab a))
  = Some (heads, mkOutcome (Normal tt) a2 s) ->
  stepCount a2 < maxSteps a2 ->
  startTask fuel w prompt tab a
  = Some (heads, mkOutcome (Normal tt) a2 (taskStarted prompt :: s)).
Proof.
  intros Hloop Hlt. unfold startTask, agentLoop. cbv zeta.
  rewrite Hloop. unfold and_then. cbn [completion agent sent].
  rewrite afterLoop_spec.
  assert (Hnot : (maxSteps a2 <=? stepCount a2)%nat = false)
    by (apply Nat.leb_gt; lia).
  rewrite Hnot. unfold or_catch. cbn [completion agent sent].
  by rewrite enterTask_spec, !app_nil_r.
Qed.

(** X12.  When the planner answers the first two requests without a
    [browser_action] tool call (and no stop request arrives), the task
    ends at the second step as completed: the first pass executes the
    fallback [extract_text] on [body]; whatever comes of it, the second
    pass finds the fallback repeated and turns it into [finish], and the
    run ends with the generic completion message followed by
    [task_aborted]. *)
Theorem silent_planner_ends_at_step_two (w : World) (prompt : string)
  (tab : nat) (a : AIAgent) (fuel : nat) :
  2 <= maxSteps a ->
  maxSteps a <= fuel ->
  stopWhileThinking w 1 = false ->
  stopWhileActing w 1 = false ->
  stopWhileSleeping w 1 = false ->
  stopWhileThinking w 2 = false ->
  silent (chat w 1) ->
  silent (chat w 2) ->
  exists heads o before,
    startTask fuel w prompt tab a = Some (heads, o)
    /\ length heads = 3
    /\ sent o
       = [taskStarted prompt; thinkingAbout; reasoningOf fallbackCall;
          acting fallbackCall]
         ++ before
         ++ [thinkingAbout; reasoningOf finishCall;
             mkUpdate "system"
               "✅ Task completed: Task appears complete based on previous actions";
             taskAborted]
    /\ Forall afterAction before
    /\ stopped (agent o).
Proof.
  intros Hmax Hfuel Hthink1 Hact1 Hsleep1 Hthink2 Hsilent1 Hsilent2.
  assert (Hentered : exists a0,
    a0 = agent (enterTask prompt tab a)
    /\ actionHistory a0 = [] /\ lastAction a0 = None
    /\ isRunning a0 = true /\ stepCount a0 = 0
    /\ maxSteps a0 = maxSteps a).
  { eexists. split; [reflexivity|]. by rewrite enterTask_spec. }
  destruct Hentered as (a0 & Ha0 & Hhist0 & Hlast0 & Hrun0 & Hstep0 & Hmax0).
  destruct (silent_first_pass w a0)
    as (Hc1 & Hr1 & Hn1 & Hm1 & Hl1 & before & Hs1 & Hb1);
    rewrite ?Hstep0; try done.
  rewrite Hstep0 in Hn1, Hl1.
  pose proof (silent_second_pass w (agent (loopBody w a0)) _ Hr1 Hl1
                eq_refl eq_refl) as Hbody2.
  rewrite Hn1 in Hbody2. specialize (Hbody2 Hthink2 Hsilent2).
  destruct fuel as [|[|fuel]]; [lia | lia |].
  assert (Hcond0 : loopCondition a0 = true).
  { unfold loopCondition. rewrite Hrun0, Hstep0, Hmax0. apply Nat.ltb_lt. lia. }
  assert (Hcond1 : loopCondition (agent (loopBody w a0)) = true).
  { unfold loopCondition. rewrite Hr1, Hn1, Hm1, Hmax0. apply Nat.ltb_lt. lia. }
  pose proof (whileLoop_two_passes w fuel a0 _ _ Hcond0 Hc1 Hcond1 Hbody2)
    as Hloop.
  rewrite Ha0 in Hloop at 1.
  assert (Hlt : stepCount (agent (stopTask (decided w (agent (loopBody w a0)))))
                < maxSteps (agent (stopTask
                                     (decided w (agent (loopBody w a0)))))).
  { destruct (stopTask_budget (decided w (agent (loopBody w a0))))
      as (-> & -> & _).
    destruct (decided_control w (agent (loopBody w a0))) as (_ & _ & Hm & _).
    change (maxSteps (decided w (agent (loopBody w a0)))
            = maxSteps (agent (loopBody w a0))) in Hm.
    lia. }
  exists [a0; agent (loopBody w a0);
          agent (stopTask (decided w (agent (loopBody w a0))))],
    (mkOutcome (Normal tt)
       (agent (stopTask (decided w (agent (loopBody w a0)))))
       (taskStarted prompt
        :: sent (loopBody w a0)
           ++ [thinkingAbout; reasoningOf finishCall;
               taskCompleted finishCall; taskAborted])),
    before.
  split; [exact (startTask_stopped _ _ _ _ _ _ _ _ Hloop Hlt)|].
  split; [reflexivity|]. cbn [agent sent].
  split; [|split; [exact Hb1 | apply stopTask_budget]].
  rewrite Hs1. unfold announced. rewrite <- !app_assoc. reflexivity.
Qed.

Lemma silent_planner_ends_at_step_two_witness :
  exists heads o,
    startTask 10 prose "Read the page" 7 new = Some (heads, o)
    /\ length heads = 3
    /\ last (sent o) = Some taskAborted
    /\ isRunning (agent o) = false.
Proof.
  destruct (silent_planner_ends_at_step_two prose "Read the page" 7 new 10)
    as (heads & o & before & Hrun & Hlen & Hsent & _ & Hstopped & _).
  - simpl; lia.
  - simpl; lia.
  - reflexivity.
  - reflexivity.
  - reflexivity.
  - reflexivity.
  - split; [reflexivity | intros tc Htc; discriminate].
  - split; [reflexivity | intros tc Htc; discriminate].
  - exists heads, o. split; [exact Hrun|]. split; [exact Hlen|].
    split; [|exact Hstopped].
    rewrite Hsent, app_assoc, last_app. reflexivity.
Defined.

(** *** The conversation *)

(** The roles of the messages the agent writes itself. *)
Definition fromAgent (m : ChatMessage) : Prop :=
  role m = "system" \/ role m = "user".

(** The outcome [o] of a computation started from [a] has the
    conversation of [a] and, after it, at most [k] messages written by
    the agent; none if the computation threw. *)
Definition adds {A : Type} (k : nat) (a : AIAgent) (o : Outcome A) : Prop :=
  exists more,
    conversationHistory (agent o) = conversationHistory a ++ more
    /\ length more <= k
    /\ Forall fromAgent more
    /\ (forall e, completion o = Throw e -> more = []).

Definition sameConversation (a a' : AIAgent) : Prop :=
  conversationHistory a' = conversationHistory a.

#[local] Instance sameConversation_refl : Reflexive sameConversation.
Proof. by intros a. Qed.

#[local] Instance sameConversation_trans : Transitive sameConversation.
Proof. intros a b c Hab Hbc. unfold sameConversation in *. congruence. Qed.

Definition anyUpdate (u : Update) : Prop := True.

Ltac silent_on_conversation :=
  respects_with ltac:(first [ reflexivity | exact I | by case_match ]).

Lemma think_conversation w n :
  Respects sameConversation anyUpdate (think w n).
Proof.
  unfold think, handleAgentStop, stopTask, recordAction.
  silent_on_conversation.
Qed.

Lemma act_conversation w n fc :
  Respects sameConversation anyUpdate (act w n fc).
Proof. unfold act, handleAgentStop, stopTask. silent_on_conversation. Qed.

Lemma pause_conversation w n :
  Respects sameConversation anyUpdate (pause w n).
Proof. unfold pause, handleAgentStop, stopTask. silent_on_conversation. Qed.

Lemma stopTask_conversation :
  Respects sameConversation anyUpdate stopTask.
Proof. unfold stopTask. silent_on_conversation. Qed.

Ltac adds_done :=
  unfold adds; wp_simpl;
  first
    [ exists []; split; [by rewrite app_nil_r|];
      split; [simpl; lia|]; split; [constructor|]; done
    | eexists; split; [rewrite <- ?app_assoc; reflexivity|];
      split; [simpl; lia|];
      split; [repeat constructor; first [ by left | by right ]|];
      first [ by intros ? [=] | intros; exfalso; congruence ] ].

Lemma observe_adds r a : wp (observe r) a (adds 4 a).
Proof. unfold observe. wp_run; adds_done. Qed.


Lemma pause_normal w n a : completion (pause w n a) = Normal tt.
Proof.
  unfold pause, when, handleAgentStop, bind, and_then, gets.
  destruct (stopWhileSleeping w n); [|reflexivity].
  cbn [completion agent sent]. by destruct (isRunning a).
Qed.

Lemma adds_same {A : Type} (k : nat) (a a' : AIAgent) (o : Outcome A) :
  sameConversation a a' -> adds k a' o -> adds k a o.
Proof.
  intros Hsame (more & Hconv & Hrest). exists more.
  split; [|exact Hrest]. unfold sameConversation in Hsame. congruence.
Qed.

Lemma adds_nothing {A : Type} (k : nat) (a : AIAgent) (o : Outcome A) :
  sameConversation a (agent o) -> adds k a o.
Proof.
  intros Hsame. exists []. rewrite app_nil_r.
  split; [exact Hsame|]. split; [simpl; lia|]. split; [constructor | done].
Qed.

Lemma tryBlock_adds w n a : adds 4 a (tryBlock w n a).
Proof.
  change (wp (tryBlock w n) a (adds 4 a)).
  unfold tryBlock. apply wp_bind.
  apply (wp_respects sameConversation anyUpdate _ _ _ (think_conversation w n)).
  intros [fc|e] a1 s1 Hthink _; unfold after; cbn [completion agent sent];
    [|by apply adds_nothing].
  apply wp_bind. wp_step.
  destruct (negb (isRunning a1)); [wp_step; by apply adds_nothing|].
  destruct (String.eqb (action fc) "finish").
  { apply wp_bind. wp_step. apply wp_bind.
    apply (wp_respects sameConversation anyUpdate _ _ _ stopTask_conversation).
    intros [[]|e] a2 s2 Hstop _; unfold after; cbn [completion agent sent].
    - wp_step. apply adds_nothing. by etrans.
    - apply adds_nothing. by etrans. }
  apply wp_bind.
  apply (wp_respects sameConversation anyUpdate _ _ _
           (act_conversation w n fc)).
  intros [result|e] a2 s2 Hact _; unfold after; cbn [completion agent sent];
    [|apply adds_nothing; by etrans].
  assert (Hsame : sameConversation a a2) by by etrans.
  apply wp_bind. wp_step.
  destruct (negb (isRunning a2)); [wp_step; by apply adds_nothing|].
  apply wp_bind. destruct result as [result|];
    [|wp_step; by apply adds_nothing].
  pose proof (observe_adds result a2) as Hobserve.
  unfold wp in Hobserve. unfold wp at 1.
  destruct (observe result a2) as [[[]|e] a3 s3];
    unfold after; cbn [completion agent sent];
    apply adds_same with (a' := a2); try exact Hsame;
    destruct Hobserve as (more & Hconv & Hlen & Hall & Hthrow);
    cbn [agent completion] in Hconv, Hthrow.
  - unfold wp, bind, and_then.
    destruct (pause_conversation w n a3) as [Hpause _].
    rewrite (pause_normal w n a3). cbn [completion agent sent ret].
    exists more. cbn [agent completion].
    split; [unfold sameConversation in Hpause; congruence|].
    split; [exact Hlen|]. split; [exact Hall | done].
  - exists more. cbn [agent completion]. split_and!; try done.
    intros _ _. exact (Hthrow e eq_refl).
Qed.


Lemma loopBody_adds w a : adds 4 a (loopBody w a).
Proof.
  rewrite loopBody_unfold. cbv zeta. unfold try_catch, or_catch.
  destruct (tryBlock_adds w (S (stepCount a))
              (set_stepCount (S (stepCount a)) a))
    as (more & Hconv & Hlen & Hall & Hthrow).
  cbn [conversationHistory set_stepCount] in Hconv.
  destruct (tryBlock w (S (stepCount a)) (set_stepCount (S (stepCount a)) a))
    as [[flow|e] a1 s1]; cbn [completion agent sent] in *.
  - exists more. cbn [agent completion]. split_and!; done.
  - rewrite (Hthrow e eq_refl), app_nil_r in Hconv.
    rewrite catchBlock_spec. cbn [agent completion sent].
    exists [errorNote e]. cbn [conversationHistory set_conversationHistory].
    rewrite Hconv. split; [reflexivity|]. split; [simpl; lia|].
    split; [repeat constructor; by left | done].
Qed.

(** The passes the loop can still make from [a]. *)
Definition budget (a : AIAgent) : nat :=
  if isRunning a then maxSteps a - stepCount a else 0.

Lemma loopBody_budget w a :
  loopCondition a = true ->
  budget (agent (loopBody w a)) < budget a.
Proof.
  unfold loopCondition, budget. intros Hcond.
  apply andb_true_iff in Hcond as [Hrun Hlt]. apply Nat.ltb_lt in Hlt.
  rewrite Hrun.
  destruct (loopBody_may_stop w a) as [Hmax [[Hsame _]|[Hstopped _]]].
  - destruct Hsame as (Hr & Hn & _ & _).
    cbn [isRunning stepCount maxSteps set_stepCount] in Hr, Hn, Hmax.
    rewrite Hr, Hrun, Hn, Hmax. lia.
  - destruct Hstopped as (-> & _ & _). lia.
Qed.

Lemma whileLoop_adds w fuel :
  forall a heads o,
    whileLoop fuel w a = Some (heads, o) ->
    exists more,
      conversationHistory (agent o) = conversationHistory a ++ more
      /\ length more <= 4 * budget a
      /\ Forall fromAgent more.
Proof.
  induction fuel as [|fuel IH]; intros a heads o; cbn [whileLoop];
    cbv zeta; destruct (loopCondition a) eqn:Hcond; try discriminate;
    try (intros [= <- <-]; exists []; rewrite app_nil_r;
         split; [reflexivity | split; [simpl; lia | constructor]]).
  pose proof (loopBody_budget w a Hcond) as Hbudget.
  destruct (loopBody_adds w a) as (more & Hconv & Hlen & Hall & _).
  destruct (completion (loopBody w a)) as [[|]|e].
  - destruct (whileLoop fuel w _) as [[heads' o']|] eqn:Hloop;
      [|discriminate].
    intros [= <- <-]. cbn [agent].
    destruct (IH _ _ _ Hloop) as (more' & Hconv' & Hlen' & Hall').
    exists (more ++ more'). rewrite Hconv', Hconv, app_assoc.
    split; [reflexivity|]. rewrite length_app.
    split; [lia | by apply Forall_app].
  - intros [= <- <-]. exists more. cbn [agent].
    split; [exact Hconv|]. split; [lia | exact Hall].
  - intros [= <- <-]. exists more. cbn [agent].
    split; [exact Hconv|]. split; [lia | exact Hall].
Qed.

Lemma afterLoop_conversation :
  Respects sameConversation anyUpdate afterLoop.
Proof. unfold afterLoop, stopTask. silent_on_conversation. Qed.

Lemma taskFailed_conversation e :
  Respects sameConversation anyUpdate (taskFailed e).
Proof. unfold taskFailed, stopTask. silent_on_conversation. Qed.

Lemma and_then_conversation {A B : Type} (o : Outcome A) (k : A -> M B) :
  (forall x, Respects sameConversation anyUpdate (k x)) ->
  conversationHistory (agent (and_then o k)) = conversationHistory (agent o).
Proof.
  intros Hk. unfold and_then. destruct (completion o) as [x|e]; [|done].
  destruct (Hk x (agent o)) as [Hsame _]. exact Hsame.
Qed.

Lemma or_catch_conversation {A : Type} (c : Completion A) (a : AIAgent)
  (s : list Update) (h : string -> M A) :
  (forall e, Respects sameConversation anyUpdate (h e)) ->
  conversationHistory (agent (or_catch (mkOutcome c a s) h))
  = conversationHistory a.
Proof.
  intros Hh. unfold or_catch. cbn [completion agent].
  destruct c as [x|e]; [done|].
  destruct (Hh e a) as [Hsame _]. exact Hsame.
Qed.

Lemma enterTask_budget prompt tab a :
  conversationHistory (agent (enterTask prompt tab a))
  = [mkMessage "system" getSystemPrompt; mkMessage "user" prompt]
  /\ budget (agent (enterTask prompt tab a)) = maxSteps a.
Proof.
  rewrite enterTask_spec. split; [reflexivity|].
  unfold budget. cbn [agent isRunning maxSteps stepCount]. lia.
Qed.

(** X13.  A pass through the loop never throws and never rewrites the
    conversation: it only appends to it, at most 4 messages, each with
    the role [system] or [user]; the decisions of the planner are never
    added. *)
Theorem loopBody_conversation (w : World) (a : AIAgent) :
  let o := loopBody w a in
  (exists flow, completion o = Normal flow)
  /\ exists more,
       conversationHistory (agent o) = conversationHistory a ++ more
       /\ length more <= 4
       /\ Forall (fun m => role m = "system" \/ role m = "user") more.
Proof.
  cbv zeta. split.
  - destruct (loopBody_flow w a) as (flow & Hflow & _). by exists flow.
  - destruct (loopBody_adds w a) as (more & Hconv & Hlen & Hall & _).
    by exists more.
Qed.

Lemma startTask_adds w prompt tab a fuel heads o :
  startTask fuel w prompt tab a = Some (heads, o) ->
  exists more,
    conversationHistory (agent o)
    = [mkMessage "system" getSystemPrompt; mkMessage "user" prompt] ++ more
    /\ length more <= 4 * maxSteps a
    /\ Forall fromAgent more.
Proof.
  unfold startTask, agentLoop. cbv zeta.
  destruct (enterTask_budget prompt tab a) as [Hconv0 Hbudget0].
  generalize dependent (agent (enterTask prompt tab a)).
  intros a0 Hconv0 Hbudget0.
  destruct (whileLoop fuel w a0) as [[heads' o']|] eqn:Hloop; [|discriminate].
  cbv beta iota. intros [= <- <-].
  destruct (whileLoop_adds w fuel _ _ _ Hloop)
    as (more & Hconv & Hlen & Hall).
  rewrite Hconv0 in Hconv. rewrite Hbudget0 in Hlen.
  exists more. split; [|by split].
  rewrite <- Hconv.
  etrans; [apply or_catch_conversation, taskFailed_conversation|].
  apply and_then_conversation. intros _. apply afterLoop_conversation.
Qed.

(** X14.  Whatever the planner, the tab and the user do, a task ends
    with a conversation made of the system prompt and the user's prompt
    followed by at most 4 messages per step of the budget, each with the
    role [system] or [user]. *)
Theorem startTask_conversation (w : World) (prompt : string) (tab : nat)
  (a : AIAgent) (fuel : nat) :
  maxSteps a <= fuel ->
  exists heads o more,
    startTask fuel w prompt tab a = Some (heads, o)
    /\ conversationHistory (agent o)
       = [mkMessage "system" getSystemPrompt; mkMessage "user" prompt]
         ++ more
    /\ length more <= 4 * maxSteps a
    /\ Forall (fun m => role m = "system" \/ role m = "user") more.
Proof.
  intros Hfuel.
  destruct (startTask_run w prompt tab a fuel Hfuel)
    as (heads & o & _ & Hrun & _).
  destruct (startTask_adds _ _ _ _ _ _ _ Hrun) as (more & Hmore).
  by exists heads, o, more.
Qed.

Lemma startTask_conversation_witness :
  exists heads o more,
    startTask 10 prose "Read the page" 7 new = Some (heads, o)
    /\ conversationHistory (agent o)
       = [mkMessage "system" getSystemPrompt;
          mkMessage "user" "Read the page"] ++ more
    /\ length more <= 40.
Proof.
  destruct (startTask_conversation prose "Read the page" 7 new 10)
    as (heads & o & more & Hrun & Hconv & Hlen & _).
  - simpl; lia.
  - exists heads, o, more. split; [exact Hrun|].
    split; [exact Hconv | exact Hlen].
Defined.

(** A submit click that timed out for the third time in a row: the pass
    adds 4 messages to the conversation. *)
Definition submitting : World :=
  calm (fun _ => mkCall "click" (Some "#submit") None (Some "Search") None)
    (fun _ => Resolved (Some (mkResult false None
                                (Some "Action timeout after 10 seconds")
                                None None))).

Lemma loopBody_conversation_tight :
  map role
    (drop (length (conversationHistory (submitted 2)))
       (conversationHistory (agent (loopBody submitting (submitted 2)))))
  = ["system"; "system"; "system"; "user"].
Proof. vm_compute. reflexivity. Qed.

(** *** Stop requests *)

(** X15.  [handleAgentStop] stops an agent that is running, with one
    [task_aborted], and leaves an agent that is not running as it is,
    sending nothing: a stop request that follows another is not answered
    with a second [task_aborted], whereas [stopTask] itself sends one
    whenever it is called. *)
Theorem handleAgentStop_once (a : AIAgent) :
  let o := handleAgentStop a in
  completion o = Normal tt
  /\ isRunning (agent o) = false
  /\ (isRunning a = true ->
      o = mkOutcome (Normal tt) (agent (stopTask a)) [taskAborted])
  /\ (isRunning a = false -> o = mkOutcome (Normal tt) a [])
  /\ handleAgentStop (agent o) = mkOutcome (Normal tt) (agent o) []
  /\ sent (stopTask (agent o)) = [taskAborted].
Proof.
  cbv zeta. rewrite !handleAgentStop_spec.
  destruct (isRunning a) eqn:Hrun; cbn [completion agent sent isRunning];
    rewrite ?Hrun, ?stopTask_spec; by repeat split.
Qed.

Lemma handleAgentStop_once_witness :
  sent (handleAgentStop clicked) = [taskAborted]
  /\ sent (handleAgentStop (agent (handleAgentStop clicked))) = [].
Proof.
  pose proof (handleAgentStop_once clicked) as H. cbv zeta in H.
  destruct H as (_ & _ & Hrunning & _ & Hagain & _).
  split; [by rewrite (Hrunning eq_refl) | by rewrite Hagain].
Defined.

(** *** From ACT to OBSERVE *)

Lemma think_records w n a :
  wp (think w n) a
    (fun o =>
       forall fc,
         completion o = Normal fc ->
         exists step,
           lastAction (agent o)
           = Some (mkRecord (action fc) (target fc) (text fc) step)).
Proof.
  unfold think.
  wp_run; intros fc' [= <-]; eexists; first [reflexivity | by case_match].
Qed.

Lemma act_answered w n fc a :
  wp (act w n fc) a
    (fun o =>
       forall r,
         completion o = Normal r ->
         isRunning (agent o) = true ->
         lastAction (agent o) = lastAction a
         /\ (action fc = "click" -> target fc <> None)).
Proof.
  unfold act.
  wp_run; intros r' Hdone Hrun; try discriminate;
    (split; [reflexivity|]); intros Hclick;
    try done;
    repeat match goal with
    | H : String.eqb _ _ = _ |- _ => rewrite Hclick in H
    end; done.
Qed.

Lemma observe_completes r a :
  targeted a -> completion (observe r a) = Normal tt.
Proof.
  intros Ht.
  change (wp (observe r) a (fun o => completion o = Normal tt)).
  unfold observe. wp_run; try reflexivity; absurd_target Ht.
Qed.

(** X16.  Whenever [think] and [act] return and leave the agent
    running, the last action is the decision [think] returned, a click
    among them has a target, and [observe] completes on whatever result
    [act] returned: only an answer that is missing makes the pass fail
    after [act]. *)
Theorem observe_after_act (w : World) (n : nat) (a a1 a2 : AIAgent)
  (fc : FunctionCall) (u1 u2 : list Update) (r : option ActionResult) :
  think w n a = mkOutcome (Normal fc) a1 u1 ->
  act w n fc a1 = mkOutcome (Normal r) a2 u2 ->
  isRunning a2 = true ->
  (exists step,
     lastAction a2 = Some (mkRecord (action fc) (target fc) (text fc) step))
  /\ targeted a2
  /\ forall result, completion (observe result a2) = Normal tt.
Proof.
  intros Hthink Hact Hrun.
  pose proof (think_records w n a) as Hrecord. unfold wp in Hrecord.
  rewrite Hthink in Hrecord. destruct (Hrecord fc eq_refl) as [step Hlast1].
  pose proof (act_answered w n fc a1) as Hanswer. unfold wp in Hanswer.
  rewrite Hact in Hanswer.
  destruct (Hanswer r eq_refl Hrun) as [Hlast2 Htarget].
  cbn [agent] in Hlast1, Hlast2.
  assert (Htargeted : targeted a2).
  { intros r'. rewrite Hlast2, Hlast1. intros [= <-]. exact Htarget. }
  split; [exists step; congruence|]. split; [exact Htargeted|].
  intros result. by apply observe_completes.
Qed.

Definition search : FunctionCall :=
  mkCall "click" (Some "#submit") None (Some "Search") None.

Lemma observe_after_act_witness :
  targeted (agent (act submitting 2 search
                     (agent (think submitting 2 clicked))))
  /\ completion
       (observe extracted
          (agent (act submitting 2 search
                    (agent (think submitting 2 clicked)))))
     = Normal tt.
Proof.
  destruct (observe_after_act submitting 2 clicked
              (agent (think submitting 2 clicked))
              (agent (act submitting 2 search
                        (agent (think submitting 2 clicked))))
              search
              (sent (think submitting 2 clicked))
              (sent (act submitting 2 search
                       (agent (think submitting 2 clicked))))
              (Some (mkResult false None
                       (Some "Action timeout after 10 seconds") None None)))
    as (_ & Htargeted & Hcompletes).
  - vm_compute. reflexivity.
  - vm_compute. reflexivity.
  - reflexivity.
  - split; [exact Htargeted | apply Hcompletes].
Defined.

End AgentFacts.
